(** * ReCoRD reader with two knowledge memories: feature engineering and decoding

    A shallow embedding of [src/reader/record_twomemory.py]: the example
    reader, the answer-span projector, the sliding-window chunker with its
    max-context rule, the concept lookups and concept-row padding, batching,
    the epoch wrapper and the prediction decoder: best indexes, candidates,
    null score, n-best list, final selection and text reprojection.

    Python integers are [Z]; a Python [str] is the list of its code points
    ([N]); a dict keyed by integers is a [gmap Z _]; a Python [float] is an
    IEEE 754 binary64 number ([spec_float] with 53 bits of precision), and the
    span scores, null scores and score differences are computed with its
    rounded operations; a logit read from a model output is given by its value
    ([Q]) and converted where the code computes with it; a generator is the
    finite trace of what it yields together with the way it stops. *)

From Stdlib Require Import ZArith QArith Lia String Ascii SpecFloat.
From stdpp Require Import base option list sorting gmap.

Local Open Scope Z_scope.

(** ** Python primitives *)

(** A [str]: the sequence of its code points. *)
Abbreviation pystr := (list N).

(** An ASCII literal as a [str]. *)
Definition str (s : string) : pystr :=
  List.map N_of_ascii (list_ascii_of_string s).

(** [len(l)] as a Python integer. *)
Definition len {A} (l : list A) : Z := Z.of_nat (length l).

(** [l[i]]: negative indices count from the end, anything out of range
    raises [IndexError] ([None]). *)
Definition py_index {A} (l : list A) (i : Z) : option A :=
  if 0 <=? i then l !! Z.to_nat i
  else if - len l <=? i then l !! Z.to_nat (len l + i)
  else None.

(** How a slice bound is normalised against the length of the sequence. *)
Definition py_clamp (n i : Z) : Z :=
  if i <? 0 then Z.max 0 (n + i) else Z.min i n.

(** [l[a:b]]: never raises. *)
Definition py_slice {A} (l : list A) (a b : Z) : list A :=
  let lo := py_clamp (len l) a in
  let hi := py_clamp (len l) b in
  take (Z.to_nat (hi - lo)) (drop (Z.to_nat lo) l).

(** [sep.join(parts)]. *)
Fixpoint join (sep : pystr) (parts : list pystr) : pystr :=
  match parts with
  | [] => []
  | [p] => p
  | p :: rest => p ++ sep ++ join sep rest
  end.

Definition space : pystr := [32%N].

(** [text.startswith(pat)]. *)
Fixpoint starts_with (pat text : pystr) : bool :=
  match pat, text with
  | [], _ => true
  | _ :: _, [] => false
  | p :: pat', c :: text' => if N.eqb p c then starts_with pat' text' else false
  end.

Fixpoint find_from (text pat : pystr) (i : Z) : Z :=
  if starts_with pat text then i
  else match text with
       | [] => -1
       | _ :: text' => find_from text' pat (i + 1)
       end.

(** [text.find(pat)]: index of the first occurrence, [-1] when there is none. *)
Definition find (text pat : pystr) : Z := find_from text pat 0.

(** [range(a, b)]. *)
Definition range (a b : Z) : list Z :=
  List.map (fun k => a + Z.of_nat k) (seq 0 (Z.to_nat (b - a))).

(** [range(a, b, -1)]. *)
Definition range_down (a b : Z) : list Z :=
  List.map (fun k => a - Z.of_nat k) (seq 0 (Z.to_nat (a - b))).

(** ** Generators

    A generator that is consumed to its end either finishes, raises, or never
    comes back from a loop; before that it has yielded finitely many values. *)

Inductive outcome := Done | Raised | Hangs.

Inductive gen (A : Type) :=
| Yield (a : A) (rest : gen A)
| Stop (o : outcome).
Arguments Yield {A} a rest.
Arguments Stop {A} o.

Fixpoint emitted {A} (g : gen A) : list A :=
  match g with
  | Yield a rest => a :: emitted rest
  | Stop _ => []
  end.

Fixpoint ending {A} (g : gen A) : outcome :=
  match g with
  | Yield _ rest => ending rest
  | Stop o => o
  end.

(** A generator that yields the elements of a list and finishes. *)
Fixpoint gen_of_list {A} (l : list A) : gen A :=
  match l with
  | [] => Stop Done
  | a :: l' => Yield a (gen_of_list l')
  end.

(** [for x in g1: yield x] followed by the rest of the body, [g2]. *)
Fixpoint gen_app {A} (g1 g2 : gen A) : gen A :=
  match g1 with
  | Yield a rest => Yield a (gen_app rest g2)
  | Stop Done => g2
  | Stop o => Stop o
  end.

(** ** Document spans (lines 340-351) *)

Module DocSpan.
Record t := mk { start : Z; length : Z }.
End DocSpan.

(** The sliding-window loop over a document of [n] sub-tokens, entered with
    the given [start_offset].  [fuel] bounds the number of iterations: the
    Python loop does not terminate when it cannot advance. *)
Fixpoint doc_spans_from (fuel : nat) (n max_tokens_for_doc doc_stride start_offset : Z)
  : option (list DocSpan.t) :=
  if start_offset <? n then
    match fuel with
    | O => None
    | S fuel' =>
        let length := n - start_offset in
        let length :=
          if length >? max_tokens_for_doc then max_tokens_for_doc else length in
        let doc_span := DocSpan.mk start_offset length in
        if start_offset + length =? n then Some [doc_span]
        else cons doc_span <$>
               doc_spans_from fuel' n max_tokens_for_doc doc_stride
                 (start_offset + Z.min length doc_stride)
    end
  else Some [].

Definition doc_spans (fuel : nat) (n max_tokens_for_doc doc_stride : Z) :=
  doc_spans_from fuel n max_tokens_for_doc doc_stride 0.

(** Last token index of a span. *)
Definition span_end (sp : DocSpan.t) : Z := DocSpan.start sp + DocSpan.length sp - 1.

Definition in_span (sp : DocSpan.t) (p : Z) : Prop :=
  DocSpan.start sp <= p <= span_end sp.

(** Each span starts after the one before it and no later than one past its end. *)
Fixpoint no_gaps (spans : list DocSpan.t) : Prop :=
  match spans with
  | sp :: ((sp' :: _) as rest) =>
      DocSpan.start sp < DocSpan.start sp' <= span_end sp + 1 /\ no_gaps rest
  | _ => True
  end.

(** ** External collaborators

    [src/reader/tokenization.py], [src/reader/batching_twomemory.py] and
    [src/reader/record_official_evaluate.py] are not part of the embedding;
    what this file calls from them is an interface. *)

Class Tokenization := {
  (** [FullTokenizer.basic_tokenizer.do_lower_case] *)
  do_lower_case : bool;
  (** [FullTokenizer.tokenize] *)
  tokenize : pystr -> list pystr;
  (** [FullTokenizer.convert_tokens_to_ids] *)
  convert_tokens_to_ids : list pystr -> list Z;
  (** [BasicTokenizer(do_lower_case).tokenize] *)
  basic_tokenize : bool -> pystr -> list pystr;
  (** [tokenization.whitespace_tokenize] *)
  whitespace_tokenize : pystr -> list pystr;
}.

(** ** Answer-span projection (lines 491-525) *)

Section AnswerSpan.
Context `{Tokenization}.

Definition text_span (doc_tokens : list pystr) (new_start new_end : Z) : pystr :=
  join space (py_slice doc_tokens new_start (new_end + 1)).

(** The inner loop, over the remaining values of [new_end]. *)
Fixpoint scan_ends (doc_tokens : list pystr) (tok_answer_text : pystr)
    (new_start : Z) (ends : list Z) : option (Z * Z) :=
  match ends with
  | [] => None
  | new_end :: ends' =>
      if bool_decide (text_span doc_tokens new_start new_end = tok_answer_text)
      then Some (new_start, new_end)
      else scan_ends doc_tokens tok_answer_text new_start ends'
  end.

(** The outer loop, over the remaining values of [new_start]. *)
Fixpoint scan_starts (doc_tokens : list pystr) (tok_answer_text : pystr)
    (input_end : Z) (starts : list Z) : option (Z * Z) :=
  match starts with
  | [] => None
  | new_start :: starts' =>
      match scan_ends doc_tokens tok_answer_text new_start
              (range_down input_end (new_start - 1)) with
      | Some found => Some found
      | None => scan_starts doc_tokens tok_answer_text input_end starts'
      end
  end.

Definition _improve_answer_span (doc_tokens : list pystr) (input_start input_end : Z)
    (orig_answer_text : pystr) : Z * Z :=
  let tok_answer_text := join space (tokenize orig_answer_text) in
  match scan_starts doc_tokens tok_answer_text input_end
          (range input_start (input_end + 1)) with
  | Some found => found
  | None => (input_start, input_end)
  end.

End AnswerSpan.

(** ** Floating-point numbers

    A Python [float] is an IEEE 754 binary64 number: a [spec_float] of the
    Standard Library with a precision of 53 bits and infinities at exponent
    1024.  Sums, differences and products are the library's, which round to
    nearest, ties to even, overflow to an infinity and give NaN where IEEE 754
    does. *)

Definition float64 : Type := spec_float.

(** The integer [z] as a mantissa with exponent 0, before any rounding. *)
Definition raw_of_Z (z : Z) : float64 :=
  match z with
  | Z0 => S754_zero false
  | Zpos m => S754_finite false m 0
  | Zneg m => S754_finite true m 0
  end.

(** [float(z)] for a Python [int], as in [0.01 * doc_span.length]: the
    nearest binary64 number.  (Python raises [OverflowError] for an [int]
    beyond the binary64 range, where this gives an infinity; lengths and
    positions of sequences stay below [2^63].) *)
Definition float_of_Z (z : Z) : float64 := binary_normalize 53 1024 z 0 false.

(** The binary64 number nearest to a rational: the value of a decimal literal
    such as [0.01], and of a logit given by its value. *)
Definition float_of_Q (q : Q) : float64 :=
  SFdiv 53 1024 (raw_of_Z (Qnum q)) (raw_of_Z (Zpos (Qden q))).

Definition fadd : float64 -> float64 -> float64 := SFadd 53 1024.
Definition fsub : float64 -> float64 -> float64 := SFsub 53 1024.
Definition fmul : float64 -> float64 -> float64 := SFmul 53 1024.

(** [x > y] on floats. *)
Definition fgt (x y : float64) : bool := SFltb y x.

(** ** Max-context ownership (lines 528-563) *)

(** [x > y] on scores. *)
Definition Qgt_bool (x y : Q) : bool :=
  match (x ?= y)%Q with Gt => true | _ => false end.

(** [min(num_left_context, num_right_context) + 0.01 * doc_span.length] *)
Definition span_score (doc_span : DocSpan.t) (position : Z) : float64 :=
  let end_ := DocSpan.start doc_span + DocSpan.length doc_span - 1 in
  let num_left_context := position - DocSpan.start doc_span in
  let num_right_context := end_ - position in
  fadd (float_of_Z (Z.min num_left_context num_right_context))
       (fmul (float_of_Q (1 # 100)) (float_of_Z (DocSpan.length doc_span))).

(** [enumerate(l)], counting from [i]. *)
Fixpoint enumerate_from {A} (i : Z) (l : list A) : list (Z * A) :=
  match l with
  | [] => []
  | x :: l' => (i, x) :: enumerate_from (i + 1) l'
  end.

Definition enumerate {A} (l : list A) : list (Z * A) := enumerate_from 0 l.

(** One iteration of the loop over the spans, on the pair
    [(best_score, best_span_index)]. *)
Definition max_context_step (position : Z) (best : option float64 * option Z)
    (item : Z * DocSpan.t) : option float64 * option Z :=
  let '(span_index, doc_span) := item in
  let end_ := DocSpan.start doc_span + DocSpan.length doc_span - 1 in
  if position <? DocSpan.start doc_span then best
  else if position >? end_ then best
  else
    let score := span_score doc_span position in
    match fst best with
    | None => (Some score, Some span_index)
    | Some best_score =>
        if fgt score best_score then (Some score, Some span_index) else best
    end.

Definition best_span (doc_spans : list DocSpan.t) (position : Z)
  : option float64 * option Z :=
  fold_left (max_context_step position) (enumerate doc_spans) (None, None).

Definition _check_is_max_context (doc_spans : list DocSpan.t)
    (cur_span_index position : Z) : bool :=
  bool_decide (Some cur_span_index = snd (best_span doc_spans position)).

(** ** Concept rows (lines 408-413) *)

(** [concept_id + [0] * (max_concept_length - len(concept_id))], cut at
    [max_concept_length].  The maximum is a maximum of list lengths, hence a
    natural number. *)
Definition pad_concept_row (max_concept_length : nat) (concept_id : list Z) : list Z :=
  take max_concept_length
    (concept_id ++ replicate (max_concept_length - length concept_id)%nat 0).

Definition pad_concept_ids (max_concept_length : nat) (concept_ids : list (list Z))
  : list (list Z) :=
  List.map (pad_concept_row max_concept_length) concept_ids.

(** ** Examples and features (lines 37-108) *)

Module ReCoRDExample.
Record t := mk {
  qas_id : pystr;
  question_text : pystr;
  doc_tokens : list pystr;
  orig_answer_text : option pystr;
  start_position : option Z;
  end_position : option Z;
  is_impossible : bool;
}.
End ReCoRDExample.

Module InputFeatures.
Record t := mk {
  unique_id : Z;
  example_index : Z;
  doc_span_index : Z;
  tokens : list pystr;
  token_to_orig_map : gmap Z Z;
  token_is_max_context : gmap Z bool;
  input_ids : list Z;
  input_mask : list Z;
  segment_ids : list Z;
  wn_concept_ids : list (list Z);
  nell_concept_ids : list (list Z);
  start_position : option Z;
  end_position : option Z;
  is_impossible : bool;
}.
End InputFeatures.

(** ** The converter object (lines 192-253)

    What [__init__] loads from the pickled artefacts.  The two lookups are
    kept as they are called: their results depend on the loaded tables and, for
    NELL, on the iteration order of a [set]; [None] is a raised exception. *)

Module TokenizationInfo.
Record t := mk {
  query_subtokens : list pystr;
  query_sub_to_ori_index : list Z;
  query_tokens : list pystr;
  document_subtokens : list pystr;
  document_sub_to_ori_index : list Z;
  document_tokens : list pystr;
}.
End TokenizationInfo.

Record EntityInfo := {
  token_start : Z;
  token_end : Z;
  retrieved_concepts : list pystr;
}.

Record NellRetrieveInfo := {
  query_entities : list EntityInfo;
  document_entities : list EntityInfo;
}.

Class Converter := {
  all_tokenization_info : pystr -> option TokenizationInfo.t;
  nell_retrieve_info : pystr -> option NellRetrieveInfo;
  max_wn_concept_length : nat;
  max_nell_concept_length : nat;
  _lookup_wordnet_concept_ids :
    list pystr -> list Z -> list pystr -> bool -> option (list (list Z));
  _lookup_nell_concept_ids :
    list pystr -> list Z -> list pystr -> list EntityInfo -> option (list (list Z));
}.

(** ** Feature conversion (lines 255-488)

    Both memories are in use ([use_wordnet] and [use_nell]); the loop over the
    query reads the rows of both. *)

Fixpoint zip3 {A B C} (la : list A) (lb : list B) (lc : list C) : list (A * B * C) :=
  match la, lb, lc with
  | a :: la', b :: lb', c :: lc' => (a, b, c) :: zip3 la' lb' lc'
  | _, _, _ => []
  end.

(** The values of the per-example variables when the loop over the spans starts. *)
Record Prepared := {
  p_query_tokens : list pystr;
  p_query_wn_concepts : list (list Z);
  p_query_nell_concepts : list (list Z);
  p_all_doc_tokens : list pystr;
  p_tok_to_orig_index : list Z;
  p_doc_wn_concepts : list (list Z);
  p_doc_nell_concepts : list (list Z);
  p_tok_start_position : option Z;
  p_tok_end_position : option Z;
}.

(** The lists and dicts of a feature while its tokens are appended. *)
Record Draft := {
  d_tokens : list pystr;
  d_token_to_orig_map : gmap Z Z;
  d_token_is_max_context : gmap Z bool;
  d_segment_ids : list Z;
  d_wn_concept_ids : list (list Z);
  d_nell_concept_ids : list (list Z);
}.

(** [tokens.append(token); segment_ids.append(segment); ...] *)
Definition draft_append (d : Draft) (token : pystr) (segment : Z)
    (wn nell : list Z) : Draft :=
  {| d_tokens := d_tokens d ++ [token];
     d_token_to_orig_map := d_token_to_orig_map d;
     d_token_is_max_context := d_token_is_max_context d;
     d_segment_ids := d_segment_ids d ++ [segment];
     d_wn_concept_ids := d_wn_concept_ids d ++ [wn];
     d_nell_concept_ids := d_nell_concept_ids d ++ [nell] |}.

Definition draft_empty : Draft :=
  {| d_tokens := []; d_token_to_orig_map := ∅; d_token_is_max_context := ∅;
     d_segment_ids := []; d_wn_concept_ids := []; d_nell_concept_ids := [] |}.

Section Conversion.
Context `{Tokenization} `{Converter}.

(** The loop over the document words (lines 292-300), on
    [(tok_to_orig_index, orig_to_tok_index, all_doc_tokens)]. *)
Definition subtokens_step (st : list Z * list Z * list pystr) (item : Z * pystr)
  : list Z * list Z * list pystr :=
  let '(tok_to_orig_index, orig_to_tok_index, all_doc_tokens) := st in
  let '(i, token) := item in
  let orig_to_tok_index := orig_to_tok_index ++ [len all_doc_tokens] in
  let sub_tokens := tokenize token in
  (tok_to_orig_index ++ List.map (fun _ => i) sub_tokens,
   orig_to_tok_index,
   all_doc_tokens ++ sub_tokens).

(** Lines 267-332. *)
Definition prepare (example : ReCoRDExample.t) (max_query_length : Z)
    (is_training : bool) : option Prepared :=
  tokenization_info ← all_tokenization_info (ReCoRDExample.qas_id example);
  let query_tokens := tokenize (ReCoRDExample.question_text example) in
  if negb (bool_decide
             (query_tokens = TokenizationInfo.query_subtokens tokenization_info))
  then None else
  query_wn_concepts ←
    _lookup_wordnet_concept_ids query_tokens
      (TokenizationInfo.query_sub_to_ori_index tokenization_info)
      (TokenizationInfo.query_tokens tokenization_info)
      (negb do_lower_case);
  nell_info ← nell_retrieve_info (ReCoRDExample.qas_id example);
  query_nell_concepts ←
    _lookup_nell_concept_ids query_tokens
      (TokenizationInfo.query_sub_to_ori_index tokenization_info)
      (TokenizationInfo.query_tokens tokenization_info)
      (query_entities nell_info);
  let '(query_tokens, query_wn_concepts, query_nell_concepts) :=
    if len query_tokens >? max_query_length
    then (py_slice query_tokens 0 max_query_length,
          py_slice query_wn_concepts 0 max_query_length,
          py_slice query_nell_concepts 0 max_query_length)
    else (query_tokens, query_wn_concepts, query_nell_concepts) in
  let '(tok_to_orig_index, orig_to_tok_index, all_doc_tokens) :=
    fold_left subtokens_step (enumerate (ReCoRDExample.doc_tokens example))
      ([], [], []) in
  if negb (bool_decide
             (all_doc_tokens = TokenizationInfo.document_subtokens tokenization_info))
  then None else
  doc_wn_concepts ←
    _lookup_wordnet_concept_ids all_doc_tokens
      (TokenizationInfo.document_sub_to_ori_index tokenization_info)
      (TokenizationInfo.document_tokens tokenization_info)
      (negb do_lower_case);
  nell_info ← nell_retrieve_info (ReCoRDExample.qas_id example);
  doc_nell_concepts ←
    _lookup_nell_concept_ids all_doc_tokens
      (TokenizationInfo.document_sub_to_ori_index tokenization_info)
      (TokenizationInfo.document_tokens tokenization_info)
      (document_entities nell_info);
  '(tok_start_position, tok_end_position) ←
    (if is_training && ReCoRDExample.is_impossible example
     then Some (Some (-1), Some (-1))
     else if is_training && negb (ReCoRDExample.is_impossible example) then
       start_position ← ReCoRDExample.start_position example;
       end_position ← ReCoRDExample.end_position example;
       orig_answer_text ← ReCoRDExample.orig_answer_text example;
       tok_start_position ← py_index orig_to_tok_index start_position;
       tok_end_position ←
         (if end_position <? len (ReCoRDExample.doc_tokens example) - 1
          then (fun t => t - 1) <$> py_index orig_to_tok_index (end_position + 1)
          else Some (len all_doc_tokens - 1));
       let '(tok_start_position, tok_end_position) :=
         _improve_answer_span all_doc_tokens tok_start_position tok_end_position
           orig_answer_text in
       Some (Some tok_start_position, Some tok_end_position)
     else Some (None, None));
  Some {| p_query_tokens := query_tokens;
          p_query_wn_concepts := query_wn_concepts;
          p_query_nell_concepts := query_nell_concepts;
          p_all_doc_tokens := all_doc_tokens;
          p_tok_to_orig_index := tok_to_orig_index;
          p_doc_wn_concepts := doc_wn_concepts;
          p_doc_nell_concepts := doc_nell_concepts;
          p_tok_start_position := tok_start_position;
          p_tok_end_position := tok_end_position |}.


(** The loop over the positions of a span (lines 376-386). *)
Fixpoint add_doc_tokens (p : Prepared) (doc_spans : list DocSpan.t)
    (doc_span_index : Z) (doc_span : DocSpan.t) (positions : list Z) (d : Draft)
  : option Draft :=
  match positions with
  | [] => Some d
  | i :: positions' =>
      let split_token_index := DocSpan.start doc_span + i in
      orig_index ← py_index (p_tok_to_orig_index p) split_token_index;
      let is_max_context :=
        _check_is_max_context doc_spans doc_span_index split_token_index in
      token ← py_index (p_all_doc_tokens p) split_token_index;
      wn ← py_index (p_doc_wn_concepts p) split_token_index;
      nell ← py_index (p_doc_nell_concepts p) split_token_index;
      add_doc_tokens p doc_spans doc_span_index doc_span positions'
        {| d_tokens := d_tokens d ++ [token];
           d_token_to_orig_map :=
             <[len (d_tokens d) := orig_index]> (d_token_to_orig_map d);
           d_token_is_max_context :=
             <[len (d_tokens d) := is_max_context]> (d_token_is_max_context d);
           d_segment_ids := d_segment_ids d ++ [1];
           d_wn_concept_ids := d_wn_concept_ids d ++ [wn];
           d_nell_concept_ids := d_nell_concept_ids d ++ [nell] |}
  end.

(** Lines 354-390: the token sequence of one span with its side tables. *)
Definition draft_of_span (p : Prepared) (doc_spans : list DocSpan.t)
    (doc_span_index : Z) (doc_span : DocSpan.t) : option Draft :=
  let d := draft_append draft_empty (str "[CLS]") 0 [] [] in
  let d :=
    fold_left (fun d '(token, query_wn_concept, query_nell_concept) =>
                 draft_append d token 0 query_wn_concept query_nell_concept)
      (zip3 (p_query_tokens p) (p_query_wn_concepts p) (p_query_nell_concepts p)) d in
  let d := draft_append d (str "[SEP]") 0 [] [] in
  d ← add_doc_tokens p doc_spans doc_span_index doc_span
         (range 0 (DocSpan.length doc_span)) d;
  Some (draft_append d (str "[SEP]") 1 [] []).

(** The body of the loop over the spans (lines 354-488): [None] when it
    raises, [Some None] when the span is skipped by [continue], otherwise the
    feature that is yielded. *)
Definition feature_of_span (p : Prepared) (example : ReCoRDExample.t)
    (is_training : bool) (doc_spans : list DocSpan.t)
    (unique_id example_index doc_span_index : Z) (doc_span : DocSpan.t)
  : option (option InputFeatures.t) :=
  d ← draft_of_span p doc_spans doc_span_index doc_span;
  let input_ids := convert_tokens_to_ids (d_tokens d) in
  let input_mask := replicate (length input_ids) 1 in
  let wn_concept_ids := pad_concept_ids max_wn_concept_length (d_wn_concept_ids d) in
  let nell_concept_ids :=
    pad_concept_ids max_nell_concept_length (d_nell_concept_ids d) in
  let emit (start_position end_position : option Z) :=
    Some (Some (InputFeatures.mk unique_id example_index doc_span_index
                  (d_tokens d) (d_token_to_orig_map d) (d_token_is_max_context d)
                  input_ids input_mask (d_segment_ids d)
                  wn_concept_ids nell_concept_ids
                  start_position end_position
                  (ReCoRDExample.is_impossible example))) in
  if is_training && negb (ReCoRDExample.is_impossible example) then
    tok_start_position ← p_tok_start_position p;
    tok_end_position ← p_tok_end_position p;
    let doc_start := DocSpan.start doc_span in
    let doc_end := DocSpan.start doc_span + DocSpan.length doc_span - 1 in
    if negb ((tok_start_position >=? doc_start) && (tok_end_position <=? doc_end))
    then Some None
    else
      let doc_offset := len (p_query_tokens p) + 2 in
      emit (Some (tok_start_position - doc_start + doc_offset))
           (Some (tok_end_position - doc_start + doc_offset))
  else if is_training && ReCoRDExample.is_impossible example then
    emit (Some 0) (Some 0)
  else emit None None.

(** The loop over the spans of one example; [next] is what the generator does
    after the last span, given the value of [unique_id] then. *)
Fixpoint convert_spans (p : Prepared) (example : ReCoRDExample.t)
    (is_training : bool) (doc_spans : list DocSpan.t) (example_index : Z)
    (spans : list (Z * DocSpan.t)) (unique_id : Z)
    (next : Z -> gen InputFeatures.t) : gen InputFeatures.t :=
  match spans with
  | [] => next unique_id
  | (doc_span_index, doc_span) :: spans' =>
      match feature_of_span p example is_training doc_spans
              unique_id example_index doc_span_index doc_span with
      | None => Stop Raised
      | Some None =>
          convert_spans p example is_training doc_spans example_index spans'
            unique_id next
      | Some (Some feature) =>
          Yield feature
            (convert_spans p example is_training doc_spans example_index spans'
               (unique_id + 1) next)
      end
  end.

(** The loop over the examples, entered with the given [unique_id]. *)
Fixpoint convert_examples (examples : list (Z * ReCoRDExample.t))
    (max_seq_length doc_stride max_query_length : Z) (is_training : bool)
    (unique_id : Z) : gen InputFeatures.t :=
  match examples with
  | [] => Stop Done
  | (example_index, example) :: examples' =>
      match prepare example max_query_length is_training with
      | None => Stop Raised
      | Some p =>
          let max_tokens_for_doc := max_seq_length - len (p_query_tokens p) - 3 in
          match doc_spans (length (p_all_doc_tokens p)) (len (p_all_doc_tokens p))
                  max_tokens_for_doc doc_stride with
          | None => Stop Hangs
          | Some spans =>
              convert_spans p example is_training spans example_index
                (enumerate spans) unique_id
                (convert_examples examples' max_seq_length doc_stride
                   max_query_length is_training)
          end
      end
  end.

(** [Examples_To_Features_Converter.__call__] *)
Definition __call__ (examples : list ReCoRDExample.t)
    (max_seq_length doc_stride max_query_length : Z) (is_training : bool)
  : gen InputFeatures.t :=
  let unique_id := 1000000000 in
  convert_examples (enumerate examples) max_seq_length doc_stride max_query_length
    is_training unique_id.

End Conversion.

(** ** Reading examples (lines 111-189) *)

Module Answer.
Record t := mk { text : pystr; start : Z }.
End Answer.

Module QA.
Record t := mk {
  id : pystr;
  query : pystr;
  answers : list Answer.t;
  is_impossible : bool;
}.
End QA.

Module Entry.
Record t := mk { passage_text : pystr; qas : list QA.t }.
End Entry.

Definition is_whitespace (c : N) : bool :=
  if ((c =? 32) || (c =? 9) || (c =? 13) || (c =? 10) || (c =? 0x202F))%N
  then true else false.

(** [text.replace('\xa0', ' ')] *)
Definition replace_nbsp (text : pystr) : pystr :=
  List.map (fun c => if (c =? 0xa0)%N then 32%N else c) text.

(** [doc_tokens[-1] += c] *)
Definition append_to_last (doc_tokens : list pystr) (c : N) : option (list pystr) :=
  match reverse doc_tokens with
  | [] => None
  | last :: before => Some (reverse before ++ [last ++ [c]])
  end.

(** The loop over the characters of the passage (lines 127-136). *)
Fixpoint split_words (text : pystr) (doc_tokens : list pystr)
    (char_to_word_offset : list Z) (prev_is_whitespace : bool)
  : option (list pystr * list Z) :=
  match text with
  | [] => Some (doc_tokens, char_to_word_offset)
  | c :: text' =>
      if is_whitespace c then
        split_words text' doc_tokens (char_to_word_offset ++ [len doc_tokens - 1]) true
      else
        doc_tokens ← (if prev_is_whitespace then Some (doc_tokens ++ [[c]])
                      else append_to_last doc_tokens c);
        split_words text' doc_tokens (char_to_word_offset ++ [len doc_tokens - 1]) false
  end.

Section Reader.
Context `{Tokenization}.

(** The body of the loop over the questions (lines 139-187): [None] when it
    raises, [Some None] when the question is skipped by [continue], otherwise
    the example that is appended. *)
Definition read_qa (is_training version_2_with_negative : bool)
    (doc_tokens : list pystr) (char_to_word_offset : list Z) (qa : QA.t)
  : option (option ReCoRDExample.t) :=
  let qas_id := QA.id qa in
  let question_text := replace_nbsp (QA.query qa) in
  if is_training then
    let is_impossible := if version_2_with_negative then QA.is_impossible qa else false in
    if negb is_impossible then
      answer ← py_index (QA.answers qa) 0;
      let orig_answer_text := Answer.text answer in
      let answer_offset := Answer.start answer in
      let answer_length := len orig_answer_text in
      start_position ← py_index char_to_word_offset answer_offset;
      end_position ← py_index char_to_word_offset (answer_offset + answer_length - 1);
      let actual_text :=
        join space (py_slice doc_tokens start_position (end_position + 1)) in
      let cleaned_answer_text := join space (whitespace_tokenize orig_answer_text) in
      if find actual_text cleaned_answer_text =? -1 then Some None
      else Some (Some (ReCoRDExample.mk qas_id question_text doc_tokens
                         (Some orig_answer_text) (Some start_position) (Some end_position)
                         is_impossible))
    else Some (Some (ReCoRDExample.mk qas_id question_text doc_tokens
                       (Some []) (Some (-1)) (Some (-1)) is_impossible))
  else Some (Some (ReCoRDExample.mk qas_id question_text doc_tokens
                     None None None false)).

Fixpoint read_qas (is_training version_2_with_negative : bool)
    (doc_tokens : list pystr) (char_to_word_offset : list Z) (qas : list QA.t)
    (examples : list ReCoRDExample.t) : option (list ReCoRDExample.t) :=
  match qas with
  | [] => Some examples
  | qa :: qas' =>
      r ← read_qa is_training version_2_with_negative doc_tokens char_to_word_offset qa;
      read_qas is_training version_2_with_negative doc_tokens char_to_word_offset qas'
        (match r with Some example => examples ++ [example] | None => examples end)
  end.

Fixpoint read_entries (is_training version_2_with_negative : bool)
    (input_data : list Entry.t) (examples : list ReCoRDExample.t)
  : option (list ReCoRDExample.t) :=
  match input_data with
  | [] => Some examples
  | entry :: input_data' =>
      let paragraph_text := replace_nbsp (Entry.passage_text entry) in
      '(doc_tokens, char_to_word_offset) ← split_words paragraph_text [] [] true;
      examples ← read_qas is_training version_2_with_negative doc_tokens
                   char_to_word_offset (Entry.qas entry) examples;
      read_entries is_training version_2_with_negative input_data' examples
  end.

(** [read_record_examples], on the parsed ["data"] of the input file. *)
Definition read_record_examples (input_data : list Entry.t)
    (is_training version_2_with_negative : bool) : option (list ReCoRDExample.t) :=
  read_entries is_training version_2_with_negative input_data [].

End Reader.

(** ** Batching (lines 656-681) *)

(** A row of a batch:
    [[input_ids, segment_ids, range(384), wn_concept_ids, nell_concept_ids] + labels]. *)
Record BatchRow := {
  row_input_ids : list Z;
  row_segment_ids : list Z;
  row_position_ids : list Z;
  row_wn_concept_ids : list (list Z);
  row_nell_concept_ids : list (list Z);
  row_labels : list (option Z);
}.

Definition row_of_feature (feature : InputFeatures.t) : BatchRow :=
  let labels :=
    match InputFeatures.start_position feature with
    | None => [Some (InputFeatures.unique_id feature)]
    | Some _ => [InputFeatures.start_position feature; InputFeatures.end_position feature]
    end in
  {| row_input_ids := InputFeatures.input_ids feature;
     row_segment_ids := InputFeatures.segment_ids feature;
     row_position_ids := range 0 384;
     row_wn_concept_ids := InputFeatures.wn_concept_ids feature;
     row_nell_concept_ids := InputFeatures.nell_concept_ids feature;
     row_labels := labels |}.

(** [batch_reader], entered with the given [batch], [total_token_num] and
    [max_len].  The progress counter [current_train_example], which the loop
    updates and nothing here reads, is left out. *)
Fixpoint batch_reader_from (features : gen InputFeatures.t) (batch_size : Z)
    (in_tokens : bool) (batch : list BatchRow) (total_token_num max_len : Z)
  : gen (list BatchRow * Z) :=
  match features with
  | Yield feature features' =>
      let seq_len := len (InputFeatures.input_ids feature) in
      let example := row_of_feature feature in
      let max_len := Z.max max_len seq_len in
      let to_append :=
        if in_tokens then (len batch + 1) * max_len <=? batch_size
        else len batch <? batch_size in
      if to_append then
        batch_reader_from features' batch_size in_tokens
          (batch ++ [example]) (total_token_num + seq_len) max_len
      else
        Yield (batch, total_token_num)
          (batch_reader_from features' batch_size in_tokens [example] seq_len seq_len)
  | Stop Done =>
      match batch with
      | [] => Stop Done
      | _ :: _ => Yield (batch, total_token_num) (Stop Done)
      end
  | Stop o => Stop o
  end.

Definition batch_reader (features : gen InputFeatures.t) (batch_size : Z)
    (in_tokens : bool) : gen (list BatchRow * Z) :=
  batch_reader_from features batch_size in_tokens [] 0 0.

(** ** The data generator (lines 566-728) *)

Record DataProcessor := {
  _max_seq_length : Z;
  _doc_stride : Z;
  _max_query_length : Z;
  _in_tokens : bool;
  pad_id : Z;
  cls_id : Z;
  sep_id : Z;
}.

(** [prepare_batch_data] of [batching_twomemory] and [random.shuffle]; the
    shuffle is given the index of the epoch that asks for it. *)
Class Batching (B : Type) := {
  prepare_batch_data :
    list BatchRow -> Z -> Z -> Z -> Z -> Z -> Z -> nat -> nat -> B;
  random_shuffle : Z -> list ReCoRDExample.t -> list ReCoRDExample.t;
}.

(** [for batch in all_dev_batches: yield batch], then [rest]. *)
Fixpoint yield_all {A} (l : list A) (rest : gen A) : gen A :=
  match l with
  | [] => rest
  | a :: l' => Yield a (yield_all l' rest)
  end.

Section Generator.
Context `{Tokenization} `{Converter} {B : Type} `{Batching B}.
Variable self : DataProcessor.

Definition get_features (examples : list ReCoRDExample.t) (is_training : bool)
  : gen InputFeatures.t :=
  __call__ examples (_max_seq_length self) (_doc_stride self) (_max_query_length self)
    is_training.

(** The loop over the batches of one epoch (lines 707-726), entered with the
    given [all_dev_batches]; [next] is what the generator does after it. *)
Fixpoint dev_batches (dev_count : Z) (batches : gen (list BatchRow * Z))
    (all_dev_batches : list B) (next : gen B) : gen B :=
  match batches with
  | Yield (batch_data, total_token_num) batches' =>
      let batch_data :=
        prepare_batch_data batch_data total_token_num (-1) (pad_id self) (cls_id self)
          (sep_id self) (-1) max_wn_concept_length max_nell_concept_length in
      let all_dev_batches :=
        if len all_dev_batches <? dev_count then all_dev_batches ++ [batch_data]
        else all_dev_batches in
      if len all_dev_batches =? dev_count then
        yield_all all_dev_batches (dev_batches dev_count batches' [] next)
      else dev_batches dev_count batches' all_dev_batches next
  | Stop Done => next
  | Stop o => Stop o
  end.

(** The loop over the epochs of [wrapper] (lines 693-726). *)
Fixpoint wrapper_from (epochs : list Z) (examples : list ReCoRDExample.t)
    (is_training : bool) (batch_size : Z) (shuffle : bool) (dev_count : Z) : gen B :=
  match epochs with
  | [] => Stop Done
  | epoch_index :: epochs' =>
      let examples := if shuffle then random_shuffle epoch_index examples else examples in
      let features := get_features examples is_training in
      dev_batches dev_count (batch_reader features batch_size (_in_tokens self)) []
        (wrapper_from epochs' examples is_training batch_size shuffle dev_count)
  end.

(** [data_generator(...)()]: the examples are read, then the wrapper runs.
    [None] is the [ValueError] of an unknown phase or an exception of the
    reader. *)
Definition data_generator (input_data : list Entry.t) (batch_size : Z) (phase : pystr)
    (shuffle : bool) (dev_count : Z) (version_2_with_negative : bool) (epoch : Z)
  : option (gen B) :=
  is_training ←
    (if bool_decide (phase = str "train") then Some true
     else if bool_decide (phase = str "predict") then Some false
     else None);
  examples ← read_record_examples input_data is_training version_2_with_negative;
  Some (wrapper_from (range 0 epoch) examples is_training batch_size shuffle dev_count).

(** The features that the successive epochs of [wrapper] ask the converter
    for, epoch by epoch, without shuffling. *)
Definition epoch_features (epochs : list Z) (examples : list ReCoRDExample.t)
    (is_training : bool) : list (gen InputFeatures.t) :=
  List.map (fun _ => get_features examples is_training) epochs.

End Generator.

(** ** Decoding: final selection (lines 896-937) *)

Module NbestPrediction.
Record t := mk { text : pystr; start_logit : Q; end_logit : Q }.
End NbestPrediction.

(** [f1_score] of [record_official_evaluate]. *)
Class Evaluation := { f1_score : pystr -> pystr -> Q }.

(** The loop that looks for the first entry with a non-empty text. *)
Definition best_non_null_step (best_non_null_entry : option NbestPrediction.t)
    (entry : NbestPrediction.t) : option NbestPrediction.t :=
  match best_non_null_entry with
  | Some _ => best_non_null_entry
  | None =>
      match NbestPrediction.text entry with
      | [] => None
      | _ :: _ => Some entry
      end
  end.

Definition best_non_null (nbest : list NbestPrediction.t) : option NbestPrediction.t :=
  fold_left best_non_null_step nbest None.

Section Selection.
Context `{Evaluation}.

(** The loop that restricts the prediction to entries overlapping a candidate. *)
Fixpoint picked_index_from (candidates : list pystr)
    (nbest : list (Z * NbestPrediction.t)) : Z :=
  match nbest with
  | [] => 0
  | (pred_index, entry) :: nbest' =>
      if existsb (fun candidate =>
                    Qgt_bool (f1_score (NbestPrediction.text entry) candidate) 0)
           candidates
      then pred_index
      else picked_index_from candidates nbest'
  end.

(** What is stored in [all_predictions] for one example, given its n-best
    list, its candidates and its null score; [None] is a raised exception. *)
Definition final_prediction (version_2_with_negative : bool)
    (nbest : list NbestPrediction.t) (candidates : list pystr)
    (score_null null_score_diff_threshold : float64) : option pystr :=
  if negb version_2_with_negative then
    let picked_index := picked_index_from candidates (enumerate nbest) in
    NbestPrediction.text <$> py_index nbest picked_index
  else
    best_non_null_entry ← best_non_null nbest;
    let score_diff :=
      fsub (fsub score_null
              (float_of_Q (NbestPrediction.start_logit best_non_null_entry)))
           (float_of_Q (NbestPrediction.end_logit best_non_null_entry)) in
    if fgt score_diff null_score_diff_threshold then Some []
    else Some (NbestPrediction.text best_non_null_entry).

End Selection.

(** ** Decoding: projection onto the original text (lines 959-1051) *)

(** An [OrderedDict] with integer keys and values, in insertion order. *)
Fixpoint od_set (d : list (Z * Z)) (k v : Z) : list (Z * Z) :=
  match d with
  | [] => [(k, v)]
  | (k', v') :: d' => if k' =? k then (k, v) :: d' else (k', v') :: od_set d' k v
  end.

Fixpoint od_get (d : list (Z * Z)) (k : Z) : option Z :=
  match d with
  | [] => None
  | (k', v) :: d' => if k' =? k then Some v else od_get d' k
  end.

(** The loop of [_strip_spaces], on [(ns_chars, ns_to_s_map)]. *)
Fixpoint strip_spaces_from (text : list (Z * N)) (ns_chars : pystr)
    (ns_to_s_map : list (Z * Z)) : pystr * list (Z * Z) :=
  match text with
  | [] => (ns_chars, ns_to_s_map)
  | (i, c) :: text' =>
      if (c =? 32)%N then strip_spaces_from text' ns_chars ns_to_s_map
      else strip_spaces_from text' (ns_chars ++ [c]) (od_set ns_to_s_map (len ns_chars) i)
  end.

Definition _strip_spaces (text : pystr) : pystr * list (Z * Z) :=
  strip_spaces_from (enumerate text) [] [].

Section FinalText.
Context `{Tokenization}.

(** [verbose] only switches logging on and is left out. *)
Definition get_final_text (pred_text orig_text : pystr) (do_lower_case : bool) : pystr :=
  let tok_text := join space (basic_tokenize do_lower_case orig_text) in
  let start_position := find tok_text pred_text in
  if start_position =? -1 then orig_text else
  let end_position := start_position + len pred_text - 1 in
  let '(orig_ns_text, orig_ns_to_s_map) := _strip_spaces orig_text in
  let '(tok_ns_text, tok_ns_to_s_map) := _strip_spaces tok_text in
  if negb (len orig_ns_text =? len tok_ns_text) then orig_text else
  let tok_s_to_ns_map : gmap Z Z :=
    fold_left (fun m '(i, tok_index) => <[tok_index := i]> m) tok_ns_to_s_map ∅ in
  let orig_start_position :=
    ns_start_position ← tok_s_to_ns_map !! start_position;
    od_get orig_ns_to_s_map ns_start_position in
  match orig_start_position with
  | None => orig_text
  | Some orig_start_position =>
      let orig_end_position :=
        ns_end_position ← tok_s_to_ns_map !! end_position;
        od_get orig_ns_to_s_map ns_end_position in
      match orig_end_position with
      | None => orig_text
      | Some orig_end_position =>
          py_slice orig_text orig_start_position (orig_end_position + 1)
      end
  end.

End FinalText.

(** ** A small concrete setting

    Stand-ins for the external collaborators, used to run the embedding on
    concrete inputs: a tokenizer that keeps every word whole, a basic
    tokenizer that splits at spaces and ASCII punctuation, and concept tables
    that give one WordNet concept and four NELL concepts to every sub-token. *)

Module Toy.

Definition lower (c : N) : N :=
  if ((65 <=? c) && (c <=? 90))%N then (c + 32)%N else c.

Definition is_punctuation (c : N) : bool :=
  (((33 <=? c) && (c <=? 47)) || ((58 <=? c) && (c <=? 64))
   || ((91 <=? c) && (c <=? 96)) || ((123 <=? c) && (c <=? 126)))%N.

Definition flush (word : pystr) : list pystr :=
  match word with [] => [] | _ :: _ => [word] end.

Fixpoint split_text (punctuation : bool) (text word : pystr) : list pystr :=
  match text with
  | [] => flush word
  | c :: text' =>
      if is_whitespace c then flush word ++ split_text punctuation text' []
      else if punctuation && is_punctuation c
           then flush word ++ [c] :: split_text punctuation text' []
           else split_text punctuation text' (word ++ [c])
  end.

#[export] Instance tokenization : Tokenization := {|
  do_lower_case := true;
  tokenize word := [word];
  convert_tokens_to_ids tokens := List.map len tokens;
  basic_tokenize do_lower_case text :=
    split_text true (if do_lower_case then List.map lower text else text) [];
  whitespace_tokenize text := split_text false text [];
|}.

Definition document : list pystr := [str "a"; str "b"; str "c"].

#[export] Instance converter : Converter := {|
  all_tokenization_info _ :=
    Some (TokenizationInfo.mk [str "q"] [0] [str "q"] document [0; 1; 2] document);
  nell_retrieve_info _ := Some {| query_entities := []; document_entities := [] |};
  max_wn_concept_length := 2;
  max_nell_concept_length := 3;
  _lookup_wordnet_concept_ids sub_tokens _ _ _ :=
    Some (List.map (fun _ => [7]) sub_tokens);
  _lookup_nell_concept_ids sub_tokens _ _ _ :=
    Some (List.map (fun _ => [1; 2; 3; 4]) sub_tokens);
|}.

#[export] Instance batching : Batching (list BatchRow * Z) := {|
  prepare_batch_data batch_data total_token_num _ _ _ _ _ _ _ :=
    (batch_data, total_token_num);
  random_shuffle _ examples := examples;
|}.

#[export] Instance evaluation : Evaluation := {|
  f1_score prediction candidate :=
    if bool_decide (prediction = candidate) then 1%Q else 0%Q;
|}.

Definition processor : DataProcessor :=
  {| _max_seq_length := 6; _doc_stride := 1; _max_query_length := 64;
     _in_tokens := true; pad_id := 0; cls_id := 101; sep_id := 102 |}.

(** One question on the three-word document, read for prediction. *)
Definition example : ReCoRDExample.t :=
  ReCoRDExample.mk (str "id") (str "q") document None None None false.

(** A feature of the given sequence length, for the batching examples. *)
Definition feature_of_length (unique_id : Z) (n : nat) : InputFeatures.t :=
  InputFeatures.mk unique_id 0 0 [] ∅ ∅
    (replicate n 0) (replicate n 1) (replicate n 0) [] [] None None false.

End Toy.

(** ** Vocabulary of the statements *)

(** [x < y] and [x <= y] on floats, as Python compares them: both are false
    when [x] or [y] is NaN. *)
Definition flt (x y : float64) : Prop := SFltb x y = true.
Definition fle (x y : float64) : Prop := SFleb x y = true.

(** A float that is not NaN. *)
Definition is_number (x : float64) : Prop := x <> S754_nan.

(** A number that is zero or has the sign [s] ([true] is negative). *)
Definition of_sign (s : bool) (x : float64) : Prop :=
  match x with
  | S754_zero _ => True
  | S754_infinity s' | S754_finite s' _ _ => s' = s
  | S754_nan => False
  end.

(** The place of a number in the order of the floats: its class (negative
    infinity, negative, zero, positive, positive infinity), then its exponent
    and its mantissa, both negated for a negative number. *)
Definition float_key (x : float64) : Z * Z * Z :=
  match x with
  | S754_zero _ => (0, 0, 0)
  | S754_infinity s => (if s then -2 else 2, 0, 0)
  | S754_nan => (0, 0, 0)
  | S754_finite s m e => if s then (-1, - e, Zneg m) else (1, e, Zpos m)
  end.

Definition key_lt (a b : Z * Z * Z) : Prop :=
  a.1.1 < b.1.1
  \/ (a.1.1 = b.1.1 /\ (a.1.2 < b.1.2 \/ (a.1.2 = b.1.2 /\ a.2 < b.2))).

(** What the loop of [_check_is_max_context] holds after the spans [pre]:
    nothing while no span contained the position, afterwards the first span of
    maximal score among those that contain it. *)
Definition owner_so_far (pre : list DocSpan.t) (position : Z)
    (best : option float64 * option Z) : Prop :=
  (Forall (fun sp => ~ in_span sp position) pre /\ best = (None, None))
  \/ exists (i : nat) (sp : DocSpan.t),
       pre !! i = Some sp /\ in_span sp position
       /\ best = (Some (span_score sp position), Some (Z.of_nat i))
       /\ (forall (j : nat) sp', pre !! j = Some sp' -> in_span sp' position ->
             fle (span_score sp' position) (span_score sp position))
       /\ (forall (j : nat) sp', pre !! j = Some sp' -> in_span sp' position ->
             (j < i)%nat -> flt (span_score sp' position) (span_score sp position)).

(** The [i]-th feature yielded from a point where the counter is [u] carries
    the id [u + i]. *)
Definition numbered_from (u : Z) (g : gen InputFeatures.t) : Prop :=
  forall (i : nat) f,
    emitted g !! i = Some f -> InputFeatures.unique_id f = u + Z.of_nat i.

(** The batches of an epoch after [prepare_batch_data], in the order in which
    [batch_reader] yields them. *)
Definition prepared_batches `{Converter} {B : Type} `{Batching B}
    (self : DataProcessor) (batches : list (list BatchRow * Z)) : list B :=
  List.map (fun '(batch_data, total_token_num) =>
              prepare_batch_data batch_data total_token_num (-1) (pad_id self)
                (cls_id self) (sep_id self) (-1)
                max_wn_concept_length max_nell_concept_length)
    batches.

(** [pat] occurs in [text]. *)
Definition substring (pat text : pystr) : Prop :=
  exists before after, text = before ++ pat ++ after.

(** A text without its spaces. *)
Definition stripped (text : pystr) : pystr :=
  List.filter (fun c => negb (c =? 32)%N) text.

(** The indices of the characters of a text that are not spaces, in order,
    the first character having index [i]. *)
Fixpoint nonspace_positions_from (i : Z) (text : pystr) : list Z :=
  match text with
  | [] => []
  | c :: text' =>
      if (c =? 32)%N then nonspace_positions_from (i + 1) text'
      else i :: nonspace_positions_from (i + 1) text'
  end.

Definition nonspace_positions (text : pystr) : list Z :=
  nonspace_positions_from 0 text.

(** The longest sequence of a batch. *)
Definition max_seq_len (batch : list BatchRow) : Z :=
  foldr (fun row m => Z.max (len (row_input_ids row)) m) 0 batch.

(** A yielded batch respects the token budget as soon as it holds two rows. *)
Definition within_budget (batch_size : Z) (yielded : list BatchRow * Z) : Prop :=
  (2 <= length yielded.1)%nat -> len yielded.1 * max_seq_len yielded.1 <= batch_size.

(** The words of a passage, as the reader splits it. *)
Definition passage_words (text : pystr) : list pystr :=
  match split_words (replace_nbsp text) [] [] true with
  | Some (doc_tokens, _) => doc_tokens
  | None => []
  end.

(** A word: at least one character, none of them whitespace. *)
Definition is_word (word : pystr) : Prop :=
  word <> [] /\ Forall (fun c => is_whitespace c = false) word.

(** Every word of the first list begins the word of the same index of the
    second. *)
Definition grows (before after : list pystr) : Prop :=
  forall (j : nat) word, before !! j = Some word ->
    exists word', after !! j = Some word' /\ word `prefix_of` word'.

(** The label of a training example can be trusted: an impossible question
    has the empty answer with the span [(-1, -1)]; otherwise the
    whitespace-normalized answer occurs in the words of the span. *)
Definition trusted_label `{Tokenization} (example : ReCoRDExample.t) : Prop :=
  if ReCoRDExample.is_impossible example then
    ReCoRDExample.orig_answer_text example = Some []
    /\ ReCoRDExample.start_position example = Some (-1)
    /\ ReCoRDExample.end_position example = Some (-1)
  else
    exists answer sp ep,
      ReCoRDExample.orig_answer_text example = Some answer
      /\ ReCoRDExample.start_position example = Some sp
      /\ ReCoRDExample.end_position example = Some ep
      /\ substring (join space (whitespace_tokenize answer))
           (join space (py_slice (ReCoRDExample.doc_tokens example) sp (ep + 1))).

(** The number of tokens of a batch. *)
Definition token_count (batch : list BatchRow) : Z :=
  foldr (fun row total => len (row_input_ids row) + total) 0 batch.

(** The question of [Toy.example] with its answer, the word [b], for training. *)
Definition answered_example : ReCoRDExample.t :=
  ReCoRDExample.mk (str "id") (str "q") Toy.document
    (Some (str "b")) (Some 1) (Some 1) false.

(** A lookup returns one row of concept ids per sub-token, as both lookups of
    the converter do (lines 232 and 252). *)
Definition row_per_sub_token `{Converter} : Prop :=
  (forall sub_tokens sub_to_ori_index tokens tolower rows,
     _lookup_wordnet_concept_ids sub_tokens sub_to_ori_index tokens tolower = Some rows ->
     length rows = length sub_tokens)
  /\ (forall sub_tokens sub_to_ori_index tokens nell_info rows,
        _lookup_nell_concept_ids sub_tokens sub_to_ori_index tokens nell_info = Some rows ->
        length rows = length sub_tokens).

(** The index, in the tokens of the feature built from the span [sp], of the
    document sub-token [position]: before it come [[CLS]], one token per row of
    the zipped query lists, and [[SEP]]. *)
Definition local_index (p : Prepared) (sp : DocSpan.t) (position : Z) : Z :=
  len (zip3 (p_query_tokens p) (p_query_wn_concepts p) (p_query_nell_concepts p))
  + 2 + (position - DocSpan.start sp).

(** ** Concept lookups (lines 194-253) *)

(** [max(values)]; [None] is the [ValueError] raised on an empty sequence. *)
Definition py_max (values : list Z) : option Z :=
  match values with
  | [] => None
  | value :: values' => Some (fold_left Z.max values' value)
  end.

Module Concepts.

(** What [__init__] loads and keeps on [self]. *)
Record t := mk {
  synsets_info : gmap pystr (list pystr);
  wn_concept2id : gmap pystr Z;
  nell_concept2id : gmap pystr Z;
}.

(** Line 214. *)
Definition max_wn_concept_length (self : t) : option Z :=
  py_max (List.map (fun item => len item.2) (map_to_list (synsets_info self))).

Section Lookup.
(** [str.lower] and [tokenizer.basic_tokenizer.run_strip_accents]. *)
Variable lower : pystr -> pystr.
Variable run_strip_accents : pystr -> pystr.

(** One iteration of the loop of [_lookup_wordnet_concept_ids]: the row that is
    appended, or [None] for an [IndexError] or a [KeyError]. *)
Definition wordnet_row (self : t) (sub_to_ori_index : list Z) (tokens : list pystr)
    (tolower : bool) (index : Z) : option (list Z) :=
  ori_index ← py_index sub_to_ori_index index;
  original_token ← py_index tokens ori_index;
  let retrieve_token :=
    if tolower then run_strip_accents (lower original_token) else original_token in
  match synsets_info self !! retrieve_token with
  | Some synsets => mapM (fun synset_name => wn_concept2id self !! synset_name) synsets
  | None => Some []
  end.

Definition _lookup_wordnet_concept_ids (self : t) (sub_tokens : list pystr)
    (sub_to_ori_index : list Z) (tokens : list pystr) (tolower : bool)
  : option (list (list Z)) :=
  mapM (wordnet_row self sub_to_ori_index tokens tolower) (range 0 (len sub_tokens)).

End Lookup.

Section NellLookup.
(** [list(set(ids))]: the ids without repetition, in an order that Python does
    not specify. *)
Variable list_of_set : list Z -> list Z.

(** [original_concept_ids[pos] += ids]; [None] is the [IndexError]. *)
Definition extend_at (original_concept_ids : list (list Z)) (pos : Z) (ids : list Z)
  : option (list (list Z)) :=
  if 0 <=? pos then
    row ← original_concept_ids !! Z.to_nat pos;
    Some (<[Z.to_nat pos := row ++ ids]> original_concept_ids)
  else if - len original_concept_ids <=? pos then
    row ← original_concept_ids !! Z.to_nat (len original_concept_ids + pos);
    Some (<[Z.to_nat (len original_concept_ids + pos) := row ++ ids]>
            original_concept_ids)
  else None.

(** The loop over the positions of one entity (lines 247-249). *)
Fixpoint extend_positions (self : t) (entity_info : EntityInfo) (positions : list Z)
    (original_concept_ids : list (list Z)) : option (list (list Z)) :=
  match positions with
  | [] => Some original_concept_ids
  | pos :: positions' =>
      ids ← mapM (fun category_name => nell_concept2id self !! category_name)
                 (retrieved_concepts entity_info);
      original_concept_ids ← extend_at original_concept_ids pos ids;
      extend_positions self entity_info positions' original_concept_ids
  end.

(** The loop over the entities (lines 246-249). *)
Fixpoint extend_entities (self : t) (nell_info : list EntityInfo)
    (original_concept_ids : list (list Z)) : option (list (list Z)) :=
  match nell_info with
  | [] => Some original_concept_ids
  | entity_info :: nell_info' =>
      original_concept_ids ←
        extend_positions self entity_info
          (range (token_start entity_info) (token_end entity_info + 1))
          original_concept_ids;
      extend_entities self nell_info' original_concept_ids
  end.

Definition _lookup_nell_concept_ids (self : t) (sub_tokens : list pystr)
    (sub_to_ori_index : list Z) (tokens : list pystr) (nell_info : list EntityInfo)
  : option (list (list Z)) :=
  let original_concept_ids := replicate (length tokens) [] in
  original_concept_ids ← extend_entities self nell_info original_concept_ids;
  let original_concept_ids := List.map list_of_set original_concept_ids in
  mapM (fun index =>
          ori_index ← py_index sub_to_ori_index index;
          py_index original_concept_ids ori_index)
       (range 0 (len sub_tokens)).

End NellLookup.

(** Two words with synsets and two NELL categories, for the examples. *)
Definition toy : t :=
  {| synsets_info :=
       {[ str "cat" := [str "cat.n.01"; str "feline.n.01"];
          str "sat" := [str "sit.v.01"] ]};
     wn_concept2id :=
       {[ str "cat.n.01" := 5; str "feline.n.01" := 9; str "sit.v.01" := 12 ]};
     nell_concept2id := {[ str "animal" := 3; str "pet" := 4 ]} |}.

End Concepts.

(** ** Decoding: the n best logits (lines 1054-1064) *)

(** [sorted(items, key=lambda x: x[1], reverse=True)].  Python's sort is
    stable, also with [reverse=True]: items of equal score keep their order.
    An item is inserted in front of the first item whose score is not greater
    than its own. *)
Fixpoint insert_by_score (item : Z * Q) (sorted : list (Z * Q)) : list (Z * Q) :=
  match sorted with
  | [] => [item]
  | item' :: sorted' =>
      if Qgt_bool item'.2 item.2 then item' :: insert_by_score item sorted'
      else item :: sorted
  end.

Definition sorted_by_score (items : list (Z * Q)) : list (Z * Q) :=
  foldr insert_by_score [] items.

(** The loop that collects the first [n_best_size] indexes. *)
Fixpoint best_indexes_loop (index_and_score : list (Z * (Z * Q))) (n_best_size : Z)
    (best_indexes : list Z) : list Z :=
  match index_and_score with
  | [] => best_indexes
  | (i, score) :: rest =>
      if i >=? n_best_size then best_indexes
      else best_indexes_loop rest n_best_size (best_indexes ++ [score.1])
  end.

Definition _get_best_indexes (logits : list Q) (n_best_size : Z) : list Z :=
  let index_and_score := sorted_by_score (enumerate logits) in
  best_indexes_loop (enumerate index_and_score) n_best_size [].

(** The item [x] is listed before the item [y]: it has the greater score, or
    the same score and the smaller index. *)
Definition before (x y : Z * Q) : Prop :=
  (y.2 < x.2)%Q \/ ((x.2 == y.2)%Q /\ x.1 < y.1).

(** The logit at index [i] outranks the logit at index [j]. *)
Definition outranks (logits : list Q) (i j : Z) : Prop :=
  exists qi qj,
    0 <= i /\ 0 <= j
    /\ logits !! Z.to_nat i = Some qi /\ logits !! Z.to_nat j = Some qj
    /\ before (i, qi) (j, qj).

(** The text of an n-best entry has a positive F1 score with a candidate. *)
Definition overlaps `{Evaluation} (candidates : list pystr)
    (entry : NbestPrediction.t) : Prop :=
  exists candidate,
    candidate ∈ candidates /\ (0 < f1_score (NbestPrediction.text entry) candidate)%Q.

(** The index that Python resolves [i] to in a list of length [n]. *)
Definition slot (n i : Z) : Z := if 0 <=? i then i else n + i.

(** The concept [id] is retrieved for the word [ori_index] of a text of [n]
    words: it is the id of a category of an entity that covers the word. *)
Definition nell_concept_of (self : Concepts.t) (nell_info : list EntityInfo)
    (n ori_index id : Z) : Prop :=
  exists entity_info category_name pos,
    entity_info ∈ nell_info
    /\ category_name ∈ retrieved_concepts entity_info
    /\ Concepts.nell_concept2id self !! category_name = Some id
    /\ token_start entity_info <= pos <= token_end entity_info
    /\ slot n pos = slot n ori_index.

(** What [list(set(ids))] is known to return: the ids, each once. *)
Definition lists_set (list_of_set : list Z -> list Z) : Prop :=
  forall ids, NoDup (list_of_set ids) /\ forall id, id ∈ list_of_set ids <-> id ∈ ids.

(** Every row holds exactly the ids that [P] gives to its index. *)
Definition rows_hold (rows : list (list Z)) (P : nat -> Z -> Prop) : Prop :=
  forall (j : nat) row, rows !! j = Some row -> forall id, id ∈ row <-> P j id.

(** ** Decoding: candidates and n-best list (lines 763-898) *)

(** [c.isspace()] for one character. *)
Definition py_isspace (c : N) : bool :=
  (((9 <=? c) && (c <=? 13)) || ((28 <=? c) && (c <=? 32)) || (c =? 133)
   || (c =? 160) || (c =? 5760) || ((8192 <=? c) && (c <=? 8202)) || (c =? 8232)
   || (c =? 8233) || (c =? 8239) || (c =? 8287) || (c =? 12288))%N.

(** [text.replace(old, new)] for a non-empty [old]: occurrences are replaced
    from left to right and do not overlap; [skip] counts the characters of
    the occurrence being replaced that are still to be dropped. *)
Fixpoint replace_from (old new text : pystr) (skip : nat) : pystr :=
  match text with
  | [] => []
  | c :: text' =>
      match skip with
      | S skip' => replace_from old new text' skip'
      | O =>
          if starts_with old text
          then new ++ replace_from old new text' (length old - 1)
          else c :: replace_from old new text' 0
      end
  end.

Definition py_replace (text old new : pystr) : pystr := replace_from old new text 0.

Fixpoint py_lstrip (text : pystr) : pystr :=
  match text with
  | [] => []
  | c :: text' => if py_isspace c then py_lstrip text' else text
  end.

(** [text.strip()]. *)
Definition py_strip (text : pystr) : pystr :=
  reverse (py_lstrip (reverse (py_lstrip text))).

Definition flush_word (word : pystr) : list pystr :=
  match word with [] => [] | _ :: _ => [word] end.

Fixpoint split_from (text word : pystr) : list pystr :=
  match text with
  | [] => flush_word word
  | c :: text' =>
      if py_isspace c then flush_word word ++ split_from text' []
      else split_from text' (word ++ [c])
  end.

(** [text.split()]. *)
Definition py_split (text : pystr) : list pystr := split_from text [].

Module PrelimPrediction.
Record t := mk {
  feature_index : Z;
  start_index : Z;
  end_index : Z;
  start_logit : Q;
  end_logit : Q;
}.
End PrelimPrediction.

(** A result of the model for one feature. *)
Module RawResult.
Record t := mk { unique_id : Z; start_logits : list Q; end_logits : list Q }.
End RawResult.

(** The body of the two loops over the best start and end indexes (lines
    797-820): the candidate that is appended, if any; the outer [None] is an
    [IndexError]. *)
Definition candidate (feature_index : Z) (feature : InputFeatures.t)
    (result : RawResult.t) (max_answer_length start_index end_index : Z)
  : option (option PrelimPrediction.t) :=
  if start_index >=? len (InputFeatures.tokens feature) then Some None
  else if end_index >=? len (InputFeatures.tokens feature) then Some None
  else if negb (bool_decide
                  (is_Some (InputFeatures.token_to_orig_map feature !! start_index)))
  then Some None
  else if negb (bool_decide
                  (is_Some (InputFeatures.token_to_orig_map feature !! end_index)))
  then Some None
  else if negb (default false
                  (InputFeatures.token_is_max_context feature !! start_index))
  then Some None
  else if end_index <? start_index then Some None
  else
    let length := end_index - start_index + 1 in
    if length >? max_answer_length then Some None
    else
      start_logit ← py_index (RawResult.start_logits result) start_index;
      end_logit ← py_index (RawResult.end_logits result) end_index;
      Some (Some (PrelimPrediction.mk feature_index start_index end_index
                    start_logit end_logit)).

(** The candidates of one feature, in the order in which they are appended
    (lines 787-788 and 796-820). *)
Definition feature_candidates (feature_index : Z) (feature : InputFeatures.t)
    (result : RawResult.t) (n_best_size max_answer_length : Z)
  : option (list PrelimPrediction.t) :=
  let start_indexes := _get_best_indexes (RawResult.start_logits result) n_best_size in
  let end_indexes := _get_best_indexes (RawResult.end_logits result) n_best_size in
  rows ← mapM (fun start_index =>
                 mapM (candidate feature_index feature result max_answer_length
                         start_index)
                      end_indexes)
               start_indexes;
  Some (omap id (concat rows)).

Section Nbest.
Context `{Tokenization}.

(** The text of a non-null prediction (lines 846-864); [None] is a
    [KeyError]. *)
Definition prediction_text (feature : InputFeatures.t) (example : ReCoRDExample.t)
    (pred : PrelimPrediction.t) (do_lower_case : bool) : option pystr :=
  let tok_tokens :=
    py_slice (InputFeatures.tokens feature) (PrelimPrediction.start_index pred)
      (PrelimPrediction.end_index pred + 1) in
  orig_doc_start ←
    InputFeatures.token_to_orig_map feature !! PrelimPrediction.start_index pred;
  orig_doc_end ←
    InputFeatures.token_to_orig_map feature !! PrelimPrediction.end_index pred;
  let orig_tokens :=
    py_slice (ReCoRDExample.doc_tokens example) orig_doc_start (orig_doc_end + 1) in
  let tok_text := join space tok_tokens in
  let tok_text := py_replace tok_text (str " ##") [] in
  let tok_text := py_replace tok_text (str "##") [] in
  let tok_text := py_strip tok_text in
  let tok_text := join space (py_split tok_text) in
  let orig_text := join space orig_tokens in
  Some (get_final_text tok_text orig_text do_lower_case).

(** The loop over the sorted candidates (lines 841-877), on
    [(seen_predictions, nbest)]; [seen_predictions] is kept as the list of its
    keys. *)
Fixpoint nbest_loop (features : list InputFeatures.t) (example : ReCoRDExample.t)
    (n_best_size : Z) (do_lower_case : bool)
    (prelim_predictions : list PrelimPrediction.t)
    (seen_predictions : list pystr) (nbest : list NbestPrediction.t)
  : option (list pystr * list NbestPrediction.t) :=
  match prelim_predictions with
  | [] => Some (seen_predictions, nbest)
  | pred :: prelim_predictions' =>
      if len nbest >=? n_best_size then Some (seen_predictions, nbest)
      else
        feature ← py_index features (PrelimPrediction.feature_index pred);
        if PrelimPrediction.start_index pred >? 0 then
          final_text ← prediction_text feature example pred do_lower_case;
          if bool_decide (final_text ∈ seen_predictions)
          then nbest_loop features example n_best_size do_lower_case
                 prelim_predictions' seen_predictions nbest
          else nbest_loop features example n_best_size do_lower_case
                 prelim_predictions' (seen_predictions ++ [final_text])
                 (nbest ++ [NbestPrediction.mk final_text
                              (PrelimPrediction.start_logit pred)
                              (PrelimPrediction.end_logit pred)])
        else
          let final_text := [] in
          nbest_loop features example n_best_size do_lower_case
            prelim_predictions'
            (if bool_decide (final_text ∈ seen_predictions) then seen_predictions
             else seen_predictions ++ [final_text])
            (nbest ++ [NbestPrediction.mk final_text
                         (PrelimPrediction.start_logit pred)
                         (PrelimPrediction.end_logit pred)])
  end.

(** The n-best list of one example, from its sorted candidates (lines
    839-892). *)
Definition nbest_of (features : list InputFeatures.t) (example : ReCoRDExample.t)
    (n_best_size : Z) (do_lower_case version_2_with_negative : bool)
    (null_start_logit null_end_logit : Q)
    (prelim_predictions : list PrelimPrediction.t)
  : option (list NbestPrediction.t) :=
  '(seen_predictions, nbest) ←
    nbest_loop features example n_best_size do_lower_case prelim_predictions [] [];
  let nbest :=
    if version_2_with_negative && negb (bool_decide ([] ∈ seen_predictions))
    then nbest ++ [NbestPrediction.mk [] null_start_logit null_end_logit]
    else nbest in
  let nbest :=
    match nbest with
    | [] => [NbestPrediction.mk (str "empty") 0 0]
    | _ :: _ => nbest
    end in
  Some nbest.

End Nbest.

(** The null score kept while the features of an example are visited (lines
    777-795).  The two logits are kept as they are read, by their values. *)
Record NullScore := {
  score_null : float64;
  min_null_feature_index : Z;
  null_start_logit : Q;
  null_end_logit : Q;
}.

(** The values before the loop. *)
Definition null_score_init : NullScore :=
  {| score_null := float_of_Z 1000000; min_null_feature_index := 0;
     null_start_logit := 0; null_end_logit := 0 |}.

(** One iteration of the loop over the features, for the null score only;
    [None] is a [KeyError] or an [IndexError]. *)
Definition null_score_step (unique_id_to_result : gmap Z RawResult.t)
    (version_2_with_negative : bool) (st : NullScore)
    (item : Z * InputFeatures.t) : option NullScore :=
  let '(feature_index, feature) := item in
  result ← unique_id_to_result !! InputFeatures.unique_id feature;
  if version_2_with_negative then
    start_logit ← py_index (RawResult.start_logits result) 0;
    end_logit ← py_index (RawResult.end_logits result) 0;
    let feature_null_score := fadd (float_of_Q start_logit) (float_of_Q end_logit) in
    if fgt (score_null st) feature_null_score then
      Some {| score_null := feature_null_score;
              min_null_feature_index := feature_index;
              null_start_logit := start_logit;
              null_end_logit := end_logit |}
    else Some st
  else Some st.

Fixpoint null_score_loop (unique_id_to_result : gmap Z RawResult.t)
    (version_2_with_negative : bool) (features : list (Z * InputFeatures.t))
    (st : NullScore) : option NullScore :=
  match features with
  | [] => Some st
  | item :: features' =>
      st ← null_score_step unique_id_to_result version_2_with_negative st item;
      null_score_loop unique_id_to_result version_2_with_negative features' st
  end.

(** The logits of position 0 of a feature. *)
Definition null_score_of (unique_id_to_result : gmap Z RawResult.t)
    (feature : InputFeatures.t) (start_logit end_logit : Q) : Prop :=
  exists result,
    unique_id_to_result !! InputFeatures.unique_id feature = Some result
    /\ RawResult.start_logits result !! 0%nat = Some start_logit
    /\ RawResult.end_logits result !! 0%nat = Some end_logit.

(** What the loop holds after the features [visited].  No feature has a null
    score, the binary64 sum of its two logits, that is less than
    [score_null].  And either the initial values are still there, or the
    values are those of a feature whose null score is [score_null], is less
    than 1000000, and is not matched by an earlier feature: no earlier
    feature has a null score less than or equal to it. *)
Definition null_score_so_far (unique_id_to_result : gmap Z RawResult.t)
    (visited : list InputFeatures.t) (st : NullScore) : Prop :=
  (forall (k : nat) feature, visited !! k = Some feature ->
     exists start_logit end_logit,
       null_score_of unique_id_to_result feature start_logit end_logit
       /\ ~ flt (fadd (float_of_Q start_logit) (float_of_Q end_logit)) (score_null st))
  /\ ((st = null_score_init)
      \/ exists (k : nat) feature,
           visited !! k = Some feature
           /\ null_score_of unique_id_to_result feature
                (null_start_logit st) (null_end_logit st)
           /\ score_null st
              = fadd (float_of_Q (null_start_logit st)) (float_of_Q (null_end_logit st))
           /\ min_null_feature_index st = Z.of_nat k
           /\ flt (score_null st) (float_of_Z 1000000)
           /\ forall (k' : nat) feature' start_logit end_logit,
                (k' < k)%nat -> visited !! k' = Some feature' ->
                null_score_of unique_id_to_result feature' start_logit end_logit ->
                ~ fle (fadd (float_of_Q start_logit) (float_of_Q end_logit))
                      (score_null st)).

(** A row of a feature made from the concepts found for a token: it has
    [max_concept_length] entries, the found ids followed by zeros when they
    are at most that many, and the first [max_concept_length] of them when
    they are more. *)
Definition padded_to (max_concept_length : nat) (found row : list Z) : Prop :=
  length row = max_concept_length
  /\ ((length found <= max_concept_length)%nat ->
      row = found ++ replicate (max_concept_length - length found) 0)
  /\ ((max_concept_length <= length found)%nat -> row = take max_concept_length found).

(** The concepts found for the tokens of the feature of a span, one row per
    token: none for [[CLS]] and the two [[SEP]], the row looked up for each query
    token, and the row looked up for each document sub-token of the span. *)
Definition found_rows (query_rows doc_rows : list (list Z)) (doc_span : DocSpan.t)
  : option (list (list Z)) :=
  slice ← mapM (fun i => py_index doc_rows (DocSpan.start doc_span + i))
               (range 0 (DocSpan.length doc_span));
  Some ([] :: query_rows ++ [] :: slice ++ [[]]).

(** The concept rows of the per-example variables are what the two lookups
    returned for the document and, cut to [max_query_length] with the query,
    for the question. *)
Definition looked_up `{Tokenization} `{Converter} (example : ReCoRDExample.t)
    (max_query_length : Z) (p : Prepared) : Prop :=
  exists info nell_info query_wn query_nell,
    let query_tokens := tokenize (ReCoRDExample.question_text example) in
    all_tokenization_info (ReCoRDExample.qas_id example) = Some info
    /\ nell_retrieve_info (ReCoRDExample.qas_id example) = Some nell_info
    /\ _lookup_wordnet_concept_ids query_tokens
         (TokenizationInfo.query_sub_to_ori_index info)
         (TokenizationInfo.query_tokens info) (negb do_lower_case) = Some query_wn
    /\ _lookup_nell_concept_ids query_tokens
         (TokenizationInfo.query_sub_to_ori_index info)
         (TokenizationInfo.query_tokens info) (query_entities nell_info)
       = Some query_nell
    /\ p_query_wn_concepts p
       = (if len query_tokens >? max_query_length
          then py_slice query_wn 0 max_query_length else query_wn)
    /\ p_query_nell_concepts p
       = (if len query_tokens >? max_query_length
          then py_slice query_nell 0 max_query_length else query_nell)
    /\ _lookup_wordnet_concept_ids (p_all_doc_tokens p)
         (TokenizationInfo.document_sub_to_ori_index info)
         (TokenizationInfo.document_tokens info) (negb do_lower_case)
       = Some (p_doc_wn_concepts p)
    /\ _lookup_nell_concept_ids (p_all_doc_tokens p)
         (TokenizationInfo.document_sub_to_ori_index info)
         (TokenizationInfo.document_tokens info) (document_entities nell_info)
       = Some (p_doc_nell_concepts p).

(** * Properties *)

(** ** The sliding window *)

Lemma doc_spans_from_covers (fuel : nat) (n max_tokens_for_doc doc_stride : Z) :
  1 <= max_tokens_for_doc -> 1 <= doc_stride ->
  forall s : Z, 0 <= s < n -> (Z.to_nat (n - s) <= fuel)%nat ->
  exists sp rest,
    doc_spans_from fuel n max_tokens_for_doc doc_stride s = Some (sp :: rest)
    /\ DocSpan.start sp = s
    /\ (forall i, s <= i < n -> Exists (fun sp' => in_span sp' i) (sp :: rest))
    /\ (exists sp', last (sp :: rest) = Some sp' /\ span_end sp' = n - 1)
    /\ no_gaps (sp :: rest)
    /\ Forall (fun sp' => s <= DocSpan.start sp'
                          /\ 1 <= DocSpan.length sp' <= max_tokens_for_doc
                          /\ span_end sp' < n) (sp :: rest).
Proof.
  intros Hmax Hstride. induction fuel as [|fuel IH]; intros s Hs Hfuel; [lia|].
  cbn [doc_spans_from].
  destruct (Z.ltb_spec s n) as [_|]; [|lia].
  set (length := if n - s >? max_tokens_for_doc then max_tokens_for_doc else n - s).
  assert (Hlen : 1 <= length <= max_tokens_for_doc /\ length <= n - s).
  { subst length. destruct (Z.gtb_spec (n - s) max_tokens_for_doc); lia. }
  destruct (Z.eqb_spec (s + length) n) as [Hend|Hend].
  - exists (DocSpan.mk s length), []. repeat split; cbn; try lia.
    + intros i Hi. constructor. unfold in_span, span_end. cbn. lia.
    + eexists. split; [reflexivity|]. unfold span_end. cbn. lia.
    + repeat constructor; unfold span_end; cbn; lia.
  - destruct (IH (s + Z.min length doc_stride)) as
      (sp & rest & Heq & Hstart & Hcov & Hlast & Hgaps & Hall); [lia|lia|].
    rewrite Heq. cbn.
    exists (DocSpan.mk s length), (sp :: rest). repeat split; cbn; try lia.
    + intros i Hi.
      destruct (Z.lt_ge_cases i (s + Z.min length doc_stride)).
      * constructor. unfold in_span, span_end. cbn. lia.
      * apply Exists_cons_tl. apply Hcov. lia.
    + destruct Hlast as (sp' & Hl & He). by exists sp'.
    + unfold span_end. cbn. lia.
    + done.
    + constructor; [unfold span_end; cbn; lia|].
      eapply Forall_impl; [exact Hall|]. cbn. intros; lia.
Qed.

(** C1: for a document of [n >= 1] sub-tokens, a budget of at least one token
    and a stride of at least one, the chunking loop ends and yields a
    non-empty ordered list of spans that covers every token index of
    [0 .. n-1], leaves no gap between a span and the next, stays inside the
    document, and whose last span ends exactly at index [n-1]. *)
Theorem doc_spans_cover_document (fuel : nat) (n max_tokens_for_doc doc_stride : Z) :
  1 <= n -> 1 <= max_tokens_for_doc -> 1 <= doc_stride -> (Z.to_nat n <= fuel)%nat ->
  exists spans,
    doc_spans fuel n max_tokens_for_doc doc_stride = Some spans
    /\ (forall i, 0 <= i < n -> Exists (fun sp => in_span sp i) spans)
    /\ (exists sp, last spans = Some sp /\ span_end sp = n - 1)
    /\ (exists sp, head spans = Some sp /\ DocSpan.start sp = 0)
    /\ no_gaps spans
    /\ Forall (fun sp => 0 <= DocSpan.start sp
                         /\ 1 <= DocSpan.length sp <= max_tokens_for_doc
                         /\ span_end sp < n) spans.
Proof.
  intros Hn Hmax Hstride Hfuel.
  destruct (doc_spans_from_covers fuel n max_tokens_for_doc doc_stride Hmax Hstride 0)
    as (sp & rest & Heq & Hstart & Hcov & Hlast & Hgaps & Hall);
    [lia | by rewrite Z.sub_0_r |].
  exists (sp :: rest). unfold doc_spans. repeat split; try done.
  exists sp. done.
Qed.

Lemma doc_spans_cover_document_witness :
  exists spans,
    doc_spans 7 7 5 2 = Some spans
    /\ (forall i, 0 <= i < 7 -> Exists (fun sp => in_span sp i) spans)
    /\ (exists sp, last spans = Some sp /\ span_end sp = 7 - 1)
    /\ (exists sp, head spans = Some sp /\ DocSpan.start sp = 0)
    /\ no_gaps spans
    /\ Forall (fun sp => 0 <= DocSpan.start sp
                         /\ 1 <= DocSpan.length sp <= 5
                         /\ span_end sp < 7) spans.
Proof. apply (doc_spans_cover_document 7 7 5 2); lia. Defined.

(** Without a positive budget, or without a positive stride when the document
    exceeds the budget, the loop never leaves: no amount of fuel is enough. *)
Lemma doc_spans_from_hangs (fuel : nat) (n max_tokens_for_doc doc_stride : Z) :
  max_tokens_for_doc <= 0 \/ (doc_stride <= 0 /\ max_tokens_for_doc < n) ->
  forall s : Z, s <= 0 < n ->
    doc_spans_from fuel n max_tokens_for_doc doc_stride s = None.
Proof.
  intros Hstuck. induction fuel as [|fuel IH]; intros s Hs; cbn [doc_spans_from];
    destruct (Z.ltb_spec s n) as [_|]; try lia; [done|].
  destruct (Z.gtb_spec (n - s) max_tokens_for_doc) as [_|]; [|lia].
  destruct (Z.eqb_spec (s + max_tokens_for_doc) n); [lia|].
  rewrite IH by lia. done.
Qed.

(** ** Comparisons of rationals, lengths *)

Lemma Qgt_bool_true (x y : Q) : Qgt_bool x y = true <-> (y < x)%Q.
Proof.
  unfold Qgt_bool. rewrite Qlt_alt, <- Qcompare_antisym.
  destruct (y ?= x)%Q; cbn; split; congruence.
Qed.

Lemma Qgt_bool_false (x y : Q) : Qgt_bool x y = false <-> (x <= y)%Q.
Proof.
  unfold Qgt_bool. rewrite Qle_alt.
  destruct (x ?= y)%Q; split; congruence.
Qed.

Lemma len_app {A} (l k : list A) : len (l ++ k) = len l + len k.
Proof. unfold len. rewrite length_app. lia. Qed.

Lemma len_nonneg {A} (l : list A) : 0 <= len l.
Proof. unfold len. lia. Qed.

(** ** Floats: order and rounding *)

Lemma flt_key (x y : float64) :
  is_number x -> is_number y ->
  (SFltb x y = true <-> key_lt (float_key x) (float_key y)).
Proof.
  unfold is_number, SFltb, key_lt.
  destruct x as [sx|sx| |sx mx ex], y as [sy|sy| |sy my ey]; try done; intros _ _;
    cbn; try (destruct sx); try (destruct sy); cbn;
    try (destruct (Z.compare_spec ex ey)); cbn;
    try (rewrite Pos.compare_cont_spec; cbn; destruct (Pos.compare_spec mx my)); cbn;
    split; try done; try lia.
Qed.

Lemma fle_key (x y : float64) :
  is_number x -> is_number y ->
  (SFleb x y = true <-> ~ key_lt (float_key y) (float_key x)).
Proof.
  unfold is_number, SFleb, key_lt.
  destruct x as [sx|sx| |sx mx ex], y as [sy|sy| |sy my ey]; try done; intros _ _;
    cbn; try (destruct sx); try (destruct sy); cbn;
    try (destruct (Z.compare_spec ex ey)); cbn;
    try (rewrite Pos.compare_cont_spec; cbn; destruct (Pos.compare_spec mx my)); cbn;
    split; try done; try lia.
Qed.

Lemma flt_is_number (x y : float64) : flt x y -> is_number x /\ is_number y.
Proof. unfold flt, SFltb, is_number. destruct x, y; cbn; try done. Qed.

Lemma fle_is_number (x y : float64) : fle x y -> is_number x /\ is_number y.
Proof. unfold fle, SFleb, is_number. destruct x, y; cbn; try done. Qed.

Lemma flt_trans (x y z : float64) : flt x y -> flt y z -> flt x z.
Proof.
  intros Hxy Hyz.
  destruct (flt_is_number _ _ Hxy) as [Hx Hy], (flt_is_number _ _ Hyz) as [_ Hz].
  unfold flt in *. apply flt_key in Hxy, Hyz; try done. apply flt_key; try done.
  unfold key_lt in *. lia.
Qed.

Lemma fle_flt_trans (x y z : float64) : fle x y -> flt y z -> flt x z.
Proof.
  intros Hxy Hyz.
  destruct (fle_is_number _ _ Hxy) as [Hx Hy], (flt_is_number _ _ Hyz) as [_ Hz].
  unfold flt, fle in *. apply fle_key in Hxy; try done. apply flt_key in Hyz; try done.
  apply flt_key; try done. unfold key_lt in *. lia.
Qed.

Lemma flt_fle_trans (x y z : float64) : flt x y -> fle y z -> flt x z.
Proof.
  intros Hxy Hyz.
  destruct (flt_is_number _ _ Hxy) as [Hx Hy], (fle_is_number _ _ Hyz) as [_ Hz].
  unfold flt, fle in *. apply fle_key in Hyz; try done. apply flt_key in Hxy; try done.
  apply flt_key; try done. unfold key_lt in *. lia.
Qed.

Lemma flt_irrefl (x : float64) : ~ flt x x.
Proof.
  intros H. destruct (flt_is_number _ _ H) as [Hx _]. unfold flt in H.
  apply flt_key in H; try done. unfold key_lt in *. lia.
Qed.

Lemma fle_refl (x : float64) : is_number x -> fle x x.
Proof. intros Hx. apply fle_key; try done. unfold key_lt. lia. Qed.

Lemma flt_fle (x y : float64) : flt x y -> fle x y.
Proof.
  intros H. destruct (flt_is_number _ _ H) as [Hx Hy]. unfold flt, fle in *.
  apply flt_key in H; try done. apply fle_key; try done. unfold key_lt in *. lia.
Qed.

Lemma not_flt_fle (x y : float64) :
  is_number x -> is_number y -> SFltb x y = false -> fle y x.
Proof.
  intros Hx Hy H. apply fle_key; try done. intros Hlt.
  apply flt_key in Hlt; try done. congruence.
Qed.

Lemma fle_not_flt (x y : float64) : fle x y -> ~ flt y x.
Proof.
  intros H Hlt. destruct (fle_is_number _ _ H) as [Hx Hy]. unfold flt, fle in *.
  apply fle_key in H; try done. by apply flt_key in Hlt.
Qed.

(** Rounding a non-negative mantissa never gives NaN, and keeps the sign. *)
Lemma iter_pos_shr_1_nonneg (p : positive) :
  forall mrs, 0 <= shr_m mrs -> 0 <= shr_m (SpecFloat.iter_pos shr_1 p mrs).
Proof.
  assert (H1 : forall mrs, 0 <= shr_m mrs -> 0 <= shr_m (shr_1 mrs)).
  { intros [m r s] Hm. cbn in *. destruct m as [|[q|q|]|q]; cbn; lia. }
  induction p as [p IH|p IH|]; intros mrs Hm; cbn.
  - apply IH, IH, H1, Hm.
  - apply IH, IH, Hm.
  - apply H1, Hm.
Qed.

Lemma shr_fexp_nonneg (prec emax m e : Z) (l : location) :
  0 <= m -> 0 <= shr_m (shr_fexp prec emax m e l).1.
Proof.
  intros Hm. unfold shr_fexp, shr.
  assert (H0 : 0 <= shr_m (shr_record_of_loc m l)).
  { destruct l as [|[| |]]; cbn; lia. }
  destruct (_ - e) as [|p|p]; cbn; try done.
  by apply iter_pos_shr_1_nonneg.
Qed.

Lemma round_nearest_even_nonneg (m : Z) (l : location) :
  0 <= m -> 0 <= round_nearest_even m l.
Proof.
  intros. unfold round_nearest_even. destruct l as [|[| |]]; try lia.
  destruct (Z.even m); lia.
Qed.

Lemma binary_round_aux_sign (prec emax : Z) (sx : bool) (mx ex : Z) (lx : location) :
  0 <= mx -> of_sign sx (binary_round_aux prec emax sx mx ex lx).
Proof.
  intros Hm. unfold binary_round_aux.
  pose proof (shr_fexp_nonneg prec emax mx ex lx Hm) as H1.
  destruct (shr_fexp prec emax mx ex lx) as [mrs' e']. cbn [fst] in H1.
  pose proof (shr_fexp_nonneg prec emax
                (round_nearest_even (shr_m mrs') (loc_of_shr_record mrs')) e' loc_Exact
                (round_nearest_even_nonneg _ _ H1)) as H2.
  destruct (shr_fexp prec emax _ e' loc_Exact) as [mrs'' e'']. cbn [fst] in H2.
  destruct (shr_m mrs'') as [|m|m]; cbn; [done| |lia].
  destruct (e'' <=? _); done.
Qed.

Lemma binary_round_sign (prec emax : Z) (sx : bool) (mx : positive) (ex : Z) :
  of_sign sx (binary_round prec emax sx mx ex).
Proof.
  unfold binary_round. destruct (shl_align _ _ _) as [mz ez].
  by apply binary_round_aux_sign.
Qed.

Lemma float_of_Z_sign (z : Z) : 0 <= z -> of_sign false (float_of_Z z).
Proof.
  intros Hz. unfold float_of_Z, binary_normalize. destruct z as [|p|p]; [done| |lia].
  apply binary_round_sign.
Qed.

Lemma fadd_sign (s : bool) (x y : float64) :
  of_sign s x -> of_sign s y -> of_sign s (fadd x y).
Proof.
  unfold fadd, SFadd.
  destruct x as [sx|sx| |sx mx ex], y as [sy|sy| |sy my ey]; cbn; try done.
  - by destruct sx, sy.
  - intros -> ->. by destruct s.
  - intros -> ->. unfold binary_normalize.
    destruct (shl_align mx ex (Z.min ex ey)) as [mx' ex'].
    destruct (shl_align my ey (Z.min ex ey)) as [my' ey']. cbn [fst].
    destruct s; cbn; apply binary_round_sign.
Qed.

Lemma fmul_sign (mx : positive) (ex : Z) (y : float64) :
  of_sign false y -> of_sign false (fmul (S754_finite false mx ex) y).
Proof.
  unfold fmul, SFmul. destruct y as [sy|sy| |sy my ey]; cbn; try done.
  intros ->. cbn. by apply binary_round_aux_sign.
Qed.

Lemma of_sign_is_number (s : bool) (x : float64) : of_sign s x -> is_number x.
Proof. by destruct x. Qed.

(** The literal [0.01]: [0x1.47ae147ae147bp-7]. *)
Lemma float_of_Q_hundredth :
  float_of_Q (1 # 100) = S754_finite false 5764607523034235 (-59).
Proof. by vm_compute. Qed.

(** ** Max-context ownership *)

(** The score of a span that contains the position is a number. *)
Lemma span_score_is_number (sp : DocSpan.t) (position : Z) :
  in_span sp position -> is_number (span_score sp position).
Proof.
  unfold in_span, span_end. intros Hin. apply (of_sign_is_number false).
  unfold span_score. cbv zeta. rewrite float_of_Q_hundredth.
  apply fadd_sign.
  - apply float_of_Z_sign. lia.
  - apply fmul_sign, float_of_Z_sign. lia.
Qed.

Lemma owner_so_far_skip (pre : list DocSpan.t) (position : Z)
    (best : option float64 * option Z) (sp : DocSpan.t) :
  ~ in_span sp position ->
  owner_so_far pre position best -> owner_so_far (pre ++ [sp]) position best.
Proof.
  intros Hout [[Hnone ->]|(i & spi & Hi & Hin & -> & Hle & Hlt)].
  - left. split; [|done]. apply Forall_app. split; [done|by constructor].
  - right. exists i, spi. split_and!; try done.
    + by apply lookup_app_l_Some.
    + intros j sp' [[_ Hj]|[_ <-]]%lookup_snoc_Some Hj'; [by eapply Hle|done].
    + intros j sp' [[_ Hj]|[_ <-]]%lookup_snoc_Some Hj' Hji; [by eapply Hlt|done].
Qed.

Lemma max_context_step_owner (pre : list DocSpan.t) (position : Z)
    (best : option float64 * option Z) (sp : DocSpan.t) :
  owner_so_far pre position best ->
  owner_so_far (pre ++ [sp]) position
    (max_context_step position best (len pre, sp)).
Proof.
  intros Hinv. unfold max_context_step.
  destruct (Z.ltb_spec position (DocSpan.start sp)) as [Hlo|Hlo].
  { apply owner_so_far_skip; [|done]. unfold in_span, span_end. lia. }
  destruct (Z.gtb_spec position (DocSpan.start sp + DocSpan.length sp - 1))
    as [Hhi|Hhi].
  { apply owner_so_far_skip; [|done]. unfold in_span, span_end. lia. }
  assert (Hsp : in_span sp position) by (unfold in_span, span_end; lia).
  assert (Hnew : (pre ++ [sp]) !! length pre = Some sp).
  { by rewrite lookup_app_r, Nat.sub_diag. }
  pose proof (span_score_is_number sp position Hsp) as Hnumber.
  destruct Hinv as [[Hnone ->]|(i & spi & Hi & Hin & -> & Hle & Hlt)]; cbn [fst].
  - rewrite Forall_forall in Hnone.
    right. exists (length pre), sp. split_and!; try done.
    + intros j sp' [[_ Hj]|[_ <-]]%lookup_snoc_Some Hj'; [|by apply fle_refl].
      destruct (Hnone sp'); [|done]. by eapply list_elem_of_lookup_2.
    + intros j sp' [[_ Hj]|[? <-]]%lookup_snoc_Some Hj' Hji; [|lia].
      destruct (Hnone sp'); [|done]. by eapply list_elem_of_lookup_2.
  - unfold fgt.
    destruct (SFltb (span_score spi position) (span_score sp position)) eqn:Hcmp.
    + right. exists (length pre), sp. split_and!; try done.
      * intros j sp' [[_ Hj]|[_ <-]]%lookup_snoc_Some Hj'; [|by apply fle_refl].
        apply flt_fle. eapply fle_flt_trans; [by eapply Hle|done].
      * intros j sp' [[_ Hj]|[? <-]]%lookup_snoc_Some Hj' Hji; [|lia].
        eapply fle_flt_trans; [by eapply Hle|done].
    + apply not_flt_fle in Hcmp; [|by apply span_score_is_number|done].
      right. exists i, spi. split_and!; try done.
      * by apply lookup_app_l_Some.
      * intros j sp' [[_ Hj]|[_ <-]]%lookup_snoc_Some Hj'; [by eapply Hle|done].
      * intros j sp' [[_ Hj]|[-> <-]]%lookup_snoc_Some Hj' Hji; [by eapply Hlt|].
        apply lookup_lt_Some in Hi. lia.
Qed.

Lemma max_context_fold_owner (suf pre : list DocSpan.t) (position : Z)
    (best : option float64 * option Z) :
  owner_so_far pre position best ->
  owner_so_far (pre ++ suf) position
    (fold_left (max_context_step position) (enumerate_from (len pre) suf) best).
Proof.
  revert pre best. induction suf as [|sp suf IH]; intros pre best Hinv; cbn.
  - by rewrite app_nil_r.
  - rewrite cons_middle, app_assoc.
    replace (len pre + 1) with (len (pre ++ [sp])) by (rewrite len_app; done).
    apply IH. by apply max_context_step_owner.
Qed.

(** C2 (amended): when at least one span contains the position, exactly one
    span index is flagged as its max-context owner; that span contains the
    position, no span containing the position scores higher, and every
    earlier span containing it scores strictly lower: among spans of equal
    maximal score the first one owns the position.  The scores are the
    binary64 numbers that the code computes and compares. *)
Theorem max_context_owner_unique (doc_spans : list DocSpan.t) (position : Z) :
  Exists (fun sp => in_span sp position) doc_spans ->
  exists (i : nat) (sp : DocSpan.t),
    doc_spans !! i = Some sp /\ in_span sp position
    /\ (forall j : Z,
          _check_is_max_context doc_spans j position = true <-> j = Z.of_nat i)
    /\ (forall (j : nat) sp', doc_spans !! j = Some sp' -> in_span sp' position ->
          fle (span_score sp' position) (span_score sp position))
    /\ (forall (j : nat) sp', doc_spans !! j = Some sp' -> in_span sp' position ->
          (j < i)%nat -> flt (span_score sp' position) (span_score sp position)).
Proof.
  intros Hex.
  assert (Hinv : owner_so_far doc_spans position (best_span doc_spans position)).
  { apply (max_context_fold_owner doc_spans [] position (None, None)).
    left. by split. }
  destruct Hinv as [[Hnone _]|(i & sp & Hi & Hin & Hbest & Hle & Hlt)].
  - exfalso. apply Exists_exists in Hex as (sp & Hsp & Hin).
    rewrite Forall_forall in Hnone. by apply (Hnone sp).
  - exists i, sp. split_and!; try done.
    intros j. unfold _check_is_max_context. rewrite Hbest. cbn.
    rewrite bool_decide_eq_true. split; congruence.
Qed.

Lemma max_context_owner_unique_witness :
  exists (i : nat) (sp : DocSpan.t),
    [DocSpan.mk 0 5; DocSpan.mk 2 5] !! i = Some sp /\ in_span sp 3
    /\ (forall j : Z,
          _check_is_max_context [DocSpan.mk 0 5; DocSpan.mk 2 5] j 3 = true
          <-> j = Z.of_nat i)
    /\ (forall (j : nat) sp', [DocSpan.mk 0 5; DocSpan.mk 2 5] !! j = Some sp' ->
          in_span sp' 3 -> fle (span_score sp' 3) (span_score sp 3))
    /\ (forall (j : nat) sp', [DocSpan.mk 0 5; DocSpan.mk 2 5] !! j = Some sp' ->
          in_span sp' 3 -> (j < i)%nat -> flt (span_score sp' 3) (span_score sp 3)).
Proof.
  apply (max_context_owner_unique [DocSpan.mk 0 5; DocSpan.mk 2 5] 3).
  constructor. unfold in_span, span_end. cbn. lia.
Defined.

(** C2 as stated fails: with 7 sub-tokens, a budget of 5 and a stride of 2 the
    spans are [(0,5)] and [(2,5)]; at position 3 both score [1 + 0.01 * 5],
    the same binary64 number, they are equally long, and the first one is
    flagged although its score is not strictly higher than the other's. *)
Lemma max_context_owner_not_strict :
  ~ (forall (n max_tokens_for_doc doc_stride : Z) (spans : list DocSpan.t)
       (position : Z) (i j : nat) (sp sp' : DocSpan.t),
       1 <= n -> 1 <= max_tokens_for_doc -> 1 <= doc_stride ->
       doc_spans (Z.to_nat n) n max_tokens_for_doc doc_stride = Some spans ->
       spans !! i = Some sp -> spans !! j = Some sp' -> i <> j ->
       in_span sp' position ->
       _check_is_max_context spans (Z.of_nat i) position = true ->
       flt (span_score sp' position) (span_score sp position)).
Proof.
  intros Hclaim.
  specialize (Hclaim 7 5 2 [DocSpan.mk 0 5; DocSpan.mk 2 5] 3 0%nat 1%nat
                (DocSpan.mk 0 5) (DocSpan.mk 2 5)).
  assert (Hlt : flt (span_score (DocSpan.mk 2 5) 3) (span_score (DocSpan.mk 0 5) 3)).
  { apply Hclaim; [lia | lia | lia | reflexivity | reflexivity | reflexivity | lia
                  | unfold in_span, span_end; cbn; lia | by vm_compute]. }
  revert Hlt. vm_compute. discriminate.
Qed.

(** Rounding decides the owner: a document of 119 sub-tokens with a budget of
    118 and a stride of 101 is cut into the spans [(0,118)] and [(101,18)];
    at position 115 the exact scores [2 + 1.18] and [3 + 0.18] are equal, but
    the first rounds to [3.1799999999999997] and the second to [3.18], so the
    second span owns the position. *)
Example max_context_owner_rounding :
  doc_spans 119 119 118 101 = Some [DocSpan.mk 0 118; DocSpan.mk 101 18]
  /\ span_score (DocSpan.mk 0 118) 115 = S754_finite false 7160723407519088 (-51)
  /\ span_score (DocSpan.mk 101 18) 115 = S754_finite false 7160723407519089 (-51)
  /\ _check_is_max_context [DocSpan.mk 0 118; DocSpan.mk 101 18] 0 115 = false
  /\ _check_is_max_context [DocSpan.mk 0 118; DocSpan.mk 101 18] 1 115 = true.
Proof. by vm_compute. Qed.

(** ** Answer-span projection *)

Lemma range_nil (a b : Z) : b <= a -> range a b = [].
Proof. intros. unfold range. by replace (Z.to_nat (b - a)) with 0%nat by lia. Qed.

Lemma range_cons (a b : Z) : a < b -> range a b = a :: range (a + 1) b.
Proof.
  intros. unfold range.
  replace (Z.to_nat (b - a)) with (S (Z.to_nat (b - (a + 1)))) by lia.
  cbn [seq List.map]. rewrite <- seq_shift, List.map_map. f_equal; [lia|].
  apply List.map_ext. intros k. lia.
Qed.

Lemma range_down_nil (a b : Z) : a <= b -> range_down a b = [].
Proof. intros. unfold range_down. by replace (Z.to_nat (a - b)) with 0%nat by lia. Qed.

Lemma range_down_cons (a b : Z) : b < a -> range_down a b = a :: range_down (a - 1) b.
Proof.
  intros. unfold range_down.
  replace (Z.to_nat (a - b)) with (S (Z.to_nat (a - 1 - b))) by lia.
  cbn [seq List.map]. rewrite <- seq_shift, List.map_map. f_equal; [lia|].
  apply List.map_ext. intros k. lia.
Qed.

Section AnswerSpanProperties.
Context `{Tokenization}.
Variables (doc_tokens : list pystr) (tok_answer_text : pystr).

Lemma scan_ends_first (new_start : Z) (m : nat) :
  forall a b : Z, Z.to_nat (a - b) = m ->
  match scan_ends doc_tokens tok_answer_text new_start (range_down a b) with
  | Some (s, e) =>
      s = new_start /\ b < e <= a
      /\ text_span doc_tokens new_start e = tok_answer_text
      /\ forall e', e < e' <= a -> text_span doc_tokens new_start e' <> tok_answer_text
  | None =>
      forall e', b < e' <= a -> text_span doc_tokens new_start e' <> tok_answer_text
  end.
Proof.
  induction m as [|m IH]; intros a b Hm.
  - rewrite range_down_nil by lia. cbn. intros; lia.
  - rewrite range_down_cons by lia. cbn [scan_ends]. case_bool_decide as Heq.
    + split_and!; try done; try lia; intros; lia.
    + specialize (IH (a - 1) b ltac:(lia)).
      destruct (scan_ends _ _ _ _) as [[s e]|].
      * destruct IH as (-> & Hb & Hm' & Hfirst). split_and!; try done; try lia.
        intros e' He'. destruct (decide (e' = a)) as [->|]; [done|].
        apply Hfirst. lia.
      * intros e' He'. destruct (decide (e' = a)) as [->|]; [done|].
        apply IH. lia.
Qed.

Lemma scan_starts_first (input_end : Z) (m : nat) :
  forall a b : Z, Z.to_nat (b - a) = m ->
  match scan_starts doc_tokens tok_answer_text input_end (range a b) with
  | Some (s, e) =>
      a <= s < b /\ s <= e <= input_end
      /\ text_span doc_tokens s e = tok_answer_text
      /\ (forall e', e < e' <= input_end -> text_span doc_tokens s e' <> tok_answer_text)
      /\ (forall s' e', a <= s' < s -> s' <= e' <= input_end ->
            text_span doc_tokens s' e' <> tok_answer_text)
  | None =>
      forall s' e', a <= s' < b -> s' <= e' <= input_end ->
        text_span doc_tokens s' e' <> tok_answer_text
  end.
Proof.
  induction m as [|m IH]; intros a b Hm.
  - rewrite range_nil by lia. cbn. intros; lia.
  - rewrite range_cons by lia. cbn [scan_starts].
    pose proof (scan_ends_first a (Z.to_nat (input_end - (a - 1))) input_end (a - 1)
                  eq_refl) as Hends.
    destruct (scan_ends _ _ _ _) as [[s e]|].
    + destruct Hends as (-> & He & Hm' & Hfirst).
      split_and!; try done; try lia; intros; lia.
    + specialize (IH (a + 1) b ltac:(lia)).
      destruct (scan_starts _ _ _ _) as [[s e]|].
      * destruct IH as (Hs & He & Hm' & Hfirst & Hbefore).
        split_and!; try done; try lia.
        intros s' e' Hs' He'. destruct (decide (s' = a)) as [->|].
        -- apply Hends. lia.
        -- apply Hbefore; lia.
      * intros s' e' Hs' He'. destruct (decide (s' = a)) as [->|].
        -- apply Hends. lia.
        -- apply IH; lia.
Qed.

End AnswerSpanProperties.

(** C3: the projector returns the first pair, in the order [new_start]
    ascending and, for each, [new_end] descending from [input_end], whose
    space-joined token slice equals the space-joined re-tokenized answer; when
    no pair with [input_start <= new_start <= new_end <= input_end] matches,
    it returns the coarse span unchanged. *)
Theorem improve_answer_span_first_match `{Tokenization}
    (doc_tokens : list pystr) (input_start input_end : Z) (orig_answer_text : pystr) :
  let tok_answer_text := join space (tokenize orig_answer_text) in
  let matches s e := text_span doc_tokens s e = tok_answer_text in
  let result := _improve_answer_span doc_tokens input_start input_end orig_answer_text in
  (input_start <= result.1 <= result.2 /\ result.2 <= input_end
   /\ matches result.1 result.2
   /\ forall s e, input_start <= s <= e -> e <= input_end ->
        s < result.1 \/ (s = result.1 /\ result.2 < e) -> ~ matches s e)
  \/ (result = (input_start, input_end)
      /\ forall s e, input_start <= s <= e -> e <= input_end -> ~ matches s e).
Proof.
  intros tok_answer_text matches result. subst result matches.
  unfold _improve_answer_span. fold tok_answer_text.
  pose proof (scan_starts_first doc_tokens tok_answer_text input_end
                (Z.to_nat (input_end + 1 - input_start)) input_start (input_end + 1)
                eq_refl) as Hscan.
  destruct (scan_starts _ _ _ _) as [[s e]|]; cbn [fst snd].
  - left. destruct Hscan as (Hs & He & Hm & Hfirst & Hbefore).
    split_and!; try done; try lia.
    intros s' e' Hs' He' [Hlt|[-> Hlt]].
    + apply Hbefore; lia.
    + apply Hfirst. lia.
  - right. split; [done|]. intros s' e' Hs' He'. apply Hscan; lia.
Qed.

(** ** Concept rows *)

Lemma pad_concept_row_length (max_concept_length : nat) (concept_id : list Z) :
  length (pad_concept_row max_concept_length concept_id) = max_concept_length.
Proof.
  unfold pad_concept_row. rewrite length_take, length_app, length_replicate. lia.
Qed.

Lemma pad_concept_row_short (max_concept_length : nat) (concept_id : list Z) :
  (length concept_id <= max_concept_length)%nat ->
  pad_concept_row max_concept_length concept_id
  = concept_id ++ replicate (max_concept_length - length concept_id)%nat 0.
Proof.
  intros. unfold pad_concept_row. apply take_ge.
  rewrite length_app, length_replicate. lia.
Qed.

Lemma pad_concept_row_long (max_concept_length : nat) (concept_id : list Z) :
  (max_concept_length <= length concept_id)%nat ->
  pad_concept_row max_concept_length concept_id = take max_concept_length concept_id.
Proof.
  intros. unfold pad_concept_row. rewrite take_app_le by done. done.
Qed.

Lemma pad_concept_ids_width (max_concept_length : nat) (concept_ids : list (list Z)) :
  Forall (fun row => length row = max_concept_length)
    (pad_concept_ids max_concept_length concept_ids).
Proof.
  unfold pad_concept_ids. apply Forall_forall. intros row Hrow.
  apply list_elem_of_In, in_map_iff in Hrow as (raw & <- & _).
  apply pad_concept_row_length.
Qed.

Section EmittedFeatures.
Context `{Tokenization} `{Converter}.

(** Whatever holds of every feature built by the loop body holds of every
    feature the generator yields. *)
Variable P : InputFeatures.t -> Prop.
Hypothesis body_ok :
  forall p example is_training spans unique_id example_index doc_span_index doc_span f,
    feature_of_span p example is_training spans unique_id example_index
      doc_span_index doc_span = Some (Some f) -> P f.

Lemma convert_spans_all p example is_training doc_spans example_index spans :
  forall unique_id next,
    (forall u, Forall P (emitted (next u))) ->
    Forall P (emitted (convert_spans p example is_training doc_spans example_index
                         spans unique_id next)).
Proof.
  induction spans as [|[doc_span_index doc_span] spans IH]; intros unique_id next Hnext.
  - apply Hnext.
  - cbn [convert_spans].
    destruct (feature_of_span _ _ _ _ _ _ _ _) as [[f|]|] eqn:Hbody; cbn.
    + constructor; [by eapply body_ok|]. by apply IH.
    + by apply IH.
    + constructor.
Qed.

Lemma convert_examples_all examples max_seq_length doc_stride max_query_length
    is_training :
  forall unique_id,
    Forall P (emitted (convert_examples examples max_seq_length doc_stride
                         max_query_length is_training unique_id)).
Proof.
  induction examples as [|[example_index example] examples IH]; intros unique_id.
  - constructor.
  - cbn [convert_examples]. destruct (prepare _ _ _) as [p|]; [|constructor].
    destruct (doc_spans _ _ _ _) as [spans|]; [|constructor].
    by apply convert_spans_all.
Qed.

End EmittedFeatures.

Lemma feature_of_span_inv `{Tokenization} `{Converter}
    p example is_training spans unique_id example_index doc_span_index doc_span f :
  feature_of_span p example is_training spans unique_id example_index
    doc_span_index doc_span = Some (Some f) ->
  exists d,
    draft_of_span p spans doc_span_index doc_span = Some d
    /\ InputFeatures.unique_id f = unique_id
    /\ InputFeatures.tokens f = d_tokens d
    /\ InputFeatures.wn_concept_ids f
       = pad_concept_ids max_wn_concept_length (d_wn_concept_ids d)
    /\ InputFeatures.nell_concept_ids f
       = pad_concept_ids max_nell_concept_length (d_nell_concept_ids d).
Proof.
  unfold feature_of_span. intros Hf.
  destruct (draft_of_span _ _ _ _) as [d|]; [|done]. exists d. cbn in Hf.
  repeat (first [ case_match
                | match type of Hf with context [mbind _ ?o] => destruct o end ];
          simplify_eq/=); done.
Qed.

Lemma feature_of_span_rows `{Tokenization} `{Converter}
    p example is_training spans unique_id example_index doc_span_index doc_span f :
  feature_of_span p example is_training spans unique_id example_index
    doc_span_index doc_span = Some (Some f) ->
  Forall (fun row => length row = max_wn_concept_length) (InputFeatures.wn_concept_ids f)
  /\ Forall (fun row => length row = max_nell_concept_length)
       (InputFeatures.nell_concept_ids f).
Proof.
  intros (d & _ & _ & _ & -> & ->)%feature_of_span_inv.
  split; apply pad_concept_ids_width.
Qed.

Section ConceptRowsRun.
Existing Instances Toy.tokenization Toy.converter.

Example toy_features_rows :
  List.map (fun f => (InputFeatures.unique_id f, InputFeatures.tokens f,
                      InputFeatures.wn_concept_ids f, InputFeatures.nell_concept_ids f))
    (emitted (__call__ [Toy.example] 6 1 64 false))
  = [ (1000000000, [str "[CLS]"; str "q"; str "[SEP]"; str "a"; str "b"; str "[SEP]"],
       [[0; 0]; [7; 0]; [0; 0]; [7; 0]; [7; 0]; [0; 0]],
       [[0; 0; 0]; [1; 2; 3]; [0; 0; 0]; [1; 2; 3]; [1; 2; 3]; [0; 0; 0]]);
      (1000000001, [str "[CLS]"; str "q"; str "[SEP]"; str "b"; str "c"; str "[SEP]"],
       [[0; 0]; [7; 0]; [0; 0]; [7; 0]; [7; 0]; [0; 0]],
       [[0; 0; 0]; [1; 2; 3]; [0; 0; 0]; [1; 2; 3]; [1; 2; 3]; [0; 0; 0]]) ].
Proof. by vm_compute. Qed.

End ConceptRowsRun.

(** ** Unique ids *)

Section UniqueIds.
Context `{Tokenization} `{Converter}.

Lemma convert_spans_numbered p example is_training doc_spans example_index spans :
  forall unique_id next,
    (forall u, numbered_from u (next u)) ->
    numbered_from unique_id
      (convert_spans p example is_training doc_spans example_index spans unique_id next).
Proof.
  induction spans as [|[doc_span_index doc_span] spans IH]; intros unique_id next Hnext.
  - apply Hnext.
  - cbn [convert_spans].
    destruct (feature_of_span _ _ _ _ _ _ _ _) as [[f0|]|] eqn:Hbody.
    + apply feature_of_span_inv in Hbody as (_ & _ & Hid & _).
      intros [|i] f Hf; cbn in Hf.
      * injection Hf as <-. lia.
      * apply (IH (unique_id + 1) next Hnext) in Hf. lia.
    + by apply IH.
    + intros i f Hf. done.
Qed.

Lemma convert_examples_numbered examples max_seq_length doc_stride max_query_length
    is_training :
  forall unique_id,
    numbered_from unique_id
      (convert_examples examples max_seq_length doc_stride max_query_length
         is_training unique_id).
Proof.
  induction examples as [|[example_index example] examples IH]; intros unique_id.
  - intros i f Hf. done.
  - cbn [convert_examples]. destruct (prepare _ _ _) as [p|]; [|by intros i f Hf].
    destruct (doc_spans _ _ _ _) as [spans|]; [|by intros i f Hf].
    by apply convert_spans_numbered.
Qed.

End UniqueIds.

(** C7 (amended): within one invocation of the converter the counter starts
    at 1000000000 and grows by one per yielded feature: the [i]-th feature
    yielded (from 0) has id [1000000000 + i], so every feature's id is
    strictly greater than that of every feature yielded earlier by the same
    invocation. *)
Theorem unique_ids_within_invocation `{Tokenization} `{Converter}
    (examples : list ReCoRDExample.t)
    (max_seq_length doc_stride max_query_length : Z) (is_training : bool)
    (i j : nat) (fi fj : InputFeatures.t) :
  let features :=
    emitted (__call__ examples max_seq_length doc_stride max_query_length is_training) in
  features !! i = Some fi -> features !! j = Some fj ->
  InputFeatures.unique_id fi = 1000000000 + Z.of_nat i
  /\ ((i < j)%nat -> InputFeatures.unique_id fi < InputFeatures.unique_id fj).
Proof.
  intros features Hi Hj. subst features. unfold __call__ in Hi, Hj.
  apply convert_examples_numbered in Hi, Hj. lia.
Qed.

Section UniqueIdsRun.
Existing Instances Toy.tokenization Toy.converter.

Lemma unique_ids_within_invocation_witness :
  exists fi fj,
    emitted (__call__ [Toy.example] 6 1 64 false) !! 0%nat = Some fi
    /\ emitted (__call__ [Toy.example] 6 1 64 false) !! 1%nat = Some fj
    /\ InputFeatures.unique_id fi = 1000000000 + Z.of_nat 0
    /\ ((0 < 1)%nat -> InputFeatures.unique_id fi < InputFeatures.unique_id fj).
Proof.
  destruct (emitted (__call__ [Toy.example] 6 1 64 false) !! 0%nat) as [fi|] eqn:Hi;
    [|by vm_compute in Hi].
  destruct (emitted (__call__ [Toy.example] 6 1 64 false) !! 1%nat) as [fj|] eqn:Hj;
    [|by vm_compute in Hj].
  exists fi, fj. split; [done|]. split; [done|].
  exact (unique_ids_within_invocation [Toy.example] 6 1 64 false 0 1 fi fj Hi Hj).
Defined.

(** C7 as stated fails: the counter is a local variable of the converter, so
    the invocation of the next epoch starts again at 1000000000.  With one
    example and two epochs, the first feature of the second epoch has the id
    of the first feature of the first epoch. *)
Lemma unique_ids_restart_each_epoch :
  ~ (forall (tokenization : Tokenization) (converter : Converter)
       (self : DataProcessor) (epochs : list Z) (examples : list ReCoRDExample.t)
       (is_training : bool) (e1 e2 : nat) (g1 g2 : gen InputFeatures.t)
       (f1 f2 : InputFeatures.t),
       (e1 < e2)%nat ->
       epoch_features self epochs examples is_training !! e1 = Some g1 ->
       epoch_features self epochs examples is_training !! e2 = Some g2 ->
       f1 ∈ emitted g1 -> f2 ∈ emitted g2 ->
       InputFeatures.unique_id f1 < InputFeatures.unique_id f2).
Proof.
  intros Hclaim.
  pose (g := get_features Toy.processor [Toy.example] false).
  destruct (emitted g) as [|f fs] eqn:Hg; [by vm_compute in Hg|].
  specialize (Hclaim Toy.tokenization Toy.converter Toy.processor (range 0 2)
                [Toy.example] false 0%nat 1%nat g g f f).
  assert (InputFeatures.unique_id f < InputFeatures.unique_id f); [|lia].
  apply Hclaim; [lia | done | done | rewrite Hg; left | rewrite Hg; left].
Qed.

End UniqueIdsRun.

(** ** Batching *)

Lemma batch_reader_from_rows (fs : list InputFeatures.t) (batch_size : Z)
    (in_tokens : bool) :
  forall batch total_token_num max_len,
    concat (List.map fst (emitted (batch_reader_from (gen_of_list fs) batch_size
                                     in_tokens batch total_token_num max_len)))
    = batch ++ List.map row_of_feature fs.
Proof.
  induction fs as [|f fs IH]; intros batch total_token_num max_len.
  - cbn. destruct batch; cbn; by rewrite ?app_nil_r.
  - cbn [gen_of_list batch_reader_from]. cbn zeta.
    destruct (if in_tokens then _ else _).
    + rewrite IH, <- app_assoc. done.
    + cbn. rewrite IH. done.
Qed.

(** C5: in token-budget mode a feature joins the pending batch iff
    [(len(batch) + 1) * max_len <= batch_size], where [max_len] already counts
    the feature's own length; otherwise the pending batch is yielded and the
    next one starts with that feature alone.  When the features end, a
    non-empty pending batch is yielded, so the batches together hold every
    feature once and in order.  With [batch_size = 10] and lengths [4, 4, 3] the
    batches are the first two features and then the third alone. *)
Theorem batch_reader_token_budget :
  (forall (feature : InputFeatures.t) (features : gen InputFeatures.t)
          (batch_size : Z) (batch : list BatchRow) (total_token_num max_len : Z),
     let seq_len := len (InputFeatures.input_ids feature) in
     let running_max_length := Z.max max_len seq_len in
     batch_reader_from (Yield feature features) batch_size true batch
       total_token_num max_len
     = if (len batch + 1) * running_max_length <=? batch_size
       then batch_reader_from features batch_size true
              (batch ++ [row_of_feature feature]) (total_token_num + seq_len)
              running_max_length
       else Yield (batch, total_token_num)
              (batch_reader_from features batch_size true
                 [row_of_feature feature] seq_len seq_len))
  /\ (forall (batch_size : Z) (row : BatchRow) (batch : list BatchRow)
             (total_token_num max_len : Z),
        batch_reader_from (Stop Done) batch_size true (row :: batch)
          total_token_num max_len
        = Yield (row :: batch, total_token_num) (Stop Done))
  /\ (forall (fs : list InputFeatures.t) (batch_size : Z),
        concat (List.map fst (emitted (batch_reader (gen_of_list fs) batch_size true)))
        = List.map row_of_feature fs)
  /\ (let f1 := Toy.feature_of_length 1 4 in
      let f2 := Toy.feature_of_length 2 4 in
      let f3 := Toy.feature_of_length 3 3 in
      batch_reader (gen_of_list [f1; f2; f3]) 10 true
      = Yield ([row_of_feature f1; row_of_feature f2], 8)
          (Yield ([row_of_feature f3], 3) (Stop Done))).
Proof.
  split_and!.
  - reflexivity.
  - reflexivity.
  - intros fs batch_size. unfold batch_reader. by rewrite batch_reader_from_rows.
  - by vm_compute.
Qed.

(** ** The epoch wrapper *)

Lemma emitted_yield_all {A} (l : list A) (rest : gen A) :
  emitted (yield_all l rest) = l ++ emitted rest.
Proof. induction l as [|a l IH]; cbn; [done|by rewrite IH]. Qed.

Section DevBatches.
Context `{Converter} {B : Type} `{Batching B}.
Variables (self : DataProcessor) (dev_count : Z) (next : gen B).
Hypothesis dev_count_pos : 1 <= dev_count.

Lemma prepared_batches_cons (batch_data : list BatchRow) (total_token_num : Z)
    (batches : list (list BatchRow * Z)) :
  prepared_batches self ((batch_data, total_token_num) :: batches)
  = prepare_batch_data batch_data total_token_num (-1) (pad_id self) (cls_id self)
      (sep_id self) (-1) max_wn_concept_length max_nell_concept_length
    :: prepared_batches self batches.
Proof. reflexivity. Qed.

Lemma dev_batches_buffered (batches : gen (list BatchRow * Z)) :
  forall all_dev_batches : list B,
    (length all_dev_batches < Z.to_nat dev_count)%nat ->
    let d := Z.to_nat dev_count in
    let prepared := all_dev_batches ++ prepared_batches self (emitted batches) in
    emitted (dev_batches self dev_count batches all_dev_batches next)
    = take (d * (length prepared / d)) prepared
      ++ match ending batches with Done => emitted next | _ => [] end.
Proof.
  induction batches as [[batch_data total_token_num] batches IH|o];
    intros buf Hbuf d prepared; subst prepared.
  - cbn [dev_batches emitted ending]. rewrite prepared_batches_cons.
    set (b := prepare_batch_data _ _ _ _ _ _ _ _ _).
    set (rest := prepared_batches self (emitted batches)) in *.
    destruct (Z.ltb_spec (len buf) dev_count) as [_|Hge]; [|unfold len in Hge; lia].
    replace (buf ++ b :: rest) with ((buf ++ [b]) ++ rest) by (by rewrite <- app_assoc).
    destruct (Z.eqb_spec (len (buf ++ [b])) dev_count) as [Hfull|Hpart].
    + rewrite emitted_yield_all, IH by (cbn; lia). cbn [app length]. fold d.
      assert (Hd : length (buf ++ [b]) = d) by (unfold len in Hfull; subst d; lia).
      rewrite (length_app (buf ++ [b])), Hd.
      replace (d + length rest)%nat with (1 * d + length rest)%nat by lia.
      rewrite Nat.div_add_l by (subst d; lia).
      rewrite Nat.mul_add_distr_l, Nat.mul_1_r.
      rewrite take_app_add' by done. by rewrite app_assoc.
    + apply IH. unfold len in Hpart. rewrite length_app in *. cbn in *. lia.
  - cbn [emitted ending]. unfold prepared_batches. cbn [List.map].
    rewrite app_nil_r, Nat.div_small by done. rewrite Nat.mul_0_r, take_0.
    by destruct o.
Qed.

End DevBatches.

(** C10: with [dev_count >= 1], the batches of an epoch are released in
    complete groups of [dev_count] only: of the [n] batches prepared so far,
    exactly the first [dev_count * (n / dev_count)] have been yielded, in
    order; when the feature stream of the epoch ends, the remaining
    [n mod dev_count] buffered batches are dropped and the generator goes on
    with the next epoch. *)
Theorem dev_batches_complete_groups `{Converter} {B : Type} `{Batching B}
    (self : DataProcessor) (dev_count : Z) (batches : gen (list BatchRow * Z))
    (next : gen B) :
  1 <= dev_count ->
  let d := Z.to_nat dev_count in
  let prepared := prepared_batches self (emitted batches) in
  let n := length prepared in
  emitted (dev_batches self dev_count batches [] next)
  = take (d * (n / d)) prepared
    ++ match ending batches with Done => emitted next | _ => [] end
  /\ length (drop (d * (n / d)) prepared) = (n mod d)%nat
  /\ (n mod d < d)%nat.
Proof.
  intros Hpos d prepared n. split_and!.
  - apply (dev_batches_buffered self dev_count next Hpos batches []). cbn. lia.
  - rewrite length_drop. fold n. pose proof (Nat.div_mod_eq n d). lia.
  - apply Nat.mod_upper_bound. subst d. lia.
Qed.

Section DevBatchesRun.
Existing Instances Toy.converter Toy.batching.

Lemma dev_batches_complete_groups_witness :
  let batches := gen_of_list [([], 1); ([], 2); ([], 3)] in
  emitted (dev_batches Toy.processor 2 batches [] (Stop Done)) = [([], 1); ([], 2)]
  /\ length (drop 2 (prepared_batches Toy.processor (emitted batches))) = 1%nat
  /\ (1 < 2)%nat.
Proof.
  exact (dev_batches_complete_groups Toy.processor 2
           (gen_of_list [([], 1); ([], 2); ([], 3)]) (Stop Done) ltac:(lia)).
Defined.

End DevBatchesRun.

(** ** Final selection *)

Lemma best_non_null_from (nbest : list NbestPrediction.t) (best : NbestPrediction.t) :
  fold_left best_non_null_step nbest (Some best) = Some best.
Proof. induction nbest as [|entry nbest IH]; [done|apply IH]. Qed.

Lemma best_non_null_first (nbest : list NbestPrediction.t) :
  match best_non_null nbest with
  | Some best =>
      NbestPrediction.text best <> []
      /\ exists before after,
           nbest = before ++ best :: after
           /\ Forall (fun entry => NbestPrediction.text entry = []) before
  | None => Forall (fun entry => NbestPrediction.text entry = []) nbest
  end.
Proof.
  unfold best_non_null. induction nbest as [|entry nbest IH]; cbn; [done|].
  destruct (NbestPrediction.text entry) eqn:Htext.
  - destruct (fold_left _ _ _) as [best|].
    + destruct IH as (Hbest & before & after & -> & Hbefore).
      split; [done|]. exists (entry :: before), after. split; [done|].
      by constructor.
    + by constructor.
  - rewrite best_non_null_from. split; [by rewrite Htext|].
    exists [], nbest. by split.
Qed.

(** When no entry has a text, reading [best_non_null_entry.start_logit]
    raises. *)
Lemma final_prediction_without_text `{Evaluation} (nbest : list NbestPrediction.t)
    (candidates : list pystr) (score_null null_score_diff_threshold : float64) :
  Forall (fun entry => NbestPrediction.text entry = []) nbest ->
  final_prediction true nbest candidates score_null null_score_diff_threshold = None.
Proof.
  intros Hall. unfold final_prediction. cbn.
  pose proof (best_non_null_first nbest) as Hfirst.
  destruct (best_non_null nbest) as [best|]; [|done].
  destruct Hfirst as (Hbest & before & after & -> & _).
  apply Forall_app in Hall as [_ Hall]. by inversion Hall.
Qed.


Section SelectionRun.
Existing Instance Toy.evaluation.



End SelectionRun.

(** ** Reading examples *)

Lemma starts_with_prefix (pat text : pystr) :
  starts_with pat text = true <-> exists after, text = pat ++ after.
Proof.
  revert text. induction pat as [|p pat IH]; intros text; cbn.
  - split; [by exists text|done].
  - destruct text as [|c text]; [split; [done|by intros [? ?]]|].
    destruct (N.eqb_spec p c) as [->|Hne].
    + rewrite IH. split; intros [after Heq]; exists after; congruence.
    + split; [done|]. intros [after [=]]. done.
Qed.

Lemma find_from_missing (pat text : pystr) :
  forall i, 0 <= i ->
    (find_from text pat i = -1 <-> ~ substring pat text)
    /\ (find_from text pat i = -1 \/ i <= find_from text pat i).
Proof.
  induction text as [|c text IH]; intros i Hi; cbn [find_from].
  - destruct (starts_with pat []) eqn:Hstart.
    + apply starts_with_prefix in Hstart as [after Heq].
      split; [|lia]. split; [lia|]. intros []. by exists [], after.
    + split; [|by left]. split; [|done]. intros _ (before & after & Heq).
      symmetry in Heq. apply app_eq_nil in Heq as [_ [-> _]%app_eq_nil].
      done.
  - destruct (starts_with pat (c :: text)) eqn:Hstart.
    + apply starts_with_prefix in Hstart as [after Heq].
      split; [|lia]. split; [lia|]. intros []. by exists [], after.
    + destruct (IH (i + 1) ltac:(lia)) as [Hiff Hge]. split; [|lia].
      rewrite Hiff. split.
      * intros Hno (before & after & Heq). destruct before as [|b before].
        -- assert (starts_with pat (c :: text) = true); [|congruence].
           apply starts_with_prefix. by exists after.
        -- apply Hno. exists before, after. cbn in Heq. congruence.
      * intros Hno (before & after & Heq). apply Hno.
        exists (c :: before), after. cbn. congruence.
Qed.

Lemma find_missing (text pat : pystr) : find text pat = -1 <-> ~ substring pat text.
Proof. apply find_from_missing. lia. Qed.

(** The passage loop never raises: a word is open whenever a character is
    appended to the last word. *)
Lemma split_words_total (text : pystr) :
  forall doc_tokens char_to_word_offset prev_is_whitespace,
    (prev_is_whitespace = false -> doc_tokens <> []) ->
    is_Some (split_words text doc_tokens char_to_word_offset prev_is_whitespace).
Proof.
  induction text as [|c text IH]; intros doc_tokens offsets prev Hopen; cbn; [done|].
  destruct (is_whitespace c); [by apply IH|].
  destruct prev; cbn.
  - apply IH. intros _. by destruct doc_tokens.
  - unfold append_to_last.
    destruct (reverse doc_tokens) as [|last before] eqn:Hrev.
    + apply (f_equal reverse) in Hrev. rewrite reverse_involutive in Hrev.
      by destruct Hopen.
    + cbn. apply IH. intros _. by destruct (reverse before).
Qed.



Section ReaderRun.
Existing Instance Toy.tokenization.

Example split_words_passage :
  split_words (str "the cat sat") [] [] true
  = Some ([str "the"; str "cat"; str "sat"], [0; 0; 0; 0; 1; 1; 1; 1; 2; 2; 2]).
Proof. reflexivity. Qed.



(** Of two training questions on one passage, only the one whose answer can be
    recovered from the words becomes an example. *)
Example read_record_examples_skips :
  read_record_examples
    [Entry.mk (str "the cat sat")
       [QA.mk (str "q1") (str "who") [Answer.mk (str "cat") 4] false;
        QA.mk (str "q2") (str "who sat") [Answer.mk (str "dog") 4] false]]
    true false
  = Some [ReCoRDExample.mk (str "q1") (str "who") [str "the"; str "cat"; str "sat"]
            (Some (str "cat")) (Some 1) (Some 1) false].
Proof. reflexivity. Qed.

End ReaderRun.

(** ** Projection onto the original text *)

Lemma od_set_fresh (P : list Z) :
  forall a v, od_set (enumerate_from a P) (a + len P) v = enumerate_from a (P ++ [v]).
Proof.
  induction P as [|x P IH]; intros a v; cbn [enumerate_from od_set app].
  - by rewrite Z.add_0_r.
  - pose proof (len_nonneg P).
    replace (a + len (x :: P)) with (a + 1 + len P) by (unfold len; cbn; lia).
    destruct (Z.eqb_spec a (a + 1 + len P)); [lia|]. by rewrite IH.
Qed.

Lemma od_get_enumerate_from (P : list Z) :
  forall a k,
    od_get (enumerate_from a P) k
    = if decide (a <= k) then P !! Z.to_nat (k - a) else None.
Proof.
  induction P as [|x P IH]; intros a k; cbn [enumerate_from od_get].
  - by case_decide.
  - destruct (Z.eqb_spec a k) as [->|Hne].
    + rewrite decide_True by lia. by rewrite Z.sub_diag.
    + rewrite IH. repeat case_decide; try lia; [|done].
      by replace (Z.to_nat (k - a)) with (S (Z.to_nat (k - (a + 1)))) by lia.
Qed.

Lemma nonspace_positions_from_ge (text : pystr) :
  forall a p, p ∈ nonspace_positions_from a text -> a <= p.
Proof.
  induction text as [|c text IH]; intros a p Hp; cbn in Hp.
  - by apply elem_of_nil in Hp.
  - destruct (c =? 32)%N.
    + apply IH in Hp. lia.
    + apply elem_of_cons in Hp as [->|Hp]; [lia|]. apply IH in Hp. lia.
Qed.

Lemma nonspace_positions_from_NoDup (text : pystr) :
  forall a, NoDup (nonspace_positions_from a text).
Proof.
  induction text as [|c text IH]; intros a; cbn.
  - constructor.
  - destruct (c =? 32)%N; [apply IH|].
    constructor; [|apply IH]. intros Hin%nonspace_positions_from_ge. lia.
Qed.

Lemma nonspace_positions_from_length (text : pystr) :
  forall a, length (nonspace_positions_from a text) = length (stripped text).
Proof.
  induction text as [|c text IH]; intros a; cbn; [done|].
  destruct (c =? 32)%N; cbn; by rewrite IH.
Qed.

Lemma strip_spaces_from_positions (text : pystr) :
  forall a ns_chars P,
    length P = length ns_chars ->
    strip_spaces_from (enumerate_from a text) ns_chars (enumerate P)
    = (ns_chars ++ stripped text, enumerate (P ++ nonspace_positions_from a text)).
Proof.
  induction text as [|c text IH]; intros a ns_chars P Hlen;
    cbn [enumerate_from strip_spaces_from stripped List.filter nonspace_positions_from].
  - by rewrite !app_nil_r.
  - destruct (c =? 32)%N; cbn [negb]; [by apply IH|].
    replace (len ns_chars) with (0 + len P) by (unfold len; lia).
    unfold enumerate at 1. rewrite od_set_fresh. fold (enumerate (P ++ [a])).
    rewrite IH by (rewrite !length_app; cbn; lia).
    by rewrite <- !app_assoc.
Qed.

Lemma strip_spaces_positions (text : pystr) :
  _strip_spaces text = (stripped text, enumerate (nonspace_positions text)).
Proof. apply (strip_spaces_from_positions text 0 [] []). done. Qed.

Lemma inverse_map_other (P : list Z) :
  forall a (m : gmap Z Z) p,
    p ∉ P ->
    fold_left (fun m '(i, tok_index) => <[tok_index := i]> m) (enumerate_from a P) m !! p
    = m !! p.
Proof.
  induction P as [|x P IH]; intros a m p Hp; cbn [enumerate_from fold_left]; [done|].
  apply not_elem_of_cons in Hp as [Hne Hp].
  rewrite IH by done. by rewrite lookup_insert_ne.
Qed.

Lemma inverse_map_position (P : list Z) :
  NoDup P ->
  forall a (m : gmap Z Z) (k : nat) p,
    P !! k = Some p ->
    fold_left (fun m '(i, tok_index) => <[tok_index := i]> m) (enumerate_from a P) m !! p
    = Some (a + Z.of_nat k).
Proof.
  induction 1 as [|x P Hx Hnodup IH]; intros a m k p Hk; [done|].
  cbn [enumerate_from fold_left]. destruct k as [|k]; cbn in Hk.
  - injection Hk as ->. rewrite inverse_map_other by done.
    rewrite lookup_insert_eq. f_equal. lia.
  - rewrite (IH (a + 1) _ k p Hk). f_equal. lia.
Qed.

Lemma projected_position (Pt Po : list Z) (p : Z) :
  NoDup Pt ->
  let tok_s_to_ns_map : gmap Z Z :=
    fold_left (fun m '(i, tok_index) => <[tok_index := i]> m) (enumerate Pt) ∅ in
  let projected := tok_s_to_ns_map !! p ≫= od_get (enumerate Po) in
  (p ∉ Pt -> projected = None)
  /\ (forall k : nat, Pt !! k = Some p -> projected = Po !! k).
Proof.
  intros Hnodup tok_s_to_ns_map projected. subst projected tok_s_to_ns_map. split.
  - intros Hp. unfold enumerate. by rewrite inverse_map_other.
  - intros k Hk. unfold enumerate.
    rewrite (inverse_map_position Pt Hnodup 0 ∅ k p Hk). cbn [mbind option_bind].
    rewrite od_get_enumerate_from, decide_True by lia. f_equal. lia.
Qed.

Lemma get_final_text_positions `{Tokenization} (pred_text orig_text : pystr)
    (do_lower_case : bool) :
  let tok_text := join space (basic_tokenize do_lower_case orig_text) in
  let start_position := find tok_text pred_text in
  let end_position := start_position + len pred_text - 1 in
  let tok_s_to_ns_map : gmap Z Z :=
    fold_left (fun m '(i, tok_index) => <[tok_index := i]> m)
      (enumerate (nonspace_positions tok_text)) ∅ in
  let project p :=
    tok_s_to_ns_map !! p ≫= od_get (enumerate (nonspace_positions orig_text)) in
  get_final_text pred_text orig_text do_lower_case
  = if start_position =? -1 then orig_text
    else if negb (len (stripped orig_text) =? len (stripped tok_text)) then orig_text
    else match project start_position with
         | None => orig_text
         | Some orig_start_position =>
             match project end_position with
             | None => orig_text
             | Some orig_end_position =>
                 py_slice orig_text orig_start_position (orig_end_position + 1)
             end
         end.
Proof. cbv zeta. unfold get_final_text. by rewrite !strip_spaces_positions. Qed.

(** C9: [get_final_text] returns [orig_text] unchanged when the prediction
    does not occur in the space-joined re-tokenization of [orig_text], when
    the two texts have different lengths once their spaces are removed, or
    when the start or the end position of the occurrence is not the position
    of a non-space character of the re-tokenized text (it has no entry in the
    position map).  When none of these happens, the start and end positions
    are the [ks]-th and [ke]-th non-space characters of the re-tokenized text
    and the result is the slice of [orig_text] from its [ks]-th to its [ke]-th
    non-space character. *)
Theorem get_final_text_fallback `{Tokenization} (pred_text orig_text : pystr)
    (do_lower_case : bool) :
  let tok_text := join space (basic_tokenize do_lower_case orig_text) in
  let start_position := find tok_text pred_text in
  let end_position := start_position + len pred_text - 1 in
  let tok_positions := nonspace_positions tok_text in
  let orig_positions := nonspace_positions orig_text in
  let result := get_final_text pred_text orig_text do_lower_case in
  (~ substring pred_text tok_text -> result = orig_text)
  /\ (length (stripped orig_text) <> length (stripped tok_text) -> result = orig_text)
  /\ (start_position ∉ tok_positions -> result = orig_text)
  /\ (end_position ∉ tok_positions -> result = orig_text)
  /\ (substring pred_text tok_text ->
      length (stripped orig_text) = length (stripped tok_text) ->
      forall ks ke : nat,
        tok_positions !! ks = Some start_position ->
        tok_positions !! ke = Some end_position ->
        exists orig_start_position orig_end_position,
          orig_positions !! ks = Some orig_start_position
          /\ orig_positions !! ke = Some orig_end_position
          /\ result = py_slice orig_text orig_start_position (orig_end_position + 1)).
Proof.
  intros tok_text start_position end_position tok_positions orig_positions result.
  assert (Hnodup : NoDup tok_positions) by apply nonspace_positions_from_NoDup.
  pose proof (find_missing tok_text pred_text) as Hfind.
  pose proof (projected_position tok_positions orig_positions start_position Hnodup)
    as [Hstart_out Hstart_in].
  pose proof (projected_position tok_positions orig_positions end_position Hnodup)
    as [Hend_out Hend_in].
  subst result. rewrite get_final_text_positions. cbv zeta.
  fold tok_text. fold start_position. fold end_position.
  fold tok_positions orig_positions.
  split_and!.
  - intros Hmissing%Hfind. fold start_position in Hmissing. by rewrite Hmissing.
  - intros Hlen. destruct (start_position =? -1); [done|].
    destruct (Z.eqb_spec (len (stripped orig_text)) (len (stripped tok_text)))
      as [Heq|]; [|done]. unfold len in Heq. lia.
  - intros Hout. destruct (start_position =? -1); [done|].
    destruct (negb _); [done|]. by rewrite Hstart_out.
  - intros Hout. destruct (start_position =? -1); [done|].
    destruct (negb _); [done|]. rewrite Hend_out by done. by case_match.
  - intros Hsub Hlen ks ke Hks Hke.
    destruct (Z.eqb_spec start_position (-1)) as [Hmissing|_].
    { by apply Hfind in Hmissing. }
    destruct (Z.eqb_spec (len (stripped orig_text)) (len (stripped tok_text)))
      as [_|Hne]; [|unfold len in Hne; lia]. cbn [negb].
    rewrite (Hstart_in ks Hks), (Hend_in ke Hke).
    assert (Hsame : length orig_positions = length tok_positions).
    { unfold orig_positions, tok_positions, nonspace_positions.
      by rewrite !nonspace_positions_from_length. }
    destruct (lookup_lt_is_Some_2 orig_positions ks) as [os Hos].
    { rewrite Hsame. by eapply lookup_lt_Some. }
    destruct (lookup_lt_is_Some_2 orig_positions ke) as [oe Hoe].
    { rewrite Hsame. by eapply lookup_lt_Some. }
    exists os, oe. by rewrite Hos, Hoe.
Qed.

Section FinalTextRun.
Existing Instance Toy.tokenization.

(** The possessive is cut off: "steve smith" found in "steve smith ' s" is
    projected onto "Steve Smith's" as "Steve Smith". *)
Lemma get_final_text_fallback_witness :
  get_final_text (str "steve smith") (str "Steve Smith's") true = str "Steve Smith".
Proof.
  destruct (get_final_text_fallback (str "steve smith") (str "Steve Smith's") true)
    as (_ & _ & _ & _ & Hproject).
  destruct (Hproject (ex_intro _ [] (ex_intro _ (str " ' s") eq_refl)) eq_refl
              0%nat 9%nat eq_refl eq_refl) as (os & oe & Hos & Hoe & ->).
  vm_compute in Hos, Hoe. injection Hos as <-. injection Hoe as <-. reflexivity.
Defined.

End FinalTextRun.

(** ** Further properties of the batching and of the wrapper *)

Lemma max_seq_len_snoc (batch : list BatchRow) (row : BatchRow) :
  max_seq_len (batch ++ [row]) = Z.max (max_seq_len batch) (len (row_input_ids row)).
Proof.
  induction batch as [|r batch IH]; cbn.
  - pose proof (len_nonneg (row_input_ids row)). lia.
  - fold (max_seq_len (batch ++ [row])). fold (max_seq_len batch). rewrite IH. lia.
Qed.

(** In token-budget mode every batch of two rows or more fits the budget: the
    number of its rows times its longest sequence is at most [batch_size]. *)
Lemma batch_reader_from_within_budget (features : gen InputFeatures.t) (batch_size : Z) :
  forall batch total_token_num max_len,
    max_len = max_seq_len batch ->
    within_budget batch_size (batch, total_token_num) ->
    Forall (within_budget batch_size)
      (emitted (batch_reader_from features batch_size true batch total_token_num
                  max_len)).
Proof.
  induction features as [feature features IH|o]; intros batch total max_len Hmax Hfit.
  - cbn [batch_reader_from]. cbn zeta.
    destruct (Z.leb_spec ((len batch + 1)
                          * Z.max max_len (len (InputFeatures.input_ids feature)))
                batch_size) as [Hle|Hgt].
    + apply IH.
      * rewrite max_seq_len_snoc. by subst max_len.
      * intros _. cbn [fst]. rewrite max_seq_len_snoc, len_app. subst max_len.
        exact Hle.
    + cbn [emitted]. constructor; [done|]. apply IH.
      * cbn. pose proof (len_nonneg (InputFeatures.input_ids feature)). lia.
      * intros Htwo. cbn in Htwo. lia.
  - destruct o; cbn; [|constructor..].
    destruct batch; cbn; [constructor|]. by repeat constructor.
Qed.

Lemma batch_reader_within_budget (features : gen InputFeatures.t) (batch_size : Z) :
  Forall (within_budget batch_size) (emitted (batch_reader features batch_size true)).
Proof.
  apply batch_reader_from_within_budget; [done|]. intros Htwo. cbn in Htwo. lia.
Qed.

Section WrapperProperties.
Context `{Tokenization} `{Converter} {B : Type} `{Batching B}.
Variable self : DataProcessor.

(** Without shuffling, the wrapper consumes one fresh feature generator per
    epoch, the ones listed by [epoch_features]. *)
Lemma wrapper_from_epoch_features (epochs : list Z) (examples : list ReCoRDExample.t)
    (is_training : bool) (batch_size dev_count : Z) :
  wrapper_from self epochs examples is_training batch_size false dev_count
  = foldr (fun features next =>
             dev_batches self dev_count
               (batch_reader features batch_size (_in_tokens self)) [] next)
      (Stop Done) (epoch_features self epochs examples is_training).
Proof.
  induction epochs as [|epoch_index epochs IH]; cbn; [done|]. by rewrite IH.
Qed.

(** With [dev_count <= 0] no batch is ever released. *)
Lemma dev_batches_nonpositive (dev_count : Z) (batches : gen (list BatchRow * Z))
    (next : gen B) :
  dev_count <= 0 ->
  emitted (dev_batches self dev_count batches [] next)
  = match ending batches with Done => emitted next | _ => [] end.
Proof.
  intros Hle. induction batches as [[batch_data total_token_num] batches IH|o].
  - cbn [dev_batches ending].
    destruct (Z.ltb_spec (len (@nil B)) dev_count) as [Hlt|_];
      [unfold len in Hlt; cbn in Hlt; lia|].
    destruct (len (@nil B) =? dev_count); [cbn [yield_all]|]; exact IH.
  - by destruct o.
Qed.

End WrapperProperties.

(** ** Runs of the concrete setting *)

Section Runs.
Existing Instances Toy.tokenization Toy.converter Toy.batching.

(** The coarse span "( 1895 - 1943 ) ." is narrowed to the token "1895". *)
Example improve_answer_span_1895 :
  _improve_answer_span
    [str "the"; str "man"; str "went"; str "("; str "1895"; str "-"; str "1943";
     str ")"; str "."] 3 8 (str "1895")
  = (4, 4).
Proof. reflexivity. Qed.

(** "Japan" cannot be isolated inside "Japanese": the coarse span is kept. *)
Example improve_answer_span_Japanese :
  _improve_answer_span [str "The"; str "Japanese"; str "industry"] 1 1 (str "Japan")
  = (1, 1).
Proof. reflexivity. Qed.

(** Two epochs over one question on a three-word document, windows of two
    tokens: each epoch releases one batch of two features, and the features of
    the second epoch carry the ids of the first. *)
Example data_generator_two_epochs :
  (fun g => List.map (fun '(batch, total_token_num) =>
                        (List.map row_labels batch, total_token_num))
              (emitted g))
    <$> data_generator Toy.processor
          [Entry.mk (str "a b c") [QA.mk (str "id") (str "q") [] false]]
          12 (str "predict") false 1 false 2
  = Some [ ([[Some 1000000000]; [Some 1000000001]], 12);
           ([[Some 1000000000]; [Some 1000000001]], 12) ].
Proof. by vm_compute. Qed.

End Runs.

(** * Further properties *)

(** ** The sliding window, whatever the budget and the stride *)

Lemma doc_spans_from_nil (fuel : nat) (n max_tokens_for_doc doc_stride s : Z) :
  doc_spans_from fuel n max_tokens_for_doc doc_stride s = Some [] -> n <= s.
Proof.
  destruct fuel as [|fuel]; cbn [doc_spans_from];
    destruct (Z.ltb_spec s n); try done; try lia.
  destruct (_ =? _); [done|]. by destruct (doc_spans_from fuel _ _ _ _).
Qed.

(** Where the loop comes back from, the spans are laid out at multiples of
    [min(max_tokens_for_doc, doc_stride)] from the entry offset, each as long
    as the budget and the rest of the document allow; all but the last are
    exactly as long as the budget and stop short of the end, which the last
    one reaches. *)
Lemma doc_spans_from_layout (fuel : nat) (n max_tokens_for_doc doc_stride : Z) :
  forall (s : Z) (spans : list DocSpan.t),
    doc_spans_from fuel n max_tokens_for_doc doc_stride s = Some spans ->
    forall (k : nat) (sp : DocSpan.t),
      spans !! k = Some sp ->
      DocSpan.start sp = s + Z.of_nat k * Z.min max_tokens_for_doc doc_stride
      /\ DocSpan.length sp = Z.min max_tokens_for_doc (n - DocSpan.start sp)
      /\ DocSpan.start sp < n
      /\ ((S k < length spans)%nat ->
          DocSpan.length sp = max_tokens_for_doc
          /\ DocSpan.start sp + DocSpan.length sp <> n)
      /\ (S k = length spans -> DocSpan.start sp + DocSpan.length sp = n).
Proof.
  induction fuel as [|fuel IH]; intros s spans Hspans k sp Hk;
    cbn [doc_spans_from] in Hspans; destruct (Z.ltb_spec s n) as [Hs|Hs].
  1: done.
  1, 3: by injection Hspans as <-.
  set (length := if n - s >? max_tokens_for_doc then max_tokens_for_doc else n - s)
    in Hspans.
  assert (Hlen : length = Z.min max_tokens_for_doc (n - s)).
  { subst length. destruct (Z.gtb_spec (n - s) max_tokens_for_doc); lia. }
  destruct (Z.eqb_spec (s + length) n) as [Hend|Hend].
  - injection Hspans as <-. destruct k as [|k]; [|done].
    injection Hk as <-. cbn. split_and!; try lia.
  - destruct (doc_spans_from fuel _ _ _ _) as [rest|] eqn:Hrest; [|done].
    injection Hspans as <-. destruct k as [|k]; cbn in Hk.
    + injection Hk as <-. cbn. split_and!; try lia.
      intros Hlast. destruct rest as [|sp' rest]; [|done].
      apply doc_spans_from_nil in Hrest. lia.
    + assert (Hstep : Z.min length doc_stride = Z.min max_tokens_for_doc doc_stride)
        by lia.
      destruct (IH _ _ Hrest k sp Hk) as (Hstart & Hl & Hlt & Hfull & Hlast).
      split_and!; try done; try lia.
      * intros Hmore. apply Hfull. cbn in Hmore. lia.
      * intros Hmore. apply Hlast. cbn in Hmore. lia.
Qed.

(** X1: whenever the chunking loop ends, whatever the budget and the stride,
    the [k]-th span starts at [k * min(max_tokens_for_doc, doc_stride)], is as
    long as the budget and the rest of the document allow, and every span
    but the last is exactly as long as the budget. *)
Theorem doc_spans_closed_form (fuel : nat) (n max_tokens_for_doc doc_stride : Z)
    (spans : list DocSpan.t) (k : nat) (sp : DocSpan.t) :
  doc_spans fuel n max_tokens_for_doc doc_stride = Some spans ->
  spans !! k = Some sp ->
  DocSpan.start sp = Z.of_nat k * Z.min max_tokens_for_doc doc_stride
  /\ DocSpan.length sp = Z.min max_tokens_for_doc (n - DocSpan.start sp)
  /\ ((S k < length spans)%nat -> DocSpan.length sp = max_tokens_for_doc).
Proof.
  intros Hspans Hk.
  destruct (doc_spans_from_layout _ _ _ _ _ _ Hspans k sp Hk)
    as (Hstart & Hlen & _ & Hfull & _).
  split_and!; [lia | done | intros Hmore; by apply Hfull].
Qed.

Lemma doc_spans_closed_form_witness :
  DocSpan.start (DocSpan.mk 4 5) = Z.of_nat 2 * Z.min 5 2
  /\ DocSpan.length (DocSpan.mk 4 5) = Z.min 5 (10 - DocSpan.start (DocSpan.mk 4 5))
  /\ ((3 < length [DocSpan.mk 0 5; DocSpan.mk 2 5; DocSpan.mk 4 5; DocSpan.mk 6 4])%nat
      -> DocSpan.length (DocSpan.mk 4 5) = 5).
Proof.
  exact (doc_spans_closed_form 10 10 5 2
           [DocSpan.mk 0 5; DocSpan.mk 2 5; DocSpan.mk 4 5; DocSpan.mk 6 4]
           2 (DocSpan.mk 4 5) eq_refl eq_refl).
Defined.

(** X2: the chunking loop ends iff the document is empty, or the budget is at
    least one token and either the stride is at least one or the whole
    document fits the budget; in every other configuration it never returns. *)
Theorem doc_spans_terminates_iff (n max_tokens_for_doc doc_stride : Z) :
  (exists fuel, is_Some (doc_spans fuel n max_tokens_for_doc doc_stride))
  <-> n <= 0 \/ (1 <= max_tokens_for_doc /\ (1 <= doc_stride \/ n <= max_tokens_for_doc)).
Proof.
  split.
  - intros [fuel Hsome].
    destruct (Z.le_gt_cases n 0) as [|Hn]; [by left|right].
    destruct (Z.le_gt_cases max_tokens_for_doc 0) as [Hmax|Hmax].
    { unfold doc_spans in Hsome.
      rewrite doc_spans_from_hangs in Hsome by (try lia; by left).
      by destruct Hsome. }
    split; [lia|].
    destruct (Z.le_gt_cases 1 doc_stride) as [|Hstride]; [by left|right].
    destruct (Z.le_gt_cases n max_tokens_for_doc) as [|Hfit]; [done|].
    unfold doc_spans in Hsome.
    rewrite doc_spans_from_hangs in Hsome by (try lia; right; lia).
    by destruct Hsome.
  - intros [Hn|[Hmax [Hstride|Hfit]]].
    + exists 0%nat. unfold doc_spans. cbn.
      destruct (Z.ltb_spec 0 n); [lia|done].
    + destruct (Z.le_gt_cases n 0) as [Hn|Hn].
      { exists 0%nat. unfold doc_spans. cbn. destruct (Z.ltb_spec 0 n); [lia|done]. }
      exists (Z.to_nat n).
      destruct (doc_spans_from_covers (Z.to_nat n) n max_tokens_for_doc doc_stride
                  Hmax Hstride 0) as (sp & rest & Heq & _); [lia|lia|].
      unfold doc_spans. by rewrite Heq.
    + exists 1%nat. unfold doc_spans. cbn.
      destruct (Z.ltb_spec 0 n); [|done].
      destruct (Z.gtb_spec (n - 0) max_tokens_for_doc); [lia|].
      destruct (Z.eqb_spec (0 + (n - 0)) n); [done|lia].
Qed.

(** X3: with a budget and a stride of at least one, a non-empty document
    gives a single span iff it fits the budget, and that span is the whole
    document. *)
Theorem doc_spans_single_iff (fuel : nat) (n max_tokens_for_doc doc_stride : Z)
    (spans : list DocSpan.t) :
  1 <= n -> 1 <= max_tokens_for_doc -> 1 <= doc_stride ->
  doc_spans fuel n max_tokens_for_doc doc_stride = Some spans ->
  (length spans = 1%nat <-> n <= max_tokens_for_doc)
  /\ (n <= max_tokens_for_doc -> spans = [DocSpan.mk 0 n]).
Proof.
  intros Hn Hmax Hstride Hspans.
  pose proof (doc_spans_from_layout _ _ _ _ _ _ Hspans) as Hlayout.
  assert (exists sp rest, spans = sp :: rest) as (sp & rest & ->).
  { destruct spans as [|sp rest]; [|by eauto].
    apply doc_spans_from_nil in Hspans. lia. }
  destruct (Hlayout 0%nat sp eq_refl) as (Hstart & Hlen & _ & Hfull & Hlast).
  assert (Hsingle : n <= max_tokens_for_doc -> rest = []).
  { intros Hfit. destruct rest as [|sp' rest]; [done|].
    destruct Hfull as [Hl Hne]; [cbn; lia|]. lia. }
  split; [split|].
  - intros Hone. destruct rest; [|done]. specialize (Hlast eq_refl). lia.
  - intros Hfit. by rewrite Hsingle.
  - intros Hfit. rewrite Hsingle by done. f_equal.
    specialize (Hlast ltac:(by rewrite Hsingle)).
    destruct sp as [st le]. cbn in *. f_equal; lia.
Qed.

Lemma doc_spans_single_iff_witness :
  (length [DocSpan.mk 0 3] = 1%nat <-> 3 <= 5)
  /\ (3 <= 5 -> [DocSpan.mk 0 3] = [DocSpan.mk 0 3]).
Proof.
  exact (doc_spans_single_iff 3 3 5 2 [DocSpan.mk 0 3]
           ltac:(lia) ltac:(lia) ltac:(lia) eq_refl).
Defined.

(** ** Max-context ownership and answer spans, further *)

(** X4: [_check_is_max_context] only ever flags the index of a span of the
    list that contains the position: it is false for a span that does not
    contain the position, for an index that is not in the list, and for every
    index when no span contains the position. *)
Theorem check_is_max_context_contains (doc_spans : list DocSpan.t)
    (cur_span_index position : Z) :
  _check_is_max_context doc_spans cur_span_index position = true ->
  exists (k : nat) (sp : DocSpan.t),
    cur_span_index = Z.of_nat k /\ doc_spans !! k = Some sp /\ in_span sp position.
Proof.
  unfold _check_is_max_context. intros Hflag%bool_decide_eq_true.
  assert (Hinv : owner_so_far doc_spans position (best_span doc_spans position)).
  { apply (max_context_fold_owner doc_spans [] position (None, None)).
    left. by split. }
  destruct Hinv as [[_ Hbest]|(k & sp & Hk & Hin & Hbest & _)];
    rewrite Hbest in Hflag; cbn in Hflag; [done|].
  exists k, sp. split_and!; [congruence|done..].
Qed.

Lemma check_is_max_context_contains_witness :
  exists (k : nat) (sp : DocSpan.t),
    1 = Z.of_nat k /\ [DocSpan.mk 0 5; DocSpan.mk 2 5] !! k = Some sp /\ in_span sp 4.
Proof.
  exact (check_is_max_context_contains [DocSpan.mk 0 5; DocSpan.mk 2 5] 1 4 eq_refl).
Defined.

Lemma scan_starts_hit (doc_tokens : list pystr) (tok_answer_text : pystr) (s e : Z) :
  s <= e -> text_span doc_tokens s e = tok_answer_text ->
  scan_starts doc_tokens tok_answer_text e (range s (e + 1)) = Some (s, e).
Proof.
  intros Hse Hmatch. rewrite range_cons by lia. cbn [scan_starts].
  rewrite range_down_cons by lia. cbn [scan_ends].
  by rewrite bool_decide_eq_true_2.
Qed.

(** X5: projecting an answer span a second time changes nothing: the span
    returned by [_improve_answer_span] is returned again when it is given as
    the coarse span. *)
Theorem improve_answer_span_idempotent `{Tokenization} (doc_tokens : list pystr)
    (input_start input_end : Z) (orig_answer_text : pystr) :
  let result := _improve_answer_span doc_tokens input_start input_end orig_answer_text in
  _improve_answer_span doc_tokens result.1 result.2 orig_answer_text = result.
Proof.
  cbv zeta. unfold _improve_answer_span.
  pose proof (scan_starts_first doc_tokens (join space (tokenize orig_answer_text))
                input_end (Z.to_nat (input_end + 1 - input_start)) input_start
                (input_end + 1) eq_refl) as Hscan.
  destruct (scan_starts _ _ input_end _) as [[s e]|] eqn:Hfirst; cbn [fst snd].
  - destruct Hscan as (_ & Hse & Hmatch & _).
    by rewrite scan_starts_hit by (done || lia).
  - by rewrite Hfirst.
Qed.

(** ** Projection onto the original text, further *)

Lemma nonspace_positions_from_lookup (text : pystr) :
  forall a (k : nat) p,
    nonspace_positions_from a text !! k = Some p ->
    a <= p
    /\ exists c, text !! Z.to_nat (p - a) = Some c /\ stripped text !! k = Some c
                 /\ c <> 32%N.
Proof.
  induction text as [|c text IH]; intros a k p Hk; cbn in Hk; [done|].
  cbn [stripped List.filter]. destruct (N.eqb_spec c 32) as [->|Hc]; cbn [negb].
  - destruct (IH _ _ _ Hk) as (Hle & c' & Hc' & Hs & Hne). split; [lia|].
    exists c'. split_and!; try done.
    replace (Z.to_nat (p - a)) with (S (Z.to_nat (p - (a + 1)))) by lia. done.
  - destruct k as [|k]; cbn in Hk.
    + injection Hk as <-. split; [lia|]. exists c. rewrite Z.sub_diag. done.
    + destruct (IH _ _ _ Hk) as (Hle & c' & Hc' & Hs & Hne). split; [lia|].
      exists c'. split_and!; try done.
      replace (Z.to_nat (p - a)) with (S (Z.to_nat (p - (a + 1)))) by lia. done.
Qed.

Lemma nonspace_positions_from_increasing (text : pystr) :
  forall a (k k' : nat) p p',
    nonspace_positions_from a text !! k = Some p ->
    nonspace_positions_from a text !! k' = Some p' ->
    (k < k')%nat -> p < p'.
Proof.
  induction text as [|c text IH]; intros a k k' p p' Hk Hk' Hlt; cbn in Hk, Hk';
    [done|].
  destruct (c =? 32)%N; [by eapply IH|].
  destruct k' as [|k']; [lia|]. cbn in Hk'. destruct k as [|k]; cbn in Hk.
  - injection Hk as <-.
    assert (a + 1 <= p'); [|lia].
    eapply nonspace_positions_from_ge, list_elem_of_lookup_2, Hk'.
  - eapply IH; [done..|lia].
Qed.

Lemma nonspace_positions_from_elem (text : pystr) :
  forall a p c,
    a <= p -> text !! Z.to_nat (p - a) = Some c -> c <> 32%N ->
    p ∈ nonspace_positions_from a text.
Proof.
  induction text as [|c0 text IH]; intros a p c Hle Hc Hne; [done|]. cbn.
  destruct (decide (p = a)) as [->|Hpa].
  - rewrite Z.sub_diag in Hc. injection Hc as ->.
    destruct (N.eqb_spec c 32); [done|]. left.
  - replace (Z.to_nat (p - a)) with (S (Z.to_nat (p - (a + 1)))) in Hc by lia.
    cbn in Hc. assert (p ∈ nonspace_positions_from (a + 1) text)
      by (eapply IH; [lia|done..]).
    destruct (c0 =? 32)%N; [done|by right].
Qed.

Lemma od_get_enumerate (P : list Z) (k : Z) :
  od_get (enumerate P) k = if decide (0 <= k) then P !! Z.to_nat k else None.
Proof.
  unfold enumerate. rewrite od_get_enumerate_from. case_decide; [|done].
  by rewrite Z.sub_0_r.
Qed.

(** X6: [_strip_spaces] returns the text without its spaces together with a
    map that has exactly the keys [0 .. len(ns_text) - 1], is strictly
    increasing, and sends [k] to the index in the text of the [k]-th character
    of the stripped text: reading the text through the map gives the stripped
    text back. *)
Theorem strip_spaces_round_trip (text : pystr) :
  let ns_text := (_strip_spaces text).1 in
  let ns_to_s_map := (_strip_spaces text).2 in
  ns_text = stripped text
  /\ (forall k : Z, is_Some (od_get ns_to_s_map k) <-> 0 <= k < len ns_text)
  /\ (forall k i : Z, od_get ns_to_s_map k = Some i ->
        0 <= i < len text /\ py_index text i = py_index ns_text k)
  /\ (forall k k' i i' : Z,
        od_get ns_to_s_map k = Some i -> od_get ns_to_s_map k' = Some i' ->
        k < k' -> i < i').
Proof.
  cbv zeta. rewrite strip_spaces_positions. cbn [fst snd].
  assert (Hlen : length (nonspace_positions text) = length (stripped text))
    by apply nonspace_positions_from_length.
  split_and!; [done|..].
  - intros k. rewrite od_get_enumerate. case_decide.
    + rewrite lookup_lt_is_Some. unfold len. lia.
    + split; [by intros []|lia].
  - intros k i. rewrite od_get_enumerate. case_decide; [|done]. intros Hk.
    destruct (nonspace_positions_from_lookup _ _ _ _ Hk) as (Hi & c & Hc & Hs & _).
    rewrite Z.sub_0_r in Hc. split.
    + split; [done|]. apply lookup_lt_Some in Hc. unfold len. lia.
    + unfold py_index. destruct (Z.leb_spec 0 i); [|lia].
      destruct (Z.leb_spec 0 k); [|lia]. by rewrite Hc, Hs.
  - intros k k' i i'. rewrite !od_get_enumerate. repeat case_decide; try done.
    intros Hk Hk' Hlt.
    eapply (nonspace_positions_from_increasing text 0 (Z.to_nat k) (Z.to_nat k'));
      [done..|lia].
Qed.

Lemma substring_refl (text : pystr) : substring text text.
Proof. exists [], []. by rewrite app_nil_r. Qed.

Lemma py_slice_substring (text : pystr) (a b : Z) : substring (py_slice text a b) text.
Proof.
  unfold py_slice.
  exists (take (Z.to_nat (py_clamp (len text) a)) text),
    (drop (Z.to_nat (py_clamp (len text) b - py_clamp (len text) a))
       (drop (Z.to_nat (py_clamp (len text) a)) text)).
  by rewrite !take_drop.
Qed.

(** X7: whatever the prediction, [get_final_text] returns a contiguous piece
    of [orig_text] (possibly all of it): never the normalised prediction
    itself, nor any text that is not in the original. *)
Theorem get_final_text_within_original `{Tokenization} (pred_text orig_text : pystr)
    (do_lower_case : bool) :
  substring (get_final_text pred_text orig_text do_lower_case) orig_text.
Proof.
  rewrite get_final_text_positions. cbv zeta.
  repeat case_match; first [apply substring_refl | apply py_slice_substring].
Qed.

Lemma find_from_occurrence (pat text : pystr) :
  forall a r,
    find_from text pat a = r -> r <> -1 ->
    exists before after, text = before ++ pat ++ after /\ r = a + len before.
Proof.
  induction text as [|c text IH]; intros a r Hr Hne; cbn [find_from] in Hr.
  - destruct (starts_with pat []) eqn:Hstart; [|congruence].
    apply starts_with_prefix in Hstart as [after Heq].
    exists [], after. split; [done|]. unfold len. cbn. lia.
  - destruct (starts_with pat (c :: text)) eqn:Hstart.
    + apply starts_with_prefix in Hstart as [after Heq].
      exists [], after. split; [done|]. unfold len. cbn. lia.
    + destruct (IH _ _ Hr Hne) as (before & after & -> & ->).
      exists (c :: before), after. split; [done|]. unfold len. cbn. lia.
Qed.

Lemma py_slice_middle {A} (before mid after : list A) :
  py_slice (before ++ mid ++ after) (len before) (len before + len mid) = mid.
Proof.
  unfold py_slice, py_clamp. rewrite !len_app.
  pose proof (len_nonneg before). pose proof (len_nonneg mid).
  pose proof (len_nonneg after).
  destruct (Z.ltb_spec (len before) 0); [lia|].
  destruct (Z.ltb_spec (len before + len mid) 0); [lia|].
  rewrite !Z.min_l by lia.
  replace (Z.to_nat (len before)) with (length before) by (unfold len; lia).
  replace (Z.to_nat (len before + len mid - len before)) with (length mid)
    by (unfold len; lia).
  by rewrite drop_app_length, take_app_length.
Qed.

Lemma lookup_middle (before pat after : pystr) (j : nat) (c : N) :
  pat !! j = Some c ->
  (before ++ pat ++ after) !! Z.to_nat (len before + Z.of_nat j) = Some c.
Proof.
  intros Hj. replace (Z.to_nat (len before + Z.of_nat j)) with (length before + j)%nat
    by (unfold len; lia).
  rewrite lookup_app_r by lia. replace (length before + j - length before)%nat with j
    by lia. by apply lookup_app_l_Some.
Qed.

Section FinalTextEdges.
Context `{Tokenization}.
Variables (pred_text orig_text : pystr) (lower : bool).

(** The original text is returned unchanged as soon as the start or the end
    of the occurrence is not mapped. *)
Lemma get_final_text_unmapped :
  let tok_text := join space (basic_tokenize lower orig_text) in
  find tok_text pred_text ∉ nonspace_positions tok_text
  \/ find tok_text pred_text + len pred_text - 1 ∉ nonspace_positions tok_text ->
  get_final_text pred_text orig_text lower = orig_text.
Proof.
  intros tok_text Hout. rewrite get_final_text_positions. cbv zeta. fold tok_text.
  assert (Hnodup : NoDup (nonspace_positions tok_text))
    by apply nonspace_positions_from_NoDup.
  destruct (_ =? -1); [done|]. destruct (negb _); [done|].
  destruct Hout as [Hout|Hout].
  - by rewrite (proj1 (projected_position _ (nonspace_positions orig_text) _ Hnodup)).
  - rewrite (proj1 (projected_position _ (nonspace_positions orig_text)
                      (find tok_text pred_text + len pred_text - 1) Hnodup)) by done.
    by case_match.
Qed.

Lemma nonspace_positions_not_space (text : pystr) (p : Z) :
  p ∈ nonspace_positions text ->
  0 <= p /\ exists c, text !! Z.to_nat p = Some c /\ c <> 32%N.
Proof.
  intros [k Hk]%list_elem_of_lookup_1.
  destruct (nonspace_positions_from_lookup _ _ _ _ Hk) as (Hle & c & Hc & _ & Hne).
  rewrite Z.sub_0_r in Hc. eauto.
Qed.

End FinalTextEdges.

(** X8: a prediction that is empty, or that begins or ends with a space,
    cannot be aligned: [get_final_text] returns [orig_text] unchanged. *)
Theorem get_final_text_blank_edges `{Tokenization} (pred_text orig_text : pystr)
    (do_lower_case : bool) :
  pred_text = [] \/ head pred_text = Some 32%N \/ last pred_text = Some 32%N ->
  get_final_text pred_text orig_text do_lower_case = orig_text.
Proof.
  intros Hblank.
  set (tok_text := join space (basic_tokenize do_lower_case orig_text)).
  destruct (decide (find tok_text pred_text = -1)) as [Hmissing|Hfound].
  { rewrite get_final_text_positions. cbv zeta. fold tok_text. by rewrite Hmissing. }
  destruct (find_from_occurrence pred_text tok_text 0 _ eq_refl Hfound)
    as (before & after & Htok & Hstart).
  fold (find tok_text pred_text) in Hstart. rewrite Z.add_0_l in Hstart.
  apply get_final_text_unmapped. fold tok_text. rewrite Hstart.
  destruct Hblank as [->|[Hhead|Hlast]].
  - right. intros [Hneg _]%nonspace_positions_not_space.
    assert (Hzero : find tok_text [] = 0) by (unfold find; by destruct tok_text).
    rewrite Hzero in Hstart. unfold len in Hstart, Hneg. cbn [length] in Hneg. lia.
  - left. intros (_ & c & Hc & Hne)%nonspace_positions_not_space.
    destruct pred_text as [|c0 rest]; [done|]. injection Hhead as ->.
    rewrite Htok in Hc.
    pose proof (lookup_middle before (32%N :: rest) after 0 32%N eq_refl) as Hm.
    cbn [Z.of_nat] in Hm. rewrite Z.add_0_r in Hm. congruence.
  - right. intros (_ & c & Hc & Hne)%nonspace_positions_not_space.
    rewrite last_lookup in Hlast.
    assert (Hlen : (0 < length pred_text)%nat).
    { destruct pred_text; [done|cbn; lia]. }
    rewrite Htok in Hc.
    replace (len before + len pred_text - 1)
      with (len before + Z.of_nat (pred (length pred_text))) in Hc
      by (unfold len; lia).
    rewrite (lookup_middle before pred_text after _ _ Hlast) in Hc. congruence.
Qed.

Section FinalTextEdgesRun.
Existing Instance Toy.tokenization.

Lemma get_final_text_blank_edges_witness :
  get_final_text (str "smith ") (str "Steve Smith's") true = str "Steve Smith's".
Proof.
  exact (get_final_text_blank_edges (str "smith ") (str "Steve Smith's") true
           (or_intror (or_intror eq_refl))).
Defined.

End FinalTextEdgesRun.

(** X9: when re-tokenizing [orig_text] and joining with spaces gives
    [orig_text] back, a prediction that occurs in it and neither begins nor
    ends with a space is returned as it is. *)
Theorem get_final_text_round_trip `{Tokenization} (pred_text orig_text : pystr)
    (do_lower_case : bool) (first final : N) :
  join space (basic_tokenize do_lower_case orig_text) = orig_text ->
  substring pred_text orig_text ->
  head pred_text = Some first -> first <> 32%N ->
  last pred_text = Some final -> final <> 32%N ->
  get_final_text pred_text orig_text do_lower_case = pred_text.
Proof.
  intros Hsame Hsub Hhead Hfirst Hlast Hfinal.
  assert (Hfound : find orig_text pred_text <> -1).
  { intros Hmissing%find_missing. done. }
  destruct (find_from_occurrence pred_text orig_text 0 _ eq_refl Hfound)
    as (before & after & Horig & Hstart).
  fold (find orig_text pred_text) in Hstart. rewrite Z.add_0_l in Hstart.
  assert (Hnodup : NoDup (nonspace_positions orig_text))
    by apply nonspace_positions_from_NoDup.
  assert (Hlen : (0 < length pred_text)%nat).
  { destruct pred_text; [done|cbn; lia]. }
  assert (Hs : len before ∈ nonspace_positions orig_text).
  { apply (nonspace_positions_from_elem orig_text 0 _ first);
      [apply len_nonneg | | done].
    rewrite Z.sub_0_r.
    pose proof (lookup_middle before pred_text after 0 first) as Hm.
    cbn [Z.of_nat] in Hm. rewrite Z.add_0_r, <- Horig in Hm. apply Hm.
    by destruct pred_text. }
  assert (He : len before + len pred_text - 1 ∈ nonspace_positions orig_text).
  { apply (nonspace_positions_from_elem orig_text 0 _ final);
      [pose proof (len_nonneg before); unfold len in *; lia | | done].
    rewrite Z.sub_0_r.
    replace (len before + len pred_text - 1)
      with (len before + Z.of_nat (pred (length pred_text))) by (unfold len; lia).
    rewrite Horig at 1. apply lookup_middle. by rewrite <- last_lookup. }
  apply list_elem_of_lookup_1 in Hs as [ks Hks], He as [ke Hke].
  rewrite get_final_text_positions. cbv zeta. rewrite Hsame, Hstart.
  destruct (Z.eqb_spec (len before) (-1)) as [Hneg|_].
  { pose proof (len_nonneg before). lia. }
  rewrite Z.eqb_refl. cbn [negb].
  rewrite (proj2 (projected_position _ (nonspace_positions orig_text) _ Hnodup) ks Hks).
  rewrite (proj2 (projected_position _ (nonspace_positions orig_text) _ Hnodup) ke Hke).
  rewrite Hks, Hke.
  replace (len before + len pred_text - 1 + 1) with (len before + len pred_text)
    by lia.
  rewrite Horig at 1. apply py_slice_middle.
Qed.

Section FinalTextRoundTripRun.
Existing Instance Toy.tokenization.

Lemma get_final_text_round_trip_witness :
  get_final_text (str "Smith") (str "Steve Smith") false = str "Smith".
Proof.
  refine (get_final_text_round_trip (str "Smith") (str "Steve Smith") false
            83%N 104%N eq_refl _ eq_refl _ eq_refl _); try discriminate.
  by exists (str "Steve "), [].
Defined.

End FinalTextRoundTripRun.

(** ** Reading examples, further *)

Lemma append_to_last_snoc (init : list pystr) (word : pystr) (c : N) :
  append_to_last (init ++ [word]) c = Some (init ++ [word ++ [c]]).
Proof.
  unfold append_to_last. rewrite reverse_snoc. by rewrite reverse_involutive.
Qed.

Lemma nonempty_snoc {A} (l : list A) : l <> [] -> exists init x, l = init ++ [x].
Proof.
  intros Hl. destruct (reverse l) as [|x rest] eqn:Hrev.
  - apply (f_equal reverse) in Hrev. rewrite reverse_involutive in Hrev. done.
  - exists (reverse rest), x. apply (f_equal reverse) in Hrev.
    by rewrite reverse_involutive, reverse_cons in Hrev.
Qed.

Lemma grows_refl (doc : list pystr) : grows doc doc.
Proof. intros j word Hj. by exists word. Qed.

Lemma grows_trans (a b c : list pystr) : grows a b -> grows b c -> grows a c.
Proof.
  intros Hab Hbc j word Hj. destruct (Hab j word Hj) as (word' & Hj' & Hpre).
  destruct (Hbc j word' Hj') as (word'' & Hj'' & Hpre'').
  exists word''. split; [done|]. by etrans.
Qed.

Lemma grows_new_word (doc : list pystr) (word : pystr) : grows doc (doc ++ [word]).
Proof. intros j w Hj. exists w. split; [by apply lookup_app_l_Some|done]. Qed.

Lemma grows_last_word (init : list pystr) (word : pystr) (c : N) :
  grows (init ++ [word]) (init ++ [word ++ [c]]).
Proof.
  intros j w [[_ Hj]|[-> <-]]%lookup_snoc_Some.
  - exists w. split; [by apply lookup_app_l_Some|done].
  - exists (word ++ [c]). split; [|by apply prefix_app_r].
    by rewrite lookup_app_r, Nat.sub_diag.
Qed.

Lemma grows_length (a b : list pystr) : grows a b -> (length a <= length b)%nat.
Proof.
  intros Hab. destruct (decide (length a = 0)%nat) as [->|Hne]; [lia|].
  destruct (lookup_lt_is_Some_2 a (pred (length a))) as [word Hword]; [lia|].
  destruct (Hab _ _ Hword) as (word' & Hword' & _).
  apply lookup_lt_Some in Hword'. lia.
Qed.

(** What the passage loop keeps, from any point of the passage on. *)
Lemma split_words_invariant (text : pystr) :
  forall doc0 offsets0 prev doc_tokens char_to_word_offset,
    split_words text doc0 offsets0 prev = Some (doc_tokens, char_to_word_offset) ->
    (prev = false -> doc0 <> []) ->
    grows doc0 doc_tokens
    /\ (Forall is_word doc0 -> Forall is_word doc_tokens)
    /\ concat doc_tokens
       = concat doc0 ++ List.filter (fun c => negb (is_whitespace c)) text
    /\ exists offsets,
         char_to_word_offset = offsets0 ++ offsets
         /\ length offsets = length text
         /\ forall (i : nat) c, text !! i = Some c ->
              exists w, offsets !! i = Some w
                /\ len doc0 - 1 <= w < len doc_tokens
                /\ (is_whitespace c = false ->
                    0 <= w /\ exists word,
                      doc_tokens !! Z.to_nat w = Some word /\ c ∈ word).
Proof.
  induction text as [|c text IH];
    intros doc0 offsets0 prev doc_tokens offsets_out Hrun Hopen; cbn in Hrun.
  - injection Hrun as <- <-. split_and!; try done.
    + apply grows_refl.
    + by rewrite app_nil_r.
    + exists []. by rewrite app_nil_r.
  - cbn [List.filter]. destruct (is_whitespace c) eqn:Hc; cbn [negb].
    + destruct (IH _ _ _ _ _ Hrun) as (Hgrow & Hwords & Hconcat & offsets & -> & Hlen & Hat);
        [done|].
      split_and!; try done.
      exists ((len doc0 - 1) :: offsets). split_and!.
      * by rewrite <- app_assoc.
      * cbn. by rewrite Hlen.
      * intros [|i] c' Hi; cbn in Hi.
        -- injection Hi as <-. exists (len doc0 - 1). split_and!; try done; try lia.
           ++ apply grows_length in Hgrow. unfold len. lia.
           ++ congruence.
        -- apply Hat in Hi as (w & Hw & Hbound & Hword). exists w. cbn.
           split; [done|]. split; [lia|done].
    + assert (exists doc1,
        (if prev then Some (doc0 ++ [[c]]) else append_to_last doc0 c) = Some doc1
        /\ grows doc0 doc1 /\ (Forall is_word doc0 -> Forall is_word doc1)
        /\ concat doc1 = concat doc0 ++ [c]
        /\ (length doc0 <= length doc1)%nat /\ doc1 <> []
        /\ exists word, doc1 !! pred (length doc1) = Some word /\ c ∈ word)
        as (doc1 & Hdoc1 & Hgrow1 & Hwords1 & Hconcat1 & Hlen1 & Hne1 & word1 & Hlast1 & Hin1).
      { destruct prev.
        - exists (doc0 ++ [[c]]). split_and!; try done.
          + apply grows_new_word.
          + intros Hall. apply Forall_app. split; [done|]. repeat constructor; done.
          + rewrite concat_app. cbn. by rewrite ?app_nil_r.
          + rewrite length_app. lia.
          + by destruct doc0.
          + exists [c]. rewrite length_app. cbn.
            replace (pred (length doc0 + 1)) with (length doc0) by lia.
            rewrite lookup_app_r, Nat.sub_diag by lia. split; [done|]. left.
        - destruct (nonempty_snoc doc0 (Hopen eq_refl)) as (init & word & ->).
          exists (init ++ [word ++ [c]]). rewrite append_to_last_snoc.
          split_and!; try done.
          + apply grows_last_word.
          + intros [Hinit Hword]%Forall_app. apply Forall_app. split; [done|].
            apply Forall_singleton. apply Forall_singleton in Hword as [_ Hchars].
            split; [by destruct word|]. apply Forall_app. split; [done|].
            by constructor.
          + rewrite !concat_app. cbn. by rewrite ?app_nil_r, <- ?app_assoc.
          + rewrite !length_app. cbn. lia.
          + by destruct init.
          + exists (word ++ [c]). rewrite length_app. cbn.
            replace (pred (length init + 1)) with (length init) by lia.
            rewrite lookup_app_r, Nat.sub_diag by lia. split; [done|].
            apply elem_of_app. right. left. }
      rewrite Hdoc1 in Hrun. cbn in Hrun.
      destruct (IH _ _ _ _ _ Hrun) as (Hgrow & Hwords & Hconcat & offsets & -> & Hlen & Hat);
        [done|].
      split_and!.
      * by eapply grows_trans.
      * intros Hall. by apply Hwords, Hwords1.
      * rewrite Hconcat, Hconcat1. by rewrite <- app_assoc.
      * exists ((len doc1 - 1) :: offsets). split_and!.
        -- by rewrite <- app_assoc.
        -- cbn. by rewrite Hlen.
        -- assert (Hpos : (0 < length doc1)%nat) by (destruct doc1; [done|cbn; lia]).
           pose proof (grows_length _ _ Hgrow) as Hlen2.
           intros [|i] c' Hi; cbn in Hi.
           ++ injection Hi as <-. exists (len doc1 - 1).
              split_and!; try done; try (unfold len; lia).
              intros _. split; [unfold len; lia|].
              replace (Z.to_nat (len doc1 - 1)) with (pred (length doc1))
                by (unfold len; lia).
              destruct (Hgrow _ _ Hlast1) as (word & Hword & Hpre).
              exists word. split; [done|].
              destruct Hpre as [rest ->]. apply elem_of_app. by left.
           ++ apply Hat in Hi as (w & Hw & Hbound & Hword). exists w. cbn.
              split; [done|]. split; [unfold len in *; lia|done].
Qed.

(** X10: the reader splits a passage into words that are non-empty and free
    of whitespace, and loses nothing but whitespace: the words put end to end
    are the passage without its whitespace characters. *)
Theorem split_words_words (text : pystr) (doc_tokens : list pystr)
    (char_to_word_offset : list Z) :
  split_words text [] [] true = Some (doc_tokens, char_to_word_offset) ->
  Forall is_word doc_tokens
  /\ concat doc_tokens = List.filter (fun c => negb (is_whitespace c)) text.
Proof.
  intros Hrun.
  destruct (split_words_invariant _ _ _ _ _ _ Hrun) as (_ & Hwords & Hconcat & _);
    [done|].
  split; [by apply Hwords|done].
Qed.

Lemma split_words_words_witness :
  Forall is_word [str "the"; str "cat"; str "sat"]
  /\ concat [str "the"; str "cat"; str "sat"]
     = List.filter (fun c => negb (is_whitespace c)) (str "the cat sat").
Proof.
  exact (split_words_words (str "the cat sat") [str "the"; str "cat"; str "sat"]
           [0; 0; 0; 0; 1; 1; 1; 1; 2; 2; 2] eq_refl).
Defined.

(** X11: the char-to-word map has one entry per character of the passage;
    every entry is between [-1] and the index of the last word, and the entry
    of a character that is not whitespace is the index of a word that
    contains that character. *)
Theorem split_words_offsets (text : pystr) (doc_tokens : list pystr)
    (char_to_word_offset : list Z) :
  split_words text [] [] true = Some (doc_tokens, char_to_word_offset) ->
  length char_to_word_offset = length text
  /\ forall (i : nat) c, text !! i = Some c ->
       exists w, char_to_word_offset !! i = Some w
         /\ -1 <= w < len doc_tokens
         /\ (is_whitespace c = false ->
             0 <= w /\ exists word, doc_tokens !! Z.to_nat w = Some word /\ c ∈ word).
Proof.
  intros Hrun.
  destruct (split_words_invariant _ _ _ _ _ _ Hrun)
    as (_ & _ & _ & offsets & -> & Hlen & Hat); [done|].
  split; [done|]. intros i c Hi.
  destruct (Hat i c Hi) as (w & Hw & Hbound & Hword).
  exists w. split; [done|]. split; [|done]. unfold len in *. cbn in Hbound. lia.
Qed.

Lemma split_words_offsets_witness :
  length [0; 0; 0; 0; 1; 1; 1; 1; 2; 2; 2] = length (str "the cat sat")
  /\ forall (i : nat) c, str "the cat sat" !! i = Some c ->
       exists w, [0; 0; 0; 0; 1; 1; 1; 1; 2; 2; 2] !! i = Some w
         /\ -1 <= w < len [str "the"; str "cat"; str "sat"]
         /\ (is_whitespace c = false ->
             0 <= w /\ exists word,
               [str "the"; str "cat"; str "sat"] !! Z.to_nat w = Some word /\ c ∈ word).
Proof.
  exact (split_words_offsets (str "the cat sat") [str "the"; str "cat"; str "sat"]
           [0; 0; 0; 0; 1; 1; 1; 1; 2; 2; 2] eq_refl).
Defined.

Section ReaderModes.
Context `{Tokenization}.

Lemma read_qas_predict (version_2_with_negative : bool) (doc_tokens : list pystr)
    (char_to_word_offset : list Z) (qas : list QA.t) :
  forall examples,
    read_qas false version_2_with_negative doc_tokens char_to_word_offset qas examples
    = Some (examples
            ++ List.map (fun qa => ReCoRDExample.mk (QA.id qa) (replace_nbsp (QA.query qa))
                                     doc_tokens None None None false) qas).
Proof.
  induction qas as [|qa qas IH]; intros examples; cbn.
  - by rewrite app_nil_r.
  - rewrite IH. by rewrite <- app_assoc.
Qed.

Lemma read_entries_predict (version_2_with_negative : bool) (input_data : list Entry.t) :
  forall examples,
    read_entries false version_2_with_negative input_data examples
    = Some (examples
            ++ flat_map
                 (fun entry =>
                    List.map (fun qa =>
                                ReCoRDExample.mk (QA.id qa) (replace_nbsp (QA.query qa))
                                  (passage_words (Entry.passage_text entry))
                                  None None None false)
                      (Entry.qas entry))
                 input_data).
Proof.
  induction input_data as [|entry input_data IH]; intros examples; cbn.
  - by rewrite app_nil_r.
  - unfold passage_words.
    destruct (split_words_total (replace_nbsp (Entry.passage_text entry)) [] [] true)
      as [[doc_tokens offsets] Hwords]; [done|].
    rewrite Hwords. cbn. rewrite read_qas_predict. cbn. rewrite IH.
    by rewrite <- app_assoc.
Qed.

Lemma read_qa_trusted (version_2_with_negative : bool) (doc_tokens : list pystr)
    (char_to_word_offset : list Z) (qa : QA.t) (example : ReCoRDExample.t) :
  read_qa true version_2_with_negative doc_tokens char_to_word_offset qa
  = Some (Some example) ->
  trusted_label example.
Proof.
  unfold read_qa. intros Hqa.
  destruct (if version_2_with_negative then QA.is_impossible qa else false) eqn:Himp;
    cbn [negb] in Hqa.
  - injection Hqa as <-. unfold trusted_label. cbn. done.
  - destruct (py_index (QA.answers qa) 0) as [answer|]; [|done]. cbn in Hqa.
    destruct (py_index char_to_word_offset (Answer.start answer)) as [sp|]; [|done].
    cbn in Hqa.
    destruct (py_index char_to_word_offset _) as [ep|]; [|done]. cbn in Hqa.
    destruct (Z.eqb_spec (find (join space (py_slice doc_tokens sp (ep + 1)))
                            (join space (whitespace_tokenize (Answer.text answer))))
                (-1)) as [|Hfound]; [done|].
    injection Hqa as <-. unfold trusted_label. cbn.
    exists (Answer.text answer), sp, ep. split_and!; try done.
    destruct (find_from_occurrence _ _ 0 _ eq_refl Hfound) as (before & after & Heq & _).
    by exists before, after.
Qed.

Lemma read_qas_trusted (version_2_with_negative : bool) (doc_tokens : list pystr)
    (char_to_word_offset : list Z) (qas : list QA.t) :
  forall examples out,
    read_qas true version_2_with_negative doc_tokens char_to_word_offset qas examples
    = Some out ->
    Forall trusted_label examples -> Forall trusted_label out.
Proof.
  induction qas as [|qa qas IH]; intros examples out Hout Hall;
    cbn [read_qas] in Hout.
  - by injection Hout as <-.
  - destruct (read_qa _ _ _ _ _) as [[example|]|] eqn:Hqa;
      cbn [mbind option_bind] in Hout; [| |done].
    + eapply IH; [done|]. apply Forall_app. split; [done|].
      apply Forall_singleton. by eapply read_qa_trusted.
    + by eapply IH.
Qed.

Lemma read_entries_trusted (version_2_with_negative : bool) (input_data : list Entry.t) :
  forall examples out,
    read_entries true version_2_with_negative input_data examples = Some out ->
    Forall trusted_label examples -> Forall trusted_label out.
Proof.
  induction input_data as [|entry input_data IH]; intros examples out Hout Hall;
    cbn [read_entries] in Hout.
  - by injection Hout as <-.
  - destruct (split_words _ _ _ _) as [[doc_tokens offsets]|]; [|done].
    cbn [mbind option_bind] in Hout.
    destruct (read_qas _ _ _ _ _ _) as [examples'|] eqn:Hqas; [|done].
    cbn [mbind option_bind] in Hout.
    eapply IH; [done|]. by eapply read_qas_trusted.
Qed.

End ReaderModes.

(** X12: reading for prediction never raises and keeps every question: the
    examples are the questions of the input in order, each with its id, its
    question text, the words of its passage, and no answer, span or
    impossibility flag. *)
Theorem read_record_examples_predict `{Tokenization} (input_data : list Entry.t)
    (version_2_with_negative : bool) :
  read_record_examples input_data false version_2_with_negative
  = Some (flat_map
            (fun entry =>
               List.map (fun qa =>
                           ReCoRDExample.mk (QA.id qa) (replace_nbsp (QA.query qa))
                             (passage_words (Entry.passage_text entry))
                             None None None false)
                 (Entry.qas entry))
            input_data).
Proof. unfold read_record_examples. by rewrite read_entries_predict. Qed.

(** X13: every example read for training carries a label that can be
    trusted: an impossible question has the empty answer and the span
    [(-1, -1)]; any other example has an answer whose whitespace-normalized
    text occurs in the space-joined words of its span. *)
Theorem read_record_examples_trusted `{Tokenization} (input_data : list Entry.t)
    (version_2_with_negative : bool) (examples : list ReCoRDExample.t) :
  read_record_examples input_data true version_2_with_negative = Some examples ->
  Forall trusted_label examples.
Proof. intros Hread. by eapply read_entries_trusted. Qed.

Section ReaderModesRun.
Existing Instance Toy.tokenization.

Lemma read_record_examples_trusted_witness :
  Forall trusted_label
    [ReCoRDExample.mk (str "q1") (str "who") [str "the"; str "cat"; str "sat"]
       (Some (str "cat")) (Some 1) (Some 1) false].
Proof.
  exact (read_record_examples_trusted
           [Entry.mk (str "the cat sat")
              [QA.mk (str "q1") (str "who") [Answer.mk (str "cat") 4] false;
               QA.mk (str "q2") (str "who sat") [Answer.mk (str "dog") 4] false]]
           false _ eq_refl).
Defined.

End ReaderModesRun.

(** ** Batching, further *)

Lemma token_count_snoc (batch : list BatchRow) (row : BatchRow) :
  token_count (batch ++ [row]) = token_count batch + len (row_input_ids row).
Proof.
  induction batch as [|r batch IH]; cbn.
  - lia.
  - fold (token_count (batch ++ [row])). fold (token_count batch). rewrite IH. lia.
Qed.

Lemma batch_reader_from_totals (features : gen InputFeatures.t) (batch_size : Z)
    (in_tokens : bool) :
  forall batch total_token_num max_len,
    total_token_num = token_count batch ->
    Forall (fun yielded => yielded.2 = token_count yielded.1)
      (emitted (batch_reader_from features batch_size in_tokens batch total_token_num
                  max_len)).
Proof.
  induction features as [feature features IH|o]; intros batch total max_len Htotal.
  - cbn [batch_reader_from]. cbn zeta. destruct (if in_tokens then _ else _).
    + apply IH. rewrite token_count_snoc. cbn. by subst total.
    + cbn [emitted]. constructor; [done|]. apply IH. cbn. lia.
  - destruct o; cbn; [|constructor..].
    destruct batch; cbn; [constructor|]. by repeat constructor.
Qed.

Lemma batch_reader_from_ending (features : gen InputFeatures.t) (batch_size : Z)
    (in_tokens : bool) :
  forall batch total_token_num max_len,
    ending (batch_reader_from features batch_size in_tokens batch total_token_num max_len)
    = ending features.
Proof.
  induction features as [feature features IH|o]; intros batch total max_len.
  - cbn [batch_reader_from]. cbn zeta. destruct (if in_tokens then _ else _); cbn;
      apply IH.
  - destruct o; [|done..]. by destruct batch.
Qed.

Lemma batch_reader_from_prefix (features : gen InputFeatures.t) (batch_size : Z)
    (in_tokens : bool) :
  forall batch total_token_num max_len,
    concat (List.map fst
              (emitted (batch_reader_from features batch_size in_tokens batch
                          total_token_num max_len)))
    `prefix_of` batch ++ List.map row_of_feature (emitted features)
    /\ (ending features = Done ->
        concat (List.map fst
                  (emitted (batch_reader_from features batch_size in_tokens batch
                              total_token_num max_len)))
        = batch ++ List.map row_of_feature (emitted features)).
Proof.
  induction features as [feature features IH|o]; intros batch total max_len.
  - cbn [batch_reader_from]. cbn zeta. cbn [emitted List.map ending].
    destruct (if in_tokens then _ else _).
    + replace (batch ++ row_of_feature feature
                      :: List.map row_of_feature (emitted features))
        with ((batch ++ [row_of_feature feature])
              ++ List.map row_of_feature (emitted features))
        by (by rewrite <- app_assoc).
      apply IH.
    + cbn [emitted List.map concat fst].
      destruct (IH [row_of_feature feature] (len (InputFeatures.input_ids feature))
                  (len (InputFeatures.input_ids feature))) as [Hpre Heq].
      split.
      * by apply prefix_app.
      * intros Hdone. by rewrite (Heq Hdone).
  - cbn [emitted List.map ending]. rewrite app_nil_r. destruct o; cbn.
    + destruct batch; cbn; by rewrite ?app_nil_r.
    + split; [apply prefix_nil|done].
    + split; [apply prefix_nil|done].
Qed.

(** X14: in both modes, the token count yielded with a batch is the sum of
    the sequence lengths of its rows. *)
Theorem batch_reader_totals (features : gen InputFeatures.t) (batch_size : Z)
    (in_tokens : bool) :
  Forall (fun yielded => yielded.2 = token_count yielded.1)
    (emitted (batch_reader features batch_size in_tokens)).
Proof. by apply batch_reader_from_totals. Qed.

(** X15: in both modes the batch generator ends the way the feature generator
    ends, and the rows it has yielded are, in order, a prefix of the rows of
    the features, and all of them when the features finish. *)
Theorem batch_reader_outcome (features : gen InputFeatures.t) (batch_size : Z)
    (in_tokens : bool) :
  let batches := batch_reader features batch_size in_tokens in
  ending batches = ending features
  /\ concat (List.map fst (emitted batches))
     `prefix_of` List.map row_of_feature (emitted features)
  /\ (ending features = Done ->
      concat (List.map fst (emitted batches))
      = List.map row_of_feature (emitted features)).
Proof.
  cbv zeta. unfold batch_reader.
  destruct (batch_reader_from_prefix features batch_size in_tokens [] 0 0) as [Hpre Heq].
  split_and!; try done. apply batch_reader_from_ending.
Qed.

Lemma batch_reader_from_count (features : gen InputFeatures.t) (batch_size : Z) :
  1 <= batch_size ->
  forall batch total_token_num max_len,
    len batch <= batch_size ->
    forall (i : nat) rows total,
      emitted (batch_reader_from features batch_size false batch total_token_num max_len)
        !! i = Some (rows, total) ->
      1 <= len rows <= batch_size
      /\ ((S i < length (emitted (batch_reader_from features batch_size false batch
                                    total_token_num max_len)))%nat ->
          len rows = batch_size).
Proof.
  intros Hsize.
  induction features as [feature features IH|o];
    intros batch total_token_num max_len Hbatch i rows total Hi.
  - cbn [batch_reader_from] in *. cbn zeta in *.
    destruct (Z.ltb_spec (len batch) batch_size) as [Hroom|Hfull].
    + assert (Hlen : len (batch ++ [row_of_feature feature]) <= batch_size).
      { rewrite len_app. unfold len at 2. cbn. lia. }
      exact (IH _ _ _ Hlen i rows total Hi).
    + cbn [emitted] in *. destruct i as [|i]; cbn in Hi.
      * injection Hi as <- <-. split; lia.
      * destruct (IH [row_of_feature feature] _ _ ltac:(unfold len; cbn; lia)
                    i rows total Hi) as [Hrows Hmore].
        split; [done|]. intros Hlt. apply Hmore. cbn in Hlt. lia.
  - destruct o; cbn in Hi; [|done..]. destruct batch as [|row batch]; [done|].
    destruct i as [|i]; [|done]. cbn in Hi. injection Hi as <- <-.
    split; [|cbn; lia]. unfold len in *. cbn in *. lia.
Qed.

(** X16: in count mode with [batch_size >= 1], every yielded batch holds
    between one and [batch_size] rows, and every batch but the last holds
    exactly [batch_size]. *)
Theorem batch_reader_count_bounded (features : gen InputFeatures.t) (batch_size : Z)
    (i : nat) (rows : list BatchRow) (total_token_num : Z) :
  1 <= batch_size ->
  emitted (batch_reader features batch_size false) !! i = Some (rows, total_token_num) ->
  1 <= len rows <= batch_size
  /\ ((S i < length (emitted (batch_reader features batch_size false)))%nat ->
      len rows = batch_size).
Proof.
  intros Hsize Hi.
  assert (Hempty : len (@nil BatchRow) <= batch_size) by (unfold len; cbn; lia).
  exact (batch_reader_from_count features batch_size Hsize [] 0 0 Hempty i rows
           total_token_num Hi).
Qed.

Lemma batch_reader_count_bounded_witness :
  let f1 := Toy.feature_of_length 1 4 in
  let f2 := Toy.feature_of_length 2 4 in
  let f3 := Toy.feature_of_length 3 3 in
  1 <= len [row_of_feature f1; row_of_feature f2] <= 2
  /\ ((1 < length (emitted (batch_reader (gen_of_list [f1; f2; f3]) 2 false)))%nat ->
      len [row_of_feature f1; row_of_feature f2] = 2).
Proof.
  exact (batch_reader_count_bounded
           (gen_of_list [Toy.feature_of_length 1 4; Toy.feature_of_length 2 4;
                         Toy.feature_of_length 3 3])
           2 0 _ 8 ltac:(lia) eq_refl).
Defined.

Lemma batch_reader_from_fitting (features : gen InputFeatures.t) (batch_size : Z) :
  Forall (fun f => len (InputFeatures.input_ids f) <= batch_size) (emitted features) ->
  forall batch total_token_num max_len,
    max_len = max_seq_len batch ->
    (batch <> [] -> len batch * max_len <= batch_size) ->
    Forall (fun yielded =>
              yielded.1 <> [] /\ len yielded.1 * max_seq_len yielded.1 <= batch_size)
      (emitted (batch_reader_from features batch_size true batch total_token_num
                  max_len)).
Proof.
  induction features as [feature features IH|o];
    intros Hfit batch total max_len Hmax Hbudget.
  - cbn [emitted] in Hfit. apply Forall_cons in Hfit as [Hf Hfit].
    pose proof (len_nonneg (InputFeatures.input_ids feature)) as Hseq.
    cbn [batch_reader_from]. cbn zeta.
    destruct (Z.leb_spec ((len batch + 1)
                          * Z.max max_len (len (InputFeatures.input_ids feature)))
                batch_size) as [Hle|Hgt].
    + apply IH; [done| |].
      * rewrite max_seq_len_snoc. by subst max_len.
      * intros _. rewrite len_app. unfold len at 2. cbn [length Z.of_nat]. lia.
    + assert (Hne : batch <> []).
      { intros ->. subst max_len. unfold len in Hgt at 1. cbn in Hgt. lia. }
      cbn [emitted]. constructor.
      * cbn [fst]. split; [done|]. subst max_len. by apply Hbudget.
      * apply IH; [done| |].
        -- cbn. lia.
        -- intros _. unfold len at 1. cbn [length Z.of_nat]. lia.
  - destruct o; cbn; [|constructor..].
    destruct batch as [|row batch]; cbn; [constructor|].
    repeat constructor; [done|]. subst max_len. by apply Hbudget.
Qed.

(** X17: in token-budget mode, when every feature alone fits the budget
    (its sequence length is at most [batch_size]), no yielded batch is empty
    and each one fits the budget: its number of rows times its longest
    sequence is at most [batch_size]. *)
Theorem batch_reader_fitting (features : gen InputFeatures.t) (batch_size : Z) :
  Forall (fun f => len (InputFeatures.input_ids f) <= batch_size) (emitted features) ->
  Forall (fun yielded =>
            yielded.1 <> [] /\ len yielded.1 * max_seq_len yielded.1 <= batch_size)
    (emitted (batch_reader features batch_size true)).
Proof.
  intros Hfit. by apply batch_reader_from_fitting.
Qed.

Lemma batch_reader_fitting_witness :
  Forall (fun yielded =>
            yielded.1 <> [] /\ len yielded.1 * max_seq_len yielded.1 <= 10)
    (emitted (batch_reader
                (gen_of_list [Toy.feature_of_length 1 4; Toy.feature_of_length 2 4;
                              Toy.feature_of_length 3 3]) 10 true)).
Proof.
  apply (batch_reader_fitting
           (gen_of_list [Toy.feature_of_length 1 4; Toy.feature_of_length 2 4;
                         Toy.feature_of_length 3 3]) 10).
  repeat constructor; by vm_compute.
Defined.

(** ** The epoch wrapper, further *)

Section WrapperRuns.
Context `{Tokenization} `{Converter} {B : Type} `{Batching B}.
Variable self : DataProcessor.

Lemma dev_batches_one (batches : gen (list BatchRow * Z)) (next : gen B) :
  emitted (dev_batches self 1 batches [] next)
  = prepared_batches self (emitted batches)
    ++ match ending batches with Done => emitted next | _ => [] end.
Proof.
  rewrite (dev_batches_buffered self 1 next ltac:(lia) batches []) by (cbn; lia).
  cbn [app]. replace (Z.to_nat 1) with 1%nat by lia.
  rewrite Nat.div_1_r, Nat.mul_1_l. by rewrite take_ge.
Qed.

Lemma wrapper_from_one (epochs : list Z) (examples : list ReCoRDExample.t)
    (is_training : bool) (batch_size : Z) :
  ending (get_features self examples is_training) = Done ->
  emitted (wrapper_from self epochs examples is_training batch_size false 1)
  = concat (replicate (length epochs)
              (prepared_batches self
                 (emitted (batch_reader (get_features self examples is_training)
                             batch_size (_in_tokens self))))).
Proof.
  intros Hdone. induction epochs as [|epoch_index epochs IH]; [done|].
  cbn [wrapper_from length replicate concat]. rewrite dev_batches_one.
  unfold batch_reader at 2. rewrite batch_reader_from_ending, Hdone. by rewrite IH.
Qed.

Lemma wrapper_from_nonpositive (dev_count : Z) (epochs : list Z) (is_training : bool)
    (batch_size : Z) (shuffle : bool) :
  dev_count <= 0 ->
  forall examples,
    emitted (wrapper_from self epochs examples is_training batch_size shuffle dev_count)
    = [].
Proof.
  intros Hle. induction epochs as [|epoch_index epochs IH]; intros examples; [done|].
  cbn [wrapper_from]. rewrite dev_batches_nonpositive by done.
  destruct (ending _); [apply IH|done..].
Qed.

End WrapperRuns.

(** X18: with [dev_count = 1] and no shuffling, when the feature conversion
    finishes, the wrapper releases every prepared batch: what it yields is, epoch
    after epoch, the same sequence of all the batches of the features. *)
Theorem wrapper_releases_every_batch `{Tokenization} `{Converter} {B : Type}
    `{Batching B} (self : DataProcessor) (epochs : list Z)
    (examples : list ReCoRDExample.t) (is_training : bool) (batch_size : Z) :
  ending (get_features self examples is_training) = Done ->
  emitted (wrapper_from self epochs examples is_training batch_size false 1)
  = concat (replicate (length epochs)
              (prepared_batches self
                 (emitted (batch_reader (get_features self examples is_training)
                             batch_size (_in_tokens self))))).
Proof. apply wrapper_from_one. Qed.

(** X19: with [dev_count <= 0] the wrapper never yields a batch, whatever the
    data, the number of epochs and the batch size. *)
Theorem wrapper_yields_nothing `{Tokenization} `{Converter} {B : Type} `{Batching B}
    (self : DataProcessor) (dev_count : Z) (epochs : list Z)
    (examples : list ReCoRDExample.t) (is_training : bool) (batch_size : Z)
    (shuffle : bool) :
  dev_count <= 0 ->
  emitted (wrapper_from self epochs examples is_training batch_size shuffle dev_count)
  = [].
Proof. intros Hle. by apply wrapper_from_nonpositive. Qed.

Section WrapperRunsToy.
Existing Instances Toy.tokenization Toy.converter Toy.batching.

Lemma wrapper_releases_every_batch_witness :
  emitted (wrapper_from Toy.processor [0; 1] [Toy.example] false 12 false 1)
  = concat (replicate 2
              (prepared_batches Toy.processor
                 (emitted (batch_reader (get_features Toy.processor [Toy.example] false)
                             12 true)))).
Proof.
  exact (wrapper_releases_every_batch Toy.processor [0; 1] [Toy.example] false 12
           eq_refl).
Defined.

Lemma wrapper_yields_nothing_witness :
  emitted (wrapper_from Toy.processor [0; 1] [Toy.example] false 12 false 0) = [].
Proof.
  exact (wrapper_yields_nothing Toy.processor 0 [0; 1] [Toy.example] false 12 false
           ltac:(lia)).
Defined.

End WrapperRunsToy.

(** ** Feature conversion, further *)

Lemma enumerate_from_elem {A} (l : list A) :
  forall (a idx : Z) (x : A),
    (idx, x) ∈ enumerate_from a l ->
    exists k : nat, idx = a + Z.of_nat k /\ l !! k = Some x.
Proof.
  induction l as [|y l IH]; intros a idx x Hin; cbn in Hin.
  - by apply elem_of_nil in Hin.
  - apply elem_of_cons in Hin as [[= -> ->]|Hin].
    + exists 0%nat. split; [lia|done].
    + apply IH in Hin as (k & -> & Hk). exists (S k). split; [lia|done].
Qed.

Section Provenance.
Context `{Tokenization} `{Converter}.

(** Every feature the generator yields was built by the loop body for a span
    of the chunking of one of the examples. *)
Lemma convert_spans_provenance p example is_training doc_spans example_index spans f :
  forall unique_id next,
    f ∈ emitted (convert_spans p example is_training doc_spans example_index spans
                   unique_id next) ->
    (exists doc_span_index doc_span unique_id',
        (doc_span_index, doc_span) ∈ spans
        /\ feature_of_span p example is_training doc_spans unique_id' example_index
             doc_span_index doc_span = Some (Some f))
    \/ exists u, f ∈ emitted (next u).
Proof.
  induction spans as [|[doc_span_index doc_span] spans IH]; intros unique_id next Hf.
  - right. by exists unique_id.
  - cbn [convert_spans] in Hf.
    destruct (feature_of_span _ _ _ _ _ _ _ _) as [[f0|]|] eqn:Hbody; cbn in Hf.
    + apply elem_of_cons in Hf as [->|Hf].
      * left. exists doc_span_index, doc_span, unique_id. split; [left|done].
      * apply IH in Hf as [(idx & sp & u & Hin & Hsp)|Hnext]; [left|by right].
        exists idx, sp, u. split; [by right|done].
    + apply IH in Hf as [(idx & sp & u & Hin & Hsp)|Hnext]; [left|by right].
      exists idx, sp, u. split; [by right|done].
    + by apply elem_of_nil in Hf.
Qed.

Lemma convert_examples_provenance examples max_seq_length doc_stride max_query_length
    is_training f :
  forall unique_id,
    f ∈ emitted (convert_examples examples max_seq_length doc_stride max_query_length
                   is_training unique_id) ->
    exists example_index example p spans (k : nat) doc_span unique_id',
      (example_index, example) ∈ examples
      /\ prepare example max_query_length is_training = Some p
      /\ doc_spans (length (p_all_doc_tokens p)) (len (p_all_doc_tokens p))
           (max_seq_length - len (p_query_tokens p) - 3) doc_stride = Some spans
      /\ spans !! k = Some doc_span
      /\ feature_of_span p example is_training spans unique_id' example_index
           (Z.of_nat k) doc_span = Some (Some f).
Proof.
  induction examples as [|[example_index example] examples IH]; intros unique_id Hf.
  - by apply elem_of_nil in Hf.
  - cbn [convert_examples] in Hf.
    destruct (prepare example max_query_length is_training) as [p|] eqn:Hp;
      [|by apply elem_of_nil in Hf].
    destruct (doc_spans _ _ _ _) as [spans|] eqn:Hspans; [|by apply elem_of_nil in Hf].
    apply convert_spans_provenance in Hf as [(idx & sp & u & Hin & Hsp)|[u Hnext]].
    + apply enumerate_from_elem in Hin as (k & -> & Hk).
      exists example_index, example, p, spans, k, sp, u.
      split_and!; try done. left.
    + apply IH in Hnext as (exi & ex & p' & spans' & k & sp & u' & Hin & Hrest).
      exists exi, ex, p', spans', k, sp, u'. split; [by right|done].
Qed.

End Provenance.

Lemma range_length (a b : Z) : length (range a b) = Z.to_nat (b - a).
Proof. unfold range. by rewrite length_map, length_seq. Qed.

Lemma range_lookup (a b : Z) (i : nat) :
  (i < Z.to_nat (b - a))%nat -> range a b !! i = Some (a + Z.of_nat i).
Proof.
  intros Hi. unfold range. change List.map with (@fmap list _) at 1.
  rewrite list_lookup_fmap, lookup_seq_lt by done. done.
Qed.

Lemma replicate_snoc_cons {A} (n : nat) (x : A) (l : list A) :
  replicate n x ++ x :: l = x :: replicate n x ++ l.
Proof. induction n as [|n IH]; cbn; [done|]. by rewrite IH. Qed.

Lemma query_fold_layout (rows : list (pystr * list Z * list Z)) :
  forall d,
    let d' := fold_left (fun d '(token, query_wn_concept, query_nell_concept) =>
                           draft_append d token 0 query_wn_concept query_nell_concept)
                rows d in
    d_tokens d' = d_tokens d ++ List.map (fun row => row.1.1) rows
    /\ d_segment_ids d' = d_segment_ids d ++ replicate (length rows) 0
    /\ d_wn_concept_ids d' = d_wn_concept_ids d ++ List.map (fun row => row.1.2) rows
    /\ d_nell_concept_ids d' = d_nell_concept_ids d ++ List.map (fun row => row.2) rows
    /\ d_token_to_orig_map d' = d_token_to_orig_map d
    /\ d_token_is_max_context d' = d_token_is_max_context d.
Proof.
  induction rows as [|[[token wn] nell] rows IH]; intros d; cbn zeta.
  - cbn. by rewrite !app_nil_r.
  - cbn [fold_left]. destruct (IH (draft_append d token 0 wn nell))
      as (Ht & Hs & Hw & Hn & Hm & Hc).
    rewrite Ht, Hs, Hw, Hn, Hm, Hc. cbn. by rewrite <- !app_assoc.
Qed.

Section DraftLayout.
Variables (p : Prepared) (doc_spans : list DocSpan.t) (doc_span_index : Z)
          (doc_span : DocSpan.t).

Lemma add_doc_tokens_layout (positions : list Z) :
  forall d d',
    add_doc_tokens p doc_spans doc_span_index doc_span positions d = Some d' ->
    exists slice,
      d_tokens d' = d_tokens d ++ slice
      /\ length slice = length positions
      /\ d_segment_ids d' = d_segment_ids d ++ replicate (length positions) 1
      /\ length (d_wn_concept_ids d')
         = (length (d_wn_concept_ids d) + length positions)%nat
      /\ length (d_nell_concept_ids d')
         = (length (d_nell_concept_ids d) + length positions)%nat
      /\ (forall (i : nat) pos, positions !! i = Some pos ->
            exists token orig_index,
              slice !! i = Some token
              /\ py_index (p_all_doc_tokens p) (DocSpan.start doc_span + pos) = Some token
              /\ py_index (p_tok_to_orig_index p) (DocSpan.start doc_span + pos)
                 = Some orig_index
              /\ d_token_to_orig_map d' !! (len (d_tokens d) + Z.of_nat i)
                 = Some orig_index
              /\ d_token_is_max_context d' !! (len (d_tokens d) + Z.of_nat i)
                 = Some (_check_is_max_context doc_spans doc_span_index
                           (DocSpan.start doc_span + pos)))
      /\ (forall j : Z,
            ~ (len (d_tokens d) <= j < len (d_tokens d) + len positions) ->
            d_token_to_orig_map d' !! j = d_token_to_orig_map d !! j
            /\ d_token_is_max_context d' !! j = d_token_is_max_context d !! j).
Proof.
  induction positions as [|pos positions IH]; intros d d' Hrun; cbn [add_doc_tokens] in Hrun.
  - injection Hrun as <-. exists []. rewrite !app_nil_r.
    split_and!; try done; cbn; lia.
  - destruct (py_index (p_tok_to_orig_index p) _) as [orig_index|] eqn:Horig; [|done].
    cbn [mbind option_bind] in Hrun.
    destruct (py_index (p_all_doc_tokens p) _) as [token|] eqn:Htoken; [|done].
    cbn [mbind option_bind] in Hrun.
    destruct (py_index (p_doc_wn_concepts p) _) as [wn|]; [|done].
    cbn [mbind option_bind] in Hrun.
    destruct (py_index (p_doc_nell_concepts p) _) as [nell|]; [|done].
    cbn [mbind option_bind] in Hrun.
    apply IH in Hrun as (slice & Ht & Hlen & Hs & Hw & Hn & Hat & Hout).
    cbn [d_tokens d_segment_ids d_wn_concept_ids d_nell_concept_ids
         d_token_to_orig_map d_token_is_max_context] in *.
    assert (Hlen1 : len (d_tokens d ++ [token]) = len (d_tokens d) + 1)
      by (by rewrite len_app).
    rewrite Hlen1 in Hat, Hout.
    exists (token :: slice). split_and!.
    + by rewrite Ht, <- app_assoc.
    + cbn. by rewrite Hlen.
    + rewrite Hs, <- app_assoc. done.
    + rewrite Hw, length_app. cbn. lia.
    + rewrite Hn, length_app. cbn. lia.
    + intros [|i] pos' Hi; cbn in Hi.
      * injection Hi as <-. exists token, orig_index.
        destruct (Hout (len (d_tokens d))) as [Hm Hc]; [lia|].
        rewrite Z.add_0_r, Hm, Hc, !lookup_insert_eq. done.
      * destruct (Hat i pos' Hi) as (tok & orig & H1 & H2 & H3 & H4 & H5).
        exists tok, orig.
        replace (len (d_tokens d) + Z.of_nat (S i))
          with (len (d_tokens d) + 1 + Z.of_nat i) by lia. done.
    + intros j Hj.
      assert (Hlen2 : len (pos :: positions) = 1 + len positions)
        by (unfold len; cbn [length]; lia).
      pose proof (len_nonneg positions).
      rewrite Hlen2 in Hj. destruct (Hout j) as [Hm Hc]; [lia|].
      rewrite Hm, Hc, !lookup_insert_ne by lia. done.
Qed.

Lemma draft_of_span_layout (d : Draft) :
  draft_of_span p doc_spans doc_span_index doc_span = Some d ->
  let query :=
    List.map (fun row => row.1.1)
      (zip3 (p_query_tokens p) (p_query_wn_concepts p) (p_query_nell_concepts p)) in
  exists slice,
    d_tokens d = str "[CLS]" :: query ++ str "[SEP]" :: slice ++ [str "[SEP]"]
    /\ length slice = Z.to_nat (DocSpan.length doc_span)
    /\ d_segment_ids d
       = replicate (2 + length query) 0 ++ replicate (S (length slice)) 1
    /\ length (d_wn_concept_ids d) = length (d_tokens d)
    /\ length (d_nell_concept_ids d) = length (d_tokens d)
    /\ (forall i : nat, (i < length slice)%nat ->
          exists token orig_index,
            slice !! i = Some token
            /\ py_index (p_all_doc_tokens p) (DocSpan.start doc_span + Z.of_nat i)
               = Some token
            /\ py_index (p_tok_to_orig_index p) (DocSpan.start doc_span + Z.of_nat i)
               = Some orig_index
            /\ d_token_to_orig_map d !! (len query + 2 + Z.of_nat i) = Some orig_index
            /\ d_token_is_max_context d !! (len query + 2 + Z.of_nat i)
               = Some (_check_is_max_context doc_spans doc_span_index
                         (DocSpan.start doc_span + Z.of_nat i)))
    /\ (forall j : Z,
          ~ (len query + 2 <= j < len query + 2 + len slice) ->
          d_token_to_orig_map d !! j = None /\ d_token_is_max_context d !! j = None).
Proof.
  intros Hd query. unfold draft_of_span in Hd. subst query.
  set (rows := zip3 _ _ _) in *. set (query := List.map _ rows).
  destruct (query_fold_layout rows (draft_append draft_empty (str "[CLS]") 0 [] []))
    as (Ht & Hs & Hw & Hn & Hm & Hc). cbn zeta in *.
  set (d1 := fold_left _ rows _) in *.
  destruct (add_doc_tokens _ _ _ _ _ _) as [d2|] eqn:Hadd; [|done].
  cbn [mbind option_bind] in Hd. injection Hd as <-.
  apply add_doc_tokens_layout in Hadd
    as (slice & Ht2 & Hlen & Hs2 & Hw2 & Hn2 & Hat & Hout).
  cbn [draft_append d_tokens d_segment_ids d_wn_concept_ids d_nell_concept_ids
       d_token_to_orig_map d_token_is_max_context draft_empty app] in *.
  rewrite range_length, Z.sub_0_r in *.
  assert (Hlen1 : len (d_tokens d1 ++ [str "[SEP]"]) = len query + 2).
  { rewrite Ht. unfold len, query. rewrite !length_app, length_map. cbn.
    rewrite length_map. lia. }
  rewrite Hlen1 in Hat, Hout.
  exists slice. split_and!.
  - rewrite Ht2, Ht. cbn. by rewrite <- !app_assoc.
  - done.
  - rewrite Hs2, Hs, Hlen. cbn. unfold query. rewrite length_map.
    rewrite <- !app_assoc. cbn [app]. rewrite !replicate_snoc_cons.
    by rewrite app_nil_r.
  - rewrite length_app, Hw2, length_app, Hw, Ht2, Ht. unfold query.
    repeat first [rewrite length_app | rewrite length_map | progress cbn [length app]].
    lia.
  - rewrite length_app, Hn2, length_app, Hn, Ht2, Ht. unfold query.
    repeat first [rewrite length_app | rewrite length_map | progress cbn [length app]].
    lia.
  - intros i Hi. apply (Hat i (Z.of_nat i)).
    by rewrite range_lookup by (rewrite Z.sub_0_r; lia).
  - intros j Hj. destruct (Hout j) as [H1 H2].
    { unfold len in *. rewrite range_length, Z.sub_0_r. lia. }
    rewrite H1, H2, Hm, Hc. by rewrite !lookup_empty.
Qed.

End DraftLayout.

Lemma zip3_length_le {A B C} (la : list A) (lb : list B) (lc : list C) :
  (length (zip3 la lb lc) <= length la)%nat
  /\ (length la = length lb -> length la = length lc ->
      length (zip3 la lb lc) = length la).
Proof.
  revert lb lc. induction la as [|a la IH]; intros lb lc; cbn; [done|].
  destruct lb as [|b lb], lc as [|c lc]; cbn; try (split; [lia|done]).
  destruct (IH lb lc) as [Hle Heq]. split; [lia|]. intros Hb Hc. rewrite Heq; lia.
Qed.

Section FeatureFields.
Context `{Tokenization} `{Converter}.

(** Everything a yielded feature holds, read off the loop body. *)
Lemma feature_of_span_fields p example is_training spans unique_id example_index
    doc_span_index doc_span f :
  feature_of_span p example is_training spans unique_id example_index
    doc_span_index doc_span = Some (Some f) ->
  exists d,
    draft_of_span p spans doc_span_index doc_span = Some d
    /\ f = InputFeatures.mk unique_id example_index doc_span_index
             (d_tokens d) (d_token_to_orig_map d) (d_token_is_max_context d)
             (convert_tokens_to_ids (d_tokens d))
             (replicate (length (convert_tokens_to_ids (d_tokens d))) 1)
             (d_segment_ids d)
             (pad_concept_ids max_wn_concept_length (d_wn_concept_ids d))
             (pad_concept_ids max_nell_concept_length (d_nell_concept_ids d))
             (InputFeatures.start_position f) (InputFeatures.end_position f)
             (ReCoRDExample.is_impossible example)
    /\ ((is_training = true /\ ReCoRDExample.is_impossible example = false
         /\ exists ts te,
              p_tok_start_position p = Some ts /\ p_tok_end_position p = Some te
              /\ DocSpan.start doc_span <= ts
              /\ te <= DocSpan.start doc_span + DocSpan.length doc_span - 1
              /\ InputFeatures.start_position f
                 = Some (ts - DocSpan.start doc_span + (len (p_query_tokens p) + 2))
              /\ InputFeatures.end_position f
                 = Some (te - DocSpan.start doc_span + (len (p_query_tokens p) + 2)))
        \/ (is_training = true /\ ReCoRDExample.is_impossible example = true
            /\ InputFeatures.start_position f = Some 0
            /\ InputFeatures.end_position f = Some 0)
        \/ (is_training = false
            /\ InputFeatures.start_position f = None
            /\ InputFeatures.end_position f = None)).
Proof.
  unfold feature_of_span. intros Hf.
  destruct (draft_of_span _ _ _ _) as [d|]; [|done]. exists d. split; [done|].
  cbn [mbind option_bind] in Hf. cbv zeta in Hf.
  destruct is_training, (ReCoRDExample.is_impossible example);
    cbn [andb negb] in Hf.
  - injection Hf as <-. split; [done|]. right. left. done.
  - destruct (p_tok_start_position p) as [ts|]; [|done].
    destruct (p_tok_end_position p) as [te|]; [|done]. cbn [mbind option_bind] in Hf.
    destruct (Z.geb_spec ts (DocSpan.start doc_span)) as [Hs|];
      cbn [andb negb] in Hf; [|done].
    destruct (Z.leb_spec te (DocSpan.start doc_span + DocSpan.length doc_span - 1))
      as [He|]; cbn [andb negb] in Hf; [|done].
    injection Hf as <-. split; [done|]. left. split_and!; try done.
    exists ts, te. split_and!; try done; lia.
  - injection Hf as <-. split; [done|]. right. right. done.
  - injection Hf as <-. split; [done|]. right. right. done.
Qed.

End FeatureFields.

(** ** Concept rows of a feature *)

Lemma pad_concept_ids_padded (max_concept_length : nat) (found : list (list Z)) :
  Forall2 (padded_to max_concept_length) found
    (pad_concept_ids max_concept_length found).
Proof.
  unfold pad_concept_ids. induction found as [|row found IH]; cbn; constructor; [|done].
  split_and!.
  - apply pad_concept_row_length.
  - apply pad_concept_row_short.
  - apply pad_concept_row_long.
Qed.

Section ConceptRows.
Context `{Tokenization} `{Converter}.

Lemma prepare_looked_up example max_query_length is_training p :
  prepare example max_query_length is_training = Some p ->
  looked_up example max_query_length p.
Proof.
  intros Hp. unfold prepare in Hp.
  destruct (all_tokenization_info _) as [info|] eqn:Hinfo; [|done].
  cbn [mbind option_bind] in Hp.
  destruct (negb (bool_decide _)); [done|].
  destruct (_lookup_wordnet_concept_ids _ _ _ _) as [query_wn|] eqn:Hquery_wn; [|done].
  cbn [mbind option_bind] in Hp.
  destruct (nell_retrieve_info _) as [nell_info|] eqn:Hnell_info; [|done].
  cbn [mbind option_bind] in Hp.
  destruct (_lookup_nell_concept_ids _ _ _ _) as [query_nell|] eqn:Hquery_nell; [|done].
  cbn [mbind option_bind] in Hp.
  exists info, nell_info, query_wn, query_nell. cbv zeta.
  remember (if len (tokenize (ReCoRDExample.question_text example)) >? max_query_length
            then _ else _) as truncated eqn:Htruncated in Hp.
  assert (truncated.1.2
          = (if len (tokenize (ReCoRDExample.question_text example)) >? max_query_length
             then py_slice query_wn 0 max_query_length else query_wn)
          /\ truncated.2
             = (if len (tokenize (ReCoRDExample.question_text example))
                   >? max_query_length
                then py_slice query_nell 0 max_query_length else query_nell))
    as [Hwn Hnell].
  { subst truncated. by destruct (_ >? _). }
  clear Htruncated. destruct truncated as [[query_tokens query_wn'] query_nell'].
  cbn [fst snd] in Hwn, Hnell.
  destruct (fold_left _ _ _) as [[tok_to_orig_index orig_to_tok_index] all_doc_tokens].
  destruct (negb (bool_decide _)); [done|].
  destruct (_lookup_wordnet_concept_ids all_doc_tokens _ _ _) as [doc_wn|] eqn:Hdoc_wn;
    [|done].
  cbn [mbind option_bind] in Hp.
  destruct (_lookup_nell_concept_ids all_doc_tokens _ _ _) as [doc_nell|] eqn:Hdoc_nell;
    [|done].
  cbn [mbind option_bind] in Hp.
  match type of Hp with
  | context [mbind _ ?labels] => destruct labels as [[tok_start tok_end]|]; [|done]
  end.
  cbn [mbind option_bind] in Hp. injection Hp as <-. cbn. by split_and!.
Qed.

Section Rows.
Variables (p : Prepared) (doc_spans : list DocSpan.t) (doc_span_index : Z)
          (doc_span : DocSpan.t).

Lemma add_doc_tokens_rows (positions : list Z) :
  forall d d',
    add_doc_tokens p doc_spans doc_span_index doc_span positions d = Some d' ->
    exists wn nell,
      mapM (fun i => py_index (p_doc_wn_concepts p) (DocSpan.start doc_span + i))
           positions = Some wn
      /\ mapM (fun i => py_index (p_doc_nell_concepts p) (DocSpan.start doc_span + i))
              positions = Some nell
      /\ d_wn_concept_ids d' = d_wn_concept_ids d ++ wn
      /\ d_nell_concept_ids d' = d_nell_concept_ids d ++ nell.
Proof.
  induction positions as [|pos positions IH]; intros d d' Hrun;
    cbn [add_doc_tokens] in Hrun.
  - injection Hrun as <-. exists [], []. by rewrite !app_nil_r.
  - destruct (py_index (p_tok_to_orig_index p) _) as [orig_index|]; [|done].
    cbn [mbind option_bind] in Hrun.
    destruct (py_index (p_all_doc_tokens p) _) as [token|]; [|done].
    cbn [mbind option_bind] in Hrun.
    destruct (py_index (p_doc_wn_concepts p) _) as [wn0|] eqn:Hwn0; [|done].
    cbn [mbind option_bind] in Hrun.
    destruct (py_index (p_doc_nell_concepts p) _) as [nell0|] eqn:Hnell0; [|done].
    cbn [mbind option_bind] in Hrun.
    apply IH in Hrun as (wn & nell & Hwn & Hnell & Hw & Hn).
    cbn [d_wn_concept_ids d_nell_concept_ids] in Hw, Hn.
    exists (wn0 :: wn), (nell0 :: nell). cbn [mapM].
    rewrite Hwn0, Hnell0, Hwn, Hnell. cbn.
    rewrite Hw, Hn, <- !app_assoc. done.
Qed.

Lemma draft_of_span_rows (d : Draft) :
  draft_of_span p doc_spans doc_span_index doc_span = Some d ->
  let rows := zip3 (p_query_tokens p) (p_query_wn_concepts p) (p_query_nell_concepts p) in
  found_rows (List.map (fun row => row.1.2) rows) (p_doc_wn_concepts p) doc_span
  = Some (d_wn_concept_ids d)
  /\ found_rows (List.map (fun row => row.2) rows) (p_doc_nell_concepts p) doc_span
     = Some (d_nell_concept_ids d).
Proof.
  intros Hd. cbv zeta. unfold draft_of_span in Hd.
  set (rows := zip3 _ _ _) in *.
  destruct (query_fold_layout rows (draft_append draft_empty (str "[CLS]") 0 [] []))
    as (_ & _ & Hw & Hn & _). cbn zeta in *.
  set (d1 := fold_left _ rows _) in *.
  destruct (add_doc_tokens _ _ _ _ _ _) as [d2|] eqn:Hadd; [|done].
  cbn [mbind option_bind] in Hd. injection Hd as <-.
  apply add_doc_tokens_rows in Hadd as (wn & nell & Hwn & Hnell & Hw2 & Hn2).
  cbn [draft_append d_wn_concept_ids d_nell_concept_ids draft_empty app] in *.
  unfold found_rows. rewrite Hwn, Hnell. cbn [mbind option_bind].
  rewrite Hw2, Hn2, Hw, Hn. cbn. by rewrite <- !app_assoc.
Qed.

End Rows.
End ConceptRows.

(** C4: every feature yielded by the converter comes from an example and one
    of its spans such that, for both tables, the rows of the feature are made
    one by one from the concepts found for its tokens (nothing for the three
    markers, what the lookup returned for each query token and for each
    document sub-token of the span): every row has exactly the table's maximum
    length, and is the found ids followed by zeros when they are no more than
    the maximum, and the first [max] of them when they are more. *)
Theorem concept_rows_fixed_width `{Tokenization} `{Converter}
    (examples : list ReCoRDExample.t)
    (max_seq_length doc_stride max_query_length : Z) (is_training : bool)
    (feature : InputFeatures.t) :
  feature ∈ emitted (__call__ examples max_seq_length doc_stride max_query_length
                       is_training) ->
  exists example p doc_span wn_found nell_found,
    let rows :=
      zip3 (p_query_tokens p) (p_query_wn_concepts p) (p_query_nell_concepts p) in
    example ∈ examples
    /\ prepare example max_query_length is_training = Some p
    /\ looked_up example max_query_length p
    /\ found_rows (List.map (fun row => row.1.2) rows) (p_doc_wn_concepts p) doc_span
       = Some wn_found
    /\ found_rows (List.map (fun row => row.2) rows) (p_doc_nell_concepts p) doc_span
       = Some nell_found
    /\ Forall2 (padded_to max_wn_concept_length) wn_found
         (InputFeatures.wn_concept_ids feature)
    /\ Forall2 (padded_to max_nell_concept_length) nell_found
         (InputFeatures.nell_concept_ids feature)
    /\ length (InputFeatures.wn_concept_ids feature)
       = length (InputFeatures.tokens feature)
    /\ length (InputFeatures.nell_concept_ids feature)
       = length (InputFeatures.tokens feature).
Proof.
  unfold __call__.
  intros (exi & ex & p & spans & k & sp & u & Hex & Hp & _ & _ & Hf)%convert_examples_provenance.
  apply feature_of_span_fields in Hf as (d & Hd & -> & _).
  destruct (draft_of_span_rows _ _ _ _ _ Hd) as [Hwn Hnell].
  apply draft_of_span_layout in Hd as (_ & _ & _ & _ & Hlen_wn & Hlen_nell & _).
  exists ex, p, sp, (d_wn_concept_ids d), (d_nell_concept_ids d). cbv zeta.
  cbn [InputFeatures.wn_concept_ids InputFeatures.nell_concept_ids InputFeatures.tokens].
  split_and!; try done.
  - apply enumerate_from_elem in Hex as (i & _ & Hi). by eapply list_elem_of_lookup_2.
  - by eapply prepare_looked_up.
  - apply pad_concept_ids_padded.
  - apply pad_concept_ids_padded.
  - unfold pad_concept_ids. by rewrite length_map.
  - unfold pad_concept_ids. by rewrite length_map.
Qed.

Section ConceptRowsWitness.
Existing Instances Toy.tokenization Toy.converter.

(** In the small setting every sub-token has one WordNet concept, fewer than
    the maximum 2, and four NELL concepts, more than the maximum 3: the WordNet
    rows are padded with a zero and the NELL rows are cut. *)
Lemma concept_rows_fixed_width_witness :
  exists feature example p doc_span wn_found nell_found,
    head (emitted (__call__ [Toy.example] 6 1 64 false)) = Some feature
    /\ InputFeatures.wn_concept_ids feature
       = [[0; 0]; [7; 0]; [0; 0]; [7; 0]; [7; 0]; [0; 0]]
    /\ InputFeatures.nell_concept_ids feature
       = [[0; 0; 0]; [1; 2; 3]; [0; 0; 0]; [1; 2; 3]; [1; 2; 3]; [0; 0; 0]]
    /\ example ∈ [Toy.example]
    /\ prepare example 64 false = Some p
    /\ looked_up example 64 p
    /\ found_rows
         (List.map (fun row => row.1.2)
            (zip3 (p_query_tokens p) (p_query_wn_concepts p) (p_query_nell_concepts p)))
         (p_doc_wn_concepts p) doc_span = Some wn_found
    /\ found_rows
         (List.map (fun row => row.2)
            (zip3 (p_query_tokens p) (p_query_wn_concepts p) (p_query_nell_concepts p)))
         (p_doc_nell_concepts p) doc_span = Some nell_found
    /\ Forall2 (padded_to 2) wn_found (InputFeatures.wn_concept_ids feature)
    /\ Forall2 (padded_to 3) nell_found (InputFeatures.nell_concept_ids feature)
    /\ length (InputFeatures.wn_concept_ids feature)
       = length (InputFeatures.tokens feature)
    /\ length (InputFeatures.nell_concept_ids feature)
       = length (InputFeatures.tokens feature).
Proof.
  destruct (head (emitted (__call__ [Toy.example] 6 1 64 false))) as [feature|] eqn:Hhead;
    [|by vm_compute in Hhead].
  destruct (concept_rows_fixed_width [Toy.example] 6 1 64 false feature)
    as (example & p & doc_span & wn_found & nell_found & Hrows).
  { apply list_elem_of_In. destruct (emitted _); [done|]. left.
    cbn in Hhead. congruence. }
  exists feature, example, p, doc_span, wn_found, nell_found.
  split; [done|]. split; [revert Hhead; vm_compute; by intros [= <-]|].
  split; [revert Hhead; vm_compute; by intros [= <-]|]. exact Hrows.
Defined.

End ConceptRowsWitness.


(** X21: no feature the converter yields is longer than [max_seq_length]
    tokens. *)
Theorem feature_within_max_seq_length `{Tokenization} `{Converter}
    (examples : list ReCoRDExample.t)
    (max_seq_length doc_stride max_query_length : Z) (is_training : bool)
    (f : InputFeatures.t) :
  f ∈ emitted (__call__ examples max_seq_length doc_stride max_query_length
                 is_training) ->
  len (InputFeatures.tokens f) <= max_seq_length.
Proof.
  unfold __call__.
  intros (exi & ex & p & spans & k & sp & u & _ & _ & Hspans & Hk & Hf)%convert_examples_provenance.
  apply feature_of_span_fields in Hf as (d & Hd & -> & _).
  apply draft_of_span_layout in Hd as (slice & Ht & Hlen & _). cbn zeta in *.
  cbn [InputFeatures.tokens]. rewrite Ht.
  destruct (doc_spans_from_layout _ _ _ _ _ _ Hspans k sp Hk)
    as (_ & Hsp & Hstart & _).
  pose proof (proj1 (zip3_length_le (p_query_tokens p) (p_query_wn_concepts p)
                       (p_query_nell_concepts p))) as Hzip.
  assert (Hbudget : 1 <= max_seq_length - len (p_query_tokens p) - 3).
  { destruct (Z.le_gt_cases 1 (max_seq_length - len (p_query_tokens p) - 3))
      as [|Hsmall]; [done|]. exfalso. unfold doc_spans in Hspans.
    rewrite doc_spans_from_hangs in Hspans; [done|left; lia|].
    split; [lia|]. apply lookup_lt_Some in Hk.
    destruct (Z.le_gt_cases (len (p_all_doc_tokens p)) 0) as [Hempty|]; [|done].
    destruct (length (p_all_doc_tokens p)) as [|fuel]; cbn [doc_spans_from] in Hspans;
      destruct (Z.ltb_spec 0 (len (p_all_doc_tokens p))); try lia;
      injection Hspans as <-; cbn in Hk; lia. }
  unfold len in *. cbn [length]. rewrite !length_app. cbn [length].
  rewrite !length_app, length_map. cbn [length]. lia.
Qed.

Section FeatureLayoutRun.
Existing Instances Toy.tokenization Toy.converter.


Lemma feature_within_max_seq_length_witness :
  exists f,
    head (emitted (__call__ [Toy.example] 6 1 64 false)) = Some f
    /\ len (InputFeatures.tokens f) <= 6.
Proof.
  destruct (head (emitted (__call__ [Toy.example] 6 1 64 false))) as [f|] eqn:Hhead;
    [|by vm_compute in Hhead].
  exists f. split; [done|].
  apply (feature_within_max_seq_length [Toy.example] 6 1 64 false f).
  apply list_elem_of_In. destruct (emitted _); [done|]. left. cbn in Hhead. congruence.
Defined.

End FeatureLayoutRun.

Lemma py_slice_length_eq {A B} (l1 : list A) (l2 : list B) (a b : Z) :
  length l1 = length l2 -> length (py_slice l1 a b) = length (py_slice l2 a b).
Proof.
  intros Hlen. unfold py_slice, len. by rewrite !length_take, !length_drop, Hlen.
Qed.

Section Labels.
Context `{Tokenization} `{Converter}.

Lemma prepare_query_rows example max_query_length is_training p :
  row_per_sub_token ->
  prepare example max_query_length is_training = Some p ->
  length (p_query_wn_concepts p) = length (p_query_tokens p)
  /\ length (p_query_nell_concepts p) = length (p_query_tokens p).
Proof.
  intros [Hwn Hnell] Hp. unfold prepare in Hp.
  destruct (all_tokenization_info _) as [info|]; [|done].
  cbn [mbind option_bind] in Hp.
  destruct (negb (bool_decide _)); [done|].
  destruct (_lookup_wordnet_concept_ids _ _ _ _) as [query_wn|] eqn:Hquery_wn; [|done].
  cbn [mbind option_bind] in Hp.
  destruct (nell_retrieve_info _) as [nell_info|]; [|done].
  cbn [mbind option_bind] in Hp.
  destruct (_lookup_nell_concept_ids _ _ _ _) as [query_nell|] eqn:Hquery_nell; [|done].
  cbn [mbind option_bind] in Hp.
  apply Hwn in Hquery_wn. apply Hnell in Hquery_nell.
  remember (if len (tokenize (ReCoRDExample.question_text example)) >? max_query_length
            then _ else _) as truncated eqn:Htruncated in Hp.
  assert (length truncated.1.2 = length truncated.1.1
          /\ length truncated.2 = length truncated.1.1) as Hrows.
  { subst truncated. destruct (_ >? _); cbn [fst snd]; [|done].
    split; by apply py_slice_length_eq. }
  clear Htruncated. destruct truncated as [[query_tokens query_wn'] query_nell'].
  cbn [fst snd] in Hrows.
  destruct (fold_left _ _ _) as [[tok_to_orig_index orig_to_tok_index] all_doc_tokens].
  destruct (negb (bool_decide _)); [done|].
  destruct (_lookup_wordnet_concept_ids _ _ _ _) as [doc_wn|]; [|done].
  cbn [mbind option_bind] in Hp.
  destruct (_lookup_nell_concept_ids _ _ _ _) as [doc_nell|]; [|done].
  cbn [mbind option_bind] in Hp.
  match type of Hp with
  | context [mbind _ ?labels] => destruct labels as [[tok_start tok_end]|]; [|done]
  end.
  cbn [mbind option_bind] in Hp. by injection Hp as <-.
Qed.

(** The labels of a yielded feature, with the hypothesis of a converter whose
    lookups return one row per sub-token. *)
Lemma feature_of_span_labels p example is_training spans unique_id example_index
    doc_span_index doc_span f :
  length (p_query_wn_concepts p) = length (p_query_tokens p) ->
  length (p_query_nell_concepts p) = length (p_query_tokens p) ->
  feature_of_span p example is_training spans unique_id example_index
    doc_span_index doc_span = Some (Some f) ->
  if is_training then
    if InputFeatures.is_impossible f
    then InputFeatures.start_position f = Some 0
         /\ InputFeatures.end_position f = Some 0
    else exists start_position end_position first last : Z,
           InputFeatures.start_position f = Some start_position
           /\ InputFeatures.end_position f = Some end_position
           /\ InputFeatures.tokens f !! Z.to_nat (first - 1) = Some (str "[SEP]")
           /\ InputFeatures.tokens f !! Z.to_nat (last + 1) = Some (str "[SEP]")
           /\ 2 <= first
           /\ (forall j : Z,
                 is_Some (InputFeatures.token_to_orig_map f !! j) <-> first <= j <= last)
           /\ first <= start_position
           /\ end_position <= last
           /\ forall j : Z, start_position <= j <= end_position ->
                is_Some (InputFeatures.token_to_orig_map f !! j)
  else InputFeatures.start_position f = None
       /\ InputFeatures.end_position f = None.
Proof.
  intros Hwn Hnell Hf.
  apply feature_of_span_fields in Hf as (d & Hd & Hfields & Hlabels).
  apply draft_of_span_layout in Hd as (slice & Htokens & Hslice & _ & _ & _ & Hat & Hout).
  cbn zeta in Htokens, Hat, Hout. unfold len in Hat, Hout.
  rewrite length_map in Hat, Hout.
  rewrite (proj2 (zip3_length_le _ _ _)) in Hat, Hout by done.
  fold (len (p_query_tokens p)) in Hat, Hout. fold (len slice) in Hout.
  assert (InputFeatures.is_impossible f = ReCoRDExample.is_impossible example
          /\ InputFeatures.token_to_orig_map f = d_token_to_orig_map d
          /\ InputFeatures.tokens f = d_tokens d) as (Himp & Hmap & Htoks).
  { by rewrite Hfields. }
  rewrite Himp, Hmap, Htoks. clear Hfields Himp Hmap Htoks.
  destruct Hlabels as [(-> & -> & ts & te & _ & _ & Hs & He & -> & ->)
                      |[(-> & -> & -> & ->)|(-> & -> & ->)]]; [|done..].
  set (query := List.map _ _) in Htokens.
  assert (Hquery : length query = length (p_query_tokens p)).
  { unfold query. rewrite length_map. by apply zip3_length_le. }
  assert (Hkeys : forall j : Z,
            is_Some (d_token_to_orig_map d !! j)
            <-> len (p_query_tokens p) + 2 <= j <= len (p_query_tokens p) + 1 + len slice).
  { intros j. split.
    - intros Hsome.
      destruct (decide (len (p_query_tokens p) + 2 <= j
                        < len (p_query_tokens p) + 2 + len slice)) as [|Hno]; [lia|].
      apply Hout in Hno as [Hno _]. rewrite Hno in Hsome. by destruct Hsome.
    - intros Hj.
      destruct (Hat (Z.to_nat (j - (len (p_query_tokens p) + 2))))
        as (_ & orig_index & _ & _ & _ & Hkey & _); [unfold len in *; lia|].
      replace (len (p_query_tokens p) + 2
               + Z.of_nat (Z.to_nat (j - (len (p_query_tokens p) + 2))))
        with j in Hkey by (unfold len in *; lia).
      by rewrite Hkey. }
  exists (ts - DocSpan.start doc_span + (len (p_query_tokens p) + 2)),
         (te - DocSpan.start doc_span + (len (p_query_tokens p) + 2)),
         (len (p_query_tokens p) + 2), (len (p_query_tokens p) + 1 + len slice).
  split_and!; try done.
  - rewrite Htokens.
    replace (Z.to_nat (len (p_query_tokens p) + 2 - 1)) with (S (length query))
      by (unfold len; lia).
    rewrite lookup_cons_ne_0 by lia. cbn [pred].
    by rewrite lookup_app_r, Nat.sub_diag by lia.
  - rewrite Htokens.
    replace (Z.to_nat (len (p_query_tokens p) + 1 + len slice + 1))
      with (S (length query + S (length slice))) by (unfold len; lia).
    rewrite lookup_cons_ne_0 by lia. cbn [pred]. rewrite lookup_app_r by lia.
    replace (length query + S (length slice) - length query)%nat
      with (S (length slice)) by lia.
    rewrite lookup_cons_ne_0 by lia. cbn [pred].
    by rewrite lookup_app_r, Nat.sub_diag by lia.
  - unfold len. lia.
  - lia.
  - unfold len in *. lia.
  - intros j Hj. apply Hkeys. unfold len in *. lia.
Qed.

End Labels.

(** X22: with lookups that return one row per sub-token, the labels of every
    yielded feature are: none at prediction time; [(0, 0)] for an impossible
    question at training time; and otherwise a start and an end position
    placed against the document slice, whose positions [first .. last] are
    the keys of [token_to_orig_map] and lie between the two [[SEP]] tokens:
    the start position is not before [first] and the end position is not after
    [last].  Nothing orders the two labels: the start may come after the end
    (one of them then being the position of a [[SEP]]), as when the words of
    the answer yield no sub-token; when it does not, every position from the
    start to the end is a position of the document slice. *)
Theorem feature_labels `{Tokenization} `{Converter} (examples : list ReCoRDExample.t)
    (max_seq_length doc_stride max_query_length : Z) (is_training : bool)
    (f : InputFeatures.t) :
  row_per_sub_token ->
  f ∈ emitted (__call__ examples max_seq_length doc_stride max_query_length
                 is_training) ->
  if is_training then
    if InputFeatures.is_impossible f
    then InputFeatures.start_position f = Some 0
         /\ InputFeatures.end_position f = Some 0
    else exists start_position end_position first last : Z,
           InputFeatures.start_position f = Some start_position
           /\ InputFeatures.end_position f = Some end_position
           /\ InputFeatures.tokens f !! Z.to_nat (first - 1) = Some (str "[SEP]")
           /\ InputFeatures.tokens f !! Z.to_nat (last + 1) = Some (str "[SEP]")
           /\ 2 <= first
           /\ (forall j : Z,
                 is_Some (InputFeatures.token_to_orig_map f !! j) <-> first <= j <= last)
           /\ first <= start_position
           /\ end_position <= last
           /\ forall j : Z, start_position <= j <= end_position ->
                is_Some (InputFeatures.token_to_orig_map f !! j)
  else InputFeatures.start_position f = None
       /\ InputFeatures.end_position f = None.
Proof.
  intros Hrows. unfold __call__.
  intros (exi & ex & p & spans & k & sp & u & _ & Hp & _ & _ & Hf)%convert_examples_provenance.
  destruct (prepare_query_rows _ _ _ _ Hrows Hp) as [Hwn Hnell].
  by apply feature_of_span_labels in Hf.
Qed.

Section FeatureLabelsRun.
Existing Instances Toy.tokenization Toy.converter.

Lemma feature_labels_witness :
  row_per_sub_token
  /\ exists f start_position end_position first last,
       head (emitted (__call__ [answered_example] 6 1 64 true)) = Some f
       /\ InputFeatures.is_impossible f = false
       /\ InputFeatures.start_position f = Some start_position
       /\ InputFeatures.end_position f = Some end_position
       /\ InputFeatures.tokens f !! Z.to_nat (first - 1) = Some (str "[SEP]")
       /\ InputFeatures.tokens f !! Z.to_nat (last + 1) = Some (str "[SEP]")
       /\ 2 <= first
       /\ (forall j : Z,
             is_Some (InputFeatures.token_to_orig_map f !! j) <-> first <= j <= last)
       /\ first <= start_position
       /\ end_position <= last
       /\ forall j : Z, start_position <= j <= end_position ->
            is_Some (InputFeatures.token_to_orig_map f !! j).
Proof.
  assert (Hrows : row_per_sub_token).
  { split; cbn; intros sub_tokens _ _ _ rows [= <-]; by rewrite length_map. }
  split; [done|].
  destruct (head (emitted (__call__ [answered_example] 6 1 64 true))) as [f|] eqn:Hhead;
    [|by vm_compute in Hhead].
  assert (Himp : InputFeatures.is_impossible f = false).
  { revert Hhead. vm_compute. by intros [= <-]. }
  pose proof (feature_labels [answered_example] 6 1 64 true f Hrows) as Hlabels.
  cbv beta iota in Hlabels. rewrite Himp in Hlabels.
  destruct Hlabels as (start_position & end_position & first & last & Hlabels).
  { apply list_elem_of_In. destruct (emitted _); [done|]. left.
    cbn in Hhead. congruence. }
  by exists f, start_position, end_position, first, last.
Defined.

End FeatureLabelsRun.

(** Whenever the chunking loop ends, its spans cover the rest of the document. *)
Lemma doc_spans_from_some_covers (fuel : nat) (n max_tokens_for_doc doc_stride : Z) :
  forall (s : Z) (spans : list DocSpan.t),
    doc_spans_from fuel n max_tokens_for_doc doc_stride s = Some spans ->
    forall i, s <= i < n -> Exists (fun sp => in_span sp i) spans.
Proof.
  induction fuel as [|fuel IH]; intros s spans Hspans i Hi;
    cbn [doc_spans_from] in Hspans; destruct (Z.ltb_spec s n) as [Hs|Hs]; try lia;
    [done|].
  cbv zeta in Hspans.
  destruct (Z.gtb_spec (n - s) max_tokens_for_doc) as [Hlong|Hshort].
  - destruct (Z.eqb_spec (s + max_tokens_for_doc) n) as [Hend|Hend].
    + injection Hspans as <-. constructor. unfold in_span, span_end. cbn. lia.
    + destruct (doc_spans_from fuel _ _ _ _) as [rest|] eqn:Hrest; [|done].
      injection Hspans as <-.
      destruct (Z.le_gt_cases i (s + max_tokens_for_doc - 1)) as [Hhead|Htail].
      * constructor. unfold in_span, span_end. cbn. lia.
      * apply Exists_cons_tl. apply (IH _ _ Hrest). lia.
  - destruct (Z.eqb_spec (s + (n - s)) n) as [Hend|Hend]; [|lia].
    injection Hspans as <-. constructor. unfold in_span, span_end. cbn. lia.
Qed.

(** The owner of a covered position, as [_check_is_max_context] sees it. *)
Lemma max_context_owner (doc_spans : list DocSpan.t) (position : Z) :
  Exists (fun sp => in_span sp position) doc_spans ->
  exists (i : nat) (sp : DocSpan.t),
    doc_spans !! i = Some sp /\ in_span sp position
    /\ forall j : Z,
         _check_is_max_context doc_spans j position = true <-> j = Z.of_nat i.
Proof.
  intros Hex.
  pose proof (max_context_fold_owner doc_spans [] position (None, None)) as Hinv.
  destruct Hinv as [[Hnone _]|(i & sp & Hi & Hin & Hbest & _)].
  { left. by split. }
  - exfalso. apply Exists_exists in Hex as (sp & Hsp & Hin).
    rewrite Forall_forall in Hnone. by apply (Hnone sp).
  - exists i, sp. split_and!; try done.
    intros j. unfold _check_is_max_context, best_span, enumerate.
    cbn [app] in Hbest. change (len []) with 0 in Hbest. rewrite Hbest. cbn.
    rewrite bool_decide_eq_true. split; congruence.
Qed.

Section Prediction.
Context `{Tokenization} `{Converter}.

(** At prediction time no span is skipped. *)
Lemma convert_spans_predict p example doc_spans example_index spans :
  forall (a unique_id : Z) next,
    ending (convert_spans p example false doc_spans example_index
              (enumerate_from a spans) unique_id next) = Done ->
    exists features,
      emitted (convert_spans p example false doc_spans example_index
                 (enumerate_from a spans) unique_id next)
      = features ++ emitted (next (unique_id + len spans))
      /\ length features = length spans
      /\ forall (k : nat) sp, spans !! k = Some sp ->
           exists f, features !! k = Some f
             /\ feature_of_span p example false doc_spans (unique_id + Z.of_nat k)
                  example_index (a + Z.of_nat k) sp = Some (Some f).
Proof.
  induction spans as [|sp0 spans IH]; intros a unique_id next Hend.
  - exists []. cbn. unfold len. cbn. rewrite Z.add_0_r. by split_and!.
  - cbn [enumerate_from convert_spans] in Hend |- *.
    destruct (feature_of_span _ _ _ _ _ _ _ _) as [[f0|]|] eqn:Hbody; [|exfalso|done].
    + cbn [ending] in Hend. apply IH in Hend as (features & Hem & Hlen & Hat).
      exists (f0 :: features). cbn [emitted]. rewrite Hem. split_and!.
      * by replace (unique_id + len (sp0 :: spans)) with (unique_id + 1 + len spans)
          by (unfold len; cbn [length]; lia).
      * cbn. by rewrite Hlen.
      * intros [|k] sp Hk.
        -- injection Hk as <-. exists f0. split; [done|].
           by rewrite !Z.add_0_r.
        -- cbn in Hk. apply Hat in Hk as (f & Hf & Hbody').
           exists f. split; [done|].
           by replace (unique_id + Z.of_nat (S k)) with (unique_id + 1 + Z.of_nat k)
             by lia;
           replace (a + Z.of_nat (S k)) with (a + 1 + Z.of_nat k) by lia.
    + unfold feature_of_span in Hbody.
      destruct (draft_of_span _ _ _ _) as [d|]; [|done].
      cbn [mbind option_bind andb] in Hbody. done.
Qed.

End Prediction.

(** X23: at prediction time, when the conversion of an example finishes, it
    yields one feature per span, and every sub-token of the document is flagged
    as max-context in exactly one of these features. *)
Theorem max_context_one_feature `{Tokenization} `{Converter}
    (example : ReCoRDExample.t) (max_seq_length doc_stride max_query_length : Z) :
  ending (__call__ [example] max_seq_length doc_stride max_query_length false) = Done ->
  exists p spans,
    prepare example max_query_length false = Some p
    /\ doc_spans (length (p_all_doc_tokens p)) (len (p_all_doc_tokens p))
         (max_seq_length - len (p_query_tokens p) - 3) doc_stride = Some spans
    /\ length (emitted (__call__ [example] max_seq_length doc_stride
                          max_query_length false)) = length spans
    /\ forall position : Z, 0 <= position < len (p_all_doc_tokens p) ->
         exists k : nat,
           (k < length spans)%nat
           /\ forall (k' : nat) sp f,
                spans !! k' = Some sp ->
                emitted (__call__ [example] max_seq_length doc_stride
                           max_query_length false) !! k' = Some f ->
                (InputFeatures.token_is_max_context f !! local_index p sp position
                 = Some true <-> k' = k).
Proof.
  unfold __call__, enumerate. cbn [enumerate_from convert_examples].
  destruct (prepare _ _ _) as [p|]; [|done]. cbv zeta.
  destruct (doc_spans _ _ _ _) as [spans|] eqn:Hspans; [|done].
  intros Hend. exists p, spans. unfold enumerate in *. split_and!; [done..| |].
  - apply convert_spans_predict in Hend as (features & -> & Hlen & _).
    cbn [convert_examples emitted]. by rewrite app_nil_r.
  - intros position Hposition.
    apply convert_spans_predict in Hend as (features & -> & Hlen & Hat).
    cbn [convert_examples emitted]. rewrite app_nil_r.
    destruct (max_context_owner spans position) as (k & spk & Hk & Hin & Howner).
    { by apply (doc_spans_from_some_covers _ _ _ _ _ _ Hspans). }
    exists k. split; [by apply lookup_lt_Some in Hk|].
    intros k' sp f Hk' Hf.
    destruct (Hat k' sp Hk') as (f' & Hf' & Hbody).
    assert (f' = f) as -> by congruence.
    apply feature_of_span_fields in Hbody as (d & Hd & -> & _).
    cbn [InputFeatures.token_is_max_context].
    apply draft_of_span_layout in Hd as (slice & _ & Hslice & _ & _ & _ & Hin' & Hout).
    cbn zeta in Hin', Hout. unfold len in Hin', Hout. rewrite length_map in Hin', Hout.
    unfold local_index, len.
    set (offset := Z.of_nat (length (zip3 _ _ _)) + 2) in *.
    destruct (decide (0 <= position - DocSpan.start sp < Z.of_nat (length slice)))
      as [Hinside|Houtside].
    + destruct (Hin' (Z.to_nat (position - DocSpan.start sp)))
        as (_ & _ & _ & _ & _ & _ & Hflag); [lia|].
      replace (offset + Z.of_nat (Z.to_nat (position - DocSpan.start sp)))
        with (offset + (position - DocSpan.start sp)) in Hflag by lia.
      replace (DocSpan.start sp + Z.of_nat (Z.to_nat (position - DocSpan.start sp)))
        with position in Hflag by lia.
      rewrite Hflag, Z.add_0_l. split.
      * intros [= Hcheck]. apply Howner in Hcheck. lia.
      * intros ->. f_equal. by apply Howner.
    + destruct (Hout (offset + (position - DocSpan.start sp))) as [_ Hnone]; [lia|].
      rewrite Hnone. split; [done|]. intros ->.
      assert (sp = spk) as -> by congruence.
      unfold in_span, span_end in Hin.
      exfalso. apply Houtside. lia.
Qed.

Section MaxContextRun.
Existing Instances Toy.tokenization Toy.converter.

Lemma max_context_one_feature_witness :
  ending (__call__ [Toy.example] 6 1 64 false) = Done
  /\ exists p spans,
       prepare Toy.example 64 false = Some p
       /\ doc_spans (length (p_all_doc_tokens p)) (len (p_all_doc_tokens p))
            (6 - len (p_query_tokens p) - 3) 1 = Some spans
       /\ length (emitted (__call__ [Toy.example] 6 1 64 false)) = length spans
       /\ forall position : Z, 0 <= position < len (p_all_doc_tokens p) ->
            exists k : nat,
              (k < length spans)%nat
              /\ forall (k' : nat) sp f,
                   spans !! k' = Some sp ->
                   emitted (__call__ [Toy.example] 6 1 64 false) !! k' = Some f ->
                   (InputFeatures.token_is_max_context f !! local_index p sp position
                    = Some true <-> k' = k).
Proof.
  split; [by vm_compute|].
  apply (max_context_one_feature Toy.example 6 1 64). by vm_compute.
Defined.

End MaxContextRun.

(** ** Concept lookups *)

Lemma fold_left_max_ge (values : list Z) :
  forall value,
    value <= fold_left Z.max values value
    /\ Forall (fun v => v <= fold_left Z.max values value) values.
Proof.
  induction values as [|v values IH]; intros value; cbn; [split; [lia|done]|].
  destruct (IH (Z.max value v)) as [Hge Hall]. split; [lia|].
  constructor; [lia|done].
Qed.

Lemma py_max_ge (values : list Z) (m : Z) :
  py_max values = Some m -> Forall (fun v => v <= m) values.
Proof.
  destruct values as [|value values]; [done|]. cbn. intros [= <-].
  destruct (fold_left_max_ge values value). by constructor.
Qed.

(** X24: when [__init__] has computed [max_wn_concept_length], a WordNet lookup
    that returns gives one row per sub-token, none of them longer than
    [max_wn_concept_length]; so the padding of the converter cuts nothing off a
    WordNet row: it only appends zeros. *)
Theorem wordnet_rows_never_truncated (lower run_strip_accents : pystr -> pystr)
    (self : Concepts.t) (sub_tokens : list pystr) (sub_to_ori_index : list Z)
    (tokens : list pystr) (tolower : bool) (m : Z) (rows : list (list Z)) :
  Concepts.max_wn_concept_length self = Some m ->
  Concepts._lookup_wordnet_concept_ids lower run_strip_accents self sub_tokens
    sub_to_ori_index tokens tolower = Some rows ->
  length rows = length sub_tokens
  /\ Forall (fun row => len row <= m) rows
  /\ pad_concept_ids (Z.to_nat m) rows
     = List.map (fun row => row ++ replicate (Z.to_nat m - length row) 0) rows.
Proof.
  intros Hmax Hrows. unfold Concepts._lookup_wordnet_concept_ids in Hrows.
  assert (Hfit : Forall (fun row => len row <= m) rows).
  { apply mapM_Some_1 in Hrows. apply Forall_forall. intros row Hrow.
    apply list_elem_of_lookup_1 in Hrow as [k Hk].
    destruct (Forall2_lookup_r _ _ _ _ _ Hrows Hk) as (index & _ & Hrow).
    unfold Concepts.wordnet_row in Hrow.
    destruct (py_index sub_to_ori_index index) as [ori_index|]; [|done].
    cbn [mbind option_bind] in Hrow.
    destruct (py_index tokens ori_index) as [original_token|]; [|done].
    cbn [mbind option_bind] in Hrow. cbv zeta in Hrow.
    set (retrieve_token := if tolower then _ else _) in Hrow.
    destruct (Concepts.synsets_info self !! retrieve_token) as [synsets|] eqn:Hsynsets.
    - apply length_mapM in Hrow. unfold len. rewrite <- Hrow.
      apply py_max_ge in Hmax. rewrite Forall_forall in Hmax.
      apply (Hmax (len synsets)).
      apply elem_of_map_to_list in Hsynsets.
      apply list_elem_of_In, in_map_iff. exists (retrieve_token, synsets).
      split; [reflexivity|]. by apply list_elem_of_In.
    - injection Hrow as <-. unfold Concepts.max_wn_concept_length in Hmax.
      destruct (map_to_list _) as [|item items]; [done|].
      apply py_max_ge, Forall_inv in Hmax. unfold len in *. cbn. lia. }
  split_and!; [|done|].
  - apply length_mapM in Hrows. rewrite range_length in Hrows. unfold len in Hrows. lia.
  - unfold pad_concept_ids. apply map_ext_Forall. eapply Forall_impl; [exact Hfit|].
    cbn. intros row Hrow. apply pad_concept_row_short. unfold len in Hrow. lia.
Qed.

Lemma wordnet_rows_never_truncated_witness :
  let sub_tokens := [str "the"; str "ca"; str "##t"; str "sat"] in
  let tokens := [str "The"; str "Cat"; str "sat"] in
  exists rows,
    Concepts.max_wn_concept_length Concepts.toy = Some 2
    /\ Concepts._lookup_wordnet_concept_ids (List.map Toy.lower) id
         Concepts.toy sub_tokens [0; 1; 1; 2] tokens true = Some rows
    /\ length rows = length sub_tokens
    /\ Forall (fun row => len row <= 2) rows
    /\ pad_concept_ids (Z.to_nat 2) rows
       = List.map (fun row => row ++ replicate (Z.to_nat 2 - length row) 0) rows.
Proof.
  cbv zeta. eexists. split; [by vm_compute|]. split; [by vm_compute|].
  refine (wordnet_rows_never_truncated (List.map Toy.lower) id Concepts.toy _
            [0; 1; 1; 2] [str "The"; str "Cat"; str "sat"] true 2 _ _ _);
    by vm_compute.
Defined.

(** ** The n best logits *)

Lemma enumerate_from_length {A} (l : list A) :
  forall a : Z, length (enumerate_from a l) = length l.
Proof. induction l as [|x l IH]; intros a; cbn; [done|]. by rewrite IH. Qed.

Lemma enumerate_from_lookup {A} (l : list A) :
  forall (a : Z) (k : nat),
    enumerate_from a l !! k = (fun x => (a + Z.of_nat k, x)) <$> l !! k.
Proof.
  induction l as [|x l IH]; intros a k; cbn; [done|].
  destruct k as [|k]; cbn.
  - by rewrite Z.add_0_r.
  - rewrite IH. destruct (l !! k); cbn; [|done]. do 2 f_equal. lia.
Qed.

Lemma insert_by_score_sorted (item : Z * Q) (sorted : list (Z * Q)) :
  StronglySorted before sorted ->
  Forall (fun item' => item.1 < item'.1) sorted ->
  StronglySorted before (insert_by_score item sorted)
  /\ insert_by_score item sorted ≡ₚ item :: sorted.
Proof.
  induction sorted as [|item' sorted IH]; intros Hsorted Hlater; cbn.
  - split; [|done]. repeat constructor.
  - apply StronglySorted_inv in Hsorted as [Hsorted Hhead].
    apply Forall_cons in Hlater as [Hitem' Hlater].
    destruct (Qgt_bool item'.2 item.2) eqn:Hgt.
    + destruct (IH Hsorted Hlater) as [IHsorted IHperm]. split.
      * constructor; [done|]. rewrite IHperm. constructor; [|done].
        left. by apply Qgt_bool_true.
      * rewrite IHperm. apply Permutation_swap.
    + split; [|done]. apply Qgt_bool_false in Hgt.
      assert (Hfirst : before item item').
      { destruct (Qlt_le_dec item'.2 item.2) as [|Hle]; [by left|right].
        split; [|done]. by apply Qle_antisym. }
      constructor; [by constructor|]. constructor; [done|].
      rewrite Forall_forall in Hhead, Hlater. apply Forall_forall. intros z Hz.
      destruct (Hhead z Hz) as [Hlt|[Heq _]].
      * left. eapply Qlt_le_trans; [exact Hlt|done].
      * destruct (Qlt_le_dec z.2 item.2) as [|Hle]; [by left|right].
        split; [|by apply Hlater]. apply Qle_antisym; [done|].
        by rewrite <- Heq.
Qed.

Lemma sorted_by_score_enumerate (logits : list Q) :
  forall a : Z,
    StronglySorted before (sorted_by_score (enumerate_from a logits))
    /\ sorted_by_score (enumerate_from a logits) ≡ₚ enumerate_from a logits.
Proof.
  induction logits as [|q logits IH]; intros a; cbn.
  - split; [constructor|done].
  - destruct (IH (a + 1)) as [Hsorted Hperm].
    destruct (insert_by_score_sorted (a, q) _ Hsorted) as [Hsorted' Hperm'].
    { apply Forall_forall. intros [idx q'] Hin. rewrite Hperm in Hin.
      apply enumerate_from_elem in Hin as (k & -> & _). cbn. lia. }
    split; [done|]. by rewrite Hperm', Hperm.
Qed.

Lemma StronglySorted_lookup {A} (R : A -> A -> Prop) (l : list A) :
  StronglySorted R l ->
  forall (a b : nat) x y, (a < b)%nat -> l !! a = Some x -> l !! b = Some y -> R x y.
Proof.
  induction 1 as [|z l Hsorted IH Hhead]; intros a b x y Hab Ha Hb; [done|].
  destruct b as [|b]; [lia|]. cbn in Hb. destruct a as [|a].
  - injection Ha as <-. rewrite Forall_forall in Hhead.
    by eapply Hhead, list_elem_of_lookup_2.
  - cbn in Ha. apply (IH a b); [lia|done..].
Qed.

Lemma best_indexes_loop_take (items : list (Z * Q)) (n_best_size : Z) :
  forall (i : Z) (best_indexes : list Z),
    0 <= i ->
    best_indexes_loop (enumerate_from i items) n_best_size best_indexes
    = best_indexes ++ List.map fst (take (Z.to_nat (n_best_size - i)) items).
Proof.
  induction items as [|item items IH]; intros i best_indexes Hi; cbn.
  - by rewrite take_nil, app_nil_r.
  - destruct (Z.geb_spec i n_best_size) as [Hge|Hlt].
    + replace (Z.to_nat (n_best_size - i)) with 0%nat by lia. by rewrite app_nil_r.
    + rewrite IH by lia. rewrite <- app_assoc.
      replace (Z.to_nat (n_best_size - i)) with (S (Z.to_nat (n_best_size - (i + 1))))
        by lia.
      done.
Qed.

(** X25: [_get_best_indexes] returns [min(max(n_best_size, 0), len(logits))]
    indexes of the list; an index listed earlier outranks every index listed
    later, and every listed index outranks every index that is left out: the
    result is the indexes of the highest logits, highest first, equal logits in
    the order of the list. *)
Theorem get_best_indexes_ranked (logits : list Q) (n_best_size : Z) :
  let best_indexes := _get_best_indexes logits n_best_size in
  length best_indexes = Nat.min (Z.to_nat n_best_size) (length logits)
  /\ (forall i, i ∈ best_indexes -> 0 <= i < len logits)
  /\ (forall (a b : nat) i j, (a < b)%nat ->
        best_indexes !! a = Some i -> best_indexes !! b = Some j ->
        outranks logits i j)
  /\ (forall i j, i ∈ best_indexes -> 0 <= j < len logits -> j ∉ best_indexes ->
        outranks logits i j).
Proof.
  cbv zeta. unfold _get_best_indexes, enumerate.
  rewrite best_indexes_loop_take by done. cbn [app]. rewrite Z.sub_0_r.
  destruct (sorted_by_score_enumerate logits 0) as [Hsorted Hperm].
  set (ranking := sorted_by_score (enumerate_from 0 logits)) in *.
  assert (Hitem : forall (c : nat) idx q, ranking !! c = Some (idx, q) ->
            0 <= idx < len logits /\ logits !! Z.to_nat idx = Some q).
  { intros c idx q Hc. apply list_elem_of_lookup_2 in Hc. rewrite Hperm in Hc.
    apply enumerate_from_elem in Hc as (k & -> & Hk).
    rewrite Z.add_0_l, Nat2Z.id. split; [|done].
    apply lookup_lt_Some in Hk. unfold len. lia. }
  assert (Hlisted : forall (c : nat) i,
            List.map fst (take (Z.to_nat n_best_size) ranking) !! c = Some i ->
            (c < Z.to_nat n_best_size)%nat
            /\ exists q, ranking !! c = Some (i, q)).
  { intros c i Hc. change List.map with (@fmap list _) in Hc.
    rewrite list_lookup_fmap in Hc.
    destruct (take _ _ !! c) as [[idx q]|] eqn:Htake; [|done]. injection Hc as <-.
    apply lookup_take_Some in Htake as [Hc ?]. split; [done|]. by exists q. }
  assert (Hranked : forall (a b : nat) i qi j qj, (a < b)%nat ->
            ranking !! a = Some (i, qi) -> ranking !! b = Some (j, qj) ->
            outranks logits i j).
  { intros a b i qi j qj Hab Ha Hb.
    destruct (Hitem _ _ _ Ha) as [Hi Hqi]. destruct (Hitem _ _ _ Hb) as [Hj Hqj].
    exists qi, qj. split_and!; try done; try lia.
    by apply (StronglySorted_lookup _ _ Hsorted a b). }
  split_and!.
  - rewrite length_map, length_take.
    by rewrite Hperm, enumerate_from_length.
  - intros i [c Hc]%list_elem_of_lookup_1. apply Hlisted in Hc as (_ & q & Hc).
    by apply Hitem in Hc as [Hc _].
  - intros a b i j Hab Ha Hb.
    apply Hlisted in Ha as (_ & qi & Ha). apply Hlisted in Hb as (_ & qj & Hb).
    by apply (Hranked a b i qi j qj).
  - intros i j [a Ha]%list_elem_of_lookup_1 Hj Hout.
    apply Hlisted in Ha as (Ha_lt & qi & Ha).
    destruct (lookup_lt_is_Some_2 logits (Z.to_nat j)) as [qj Hqj].
    { unfold len in Hj. lia. }
    assert (Hin : (j, qj) ∈ ranking).
    { rewrite Hperm. apply list_elem_of_lookup_2 with (Z.to_nat j).
      rewrite enumerate_from_lookup. rewrite Hqj. cbn. do 2 f_equal. lia. }
    apply list_elem_of_lookup_1 in Hin as [c Hc].
    destruct (Nat.lt_ge_cases c (Z.to_nat n_best_size)) as [Hc_lt|Hc_ge].
    + exfalso. apply Hout. apply list_elem_of_lookup_2 with c.
      change List.map with (@fmap list _). rewrite list_lookup_fmap.
      rewrite lookup_take_lt by done. by rewrite Hc.
    + apply (Hranked a c i qi j qj); [lia|done..].
Qed.

(** ** The picked prediction *)

Section Picked.
Context `{Evaluation}.

Lemma overlaps_existsb (candidates : list pystr) (entry : NbestPrediction.t) :
  existsb (fun candidate =>
             Qgt_bool (f1_score (NbestPrediction.text entry) candidate) 0) candidates
  = true <-> overlaps candidates entry.
Proof.
  rewrite existsb_exists. unfold overlaps.
  split; intros (candidate & Hin & Hf1); exists candidate.
  - split; [by apply list_elem_of_In|]. by apply Qgt_bool_true.
  - split; [by apply list_elem_of_In|]. by apply Qgt_bool_true.
Qed.

Lemma picked_index_from_first (candidates : list pystr) (nbest : list NbestPrediction.t) :
  forall a : Z,
    (exists (k : nat) entry,
        nbest !! k = Some entry /\ overlaps candidates entry
        /\ (forall (k' : nat) entry', (k' < k)%nat -> nbest !! k' = Some entry' ->
              ~ overlaps candidates entry')
        /\ picked_index_from candidates (enumerate_from a nbest) = a + Z.of_nat k)
    \/ (Forall (fun entry => ~ overlaps candidates entry) nbest
        /\ picked_index_from candidates (enumerate_from a nbest) = 0).
Proof.
  induction nbest as [|entry0 nbest IH]; intros a; cbn [enumerate_from picked_index_from].
  - right. by split.
  - destruct (existsb _ candidates) eqn:Hoverlap.
    + left. exists 0%nat, entry0. split_and!; [done| |lia|lia].
      by apply overlaps_existsb.
    + assert (Hno : ~ overlaps candidates entry0).
      { intros Hyes%overlaps_existsb. congruence. }
      destruct (IH (a + 1)) as [(k & entry & Hk & Hyes & Hfirst & ->)|[Hall ->]].
      * left. exists (S k), entry. split_and!; [done..| |lia].
        intros [|k'] entry' Hlt Hk'; [by injection Hk' as <-|].
        apply (Hfirst k'); [lia|done].
      * right. split; [by constructor|done].
Qed.

End Picked.

(** X26: without the null option ([version_2_with_negative] off), the stored
    prediction of an example with a non-empty n-best list is the text of the
    first entry that has a positive F1 score with one of the candidates, and
    the text of the very first entry when no entry has. *)
Theorem picked_prediction_first_overlap `{Evaluation} (nbest : list NbestPrediction.t)
    (candidates : list pystr) (score_null null_score_diff_threshold : float64) :
  nbest <> [] ->
  exists (k : nat) entry,
    nbest !! k = Some entry
    /\ final_prediction false nbest candidates score_null null_score_diff_threshold
       = Some (NbestPrediction.text entry)
    /\ (forall (k' : nat) entry', (k' < k)%nat -> nbest !! k' = Some entry' ->
          ~ overlaps candidates entry')
    /\ (overlaps candidates entry
        \/ (k = 0%nat /\ Forall (fun entry' => ~ overlaps candidates entry') nbest)).
Proof.
  intros Hnbest. unfold final_prediction, enumerate. cbn [negb]. cbv zeta.
  destruct (picked_index_from_first candidates nbest 0)
    as [(k & entry & Hk & Hyes & Hfirst & ->)|[Hall ->]].
  - exists k, entry. split_and!; [done| |done|by left].
    unfold py_index. rewrite Z.add_0_l.
    destruct (Z.leb_spec 0 (Z.of_nat k)); [|lia]. by rewrite Nat2Z.id, Hk.
  - destruct nbest as [|entry nbest]; [done|].
    exists 0%nat, entry. split_and!; [done..| |by right]. intros k'. lia.
Qed.

Section PickedRun.
Existing Instance Toy.evaluation.

Lemma picked_prediction_first_overlap_witness :
  let nbest := [NbestPrediction.mk (str "x") 3 2; NbestPrediction.mk (str "b") 2 2;
                NbestPrediction.mk (str "a") 1 1] in
  let candidates := [str "a"; str "b"] in
  nbest <> []
  /\ final_prediction false nbest candidates (float_of_Z 0) (float_of_Z 0)
     = Some (str "b")
  /\ exists (k : nat) entry,
       nbest !! k = Some entry
       /\ final_prediction false nbest candidates (float_of_Z 0) (float_of_Z 0)
          = Some (NbestPrediction.text entry)
       /\ (forall (k' : nat) entry', (k' < k)%nat -> nbest !! k' = Some entry' ->
             ~ overlaps candidates entry')
       /\ (overlaps candidates entry
           \/ (k = 0%nat /\ Forall (fun entry' => ~ overlaps candidates entry') nbest)).
Proof.
  cbv zeta. split; [done|]. split; [by vm_compute|].
  by apply (picked_prediction_first_overlap
              [NbestPrediction.mk (str "x") 3 2; NbestPrediction.mk (str "b") 2 2;
               NbestPrediction.mk (str "a") 1 1] [str "a"; str "b"]
              (float_of_Z 0) (float_of_Z 0)).
Defined.

End PickedRun.

(** ** NELL concept lookup *)

Lemma elem_of_range (a b pos : Z) : pos ∈ range a b <-> a <= pos < b.
Proof.
  unfold range. rewrite list_elem_of_In, in_map_iff. split.
  - intros (k & <- & Hk%in_seq). lia.
  - intros Hpos. exists (Z.to_nat (pos - a)). split; [lia|]. apply in_seq. lia.
Qed.

Lemma py_index_slot {A} (l : list A) (i : Z) (x : A) :
  py_index l i = Some x ->
  exists j : nat, Z.of_nat j = slot (len l) i /\ l !! j = Some x.
Proof.
  unfold py_index, slot. destruct (Z.leb_spec 0 i) as [Hi|Hi].
  - intros Hx. exists (Z.to_nat i). split; [lia|done].
  - destruct (Z.leb_spec (- len l) i) as [Hlow|]; [|done].
    intros Hx. exists (Z.to_nat (len l + i)). split; [lia|done].
Qed.

Lemma rows_hold_iff (rows : list (list Z)) (P Q : nat -> Z -> Prop) :
  rows_hold rows P -> (forall j id, P j id <-> Q j id) -> rows_hold rows Q.
Proof. intros Hrows HPQ j row Hj id. rewrite <- HPQ. by apply Hrows. Qed.

Lemma extend_at_hold (rows rows' : list (list Z)) (pos : Z) (ids : list Z)
    (P : nat -> Z -> Prop) :
  Concepts.extend_at rows pos ids = Some rows' ->
  rows_hold rows P ->
  length rows' = length rows
  /\ rows_hold rows'
       (fun j id => P j id \/ (Z.of_nat j = slot (len rows) pos /\ id ∈ ids)).
Proof.
  assert (Hinsert : forall k row,
    rows !! k = Some row -> Z.of_nat k = slot (len rows) pos ->
    rows_hold rows P ->
    length (<[k := row ++ ids]> rows) = length rows
    /\ rows_hold (<[k := row ++ ids]> rows)
         (fun j id => P j id \/ (Z.of_nat j = slot (len rows) pos /\ id ∈ ids))).
  { intros k row Hk Hslot Hrows. split; [by rewrite length_insert|].
    intros j row' Hj id. destruct (decide (j = k)) as [->|Hne].
    - rewrite list_lookup_insert_eq in Hj by by eapply lookup_lt_Some.
      injection Hj as <-. rewrite elem_of_app, (Hrows k row Hk id). intuition.
    - rewrite list_lookup_insert_ne in Hj by done.
      rewrite (Hrows j row' Hj id). split; [by left|]. intros [|[Hj' _]]; [done|lia]. }
  unfold Concepts.extend_at. destruct (Z.leb_spec 0 pos) as [Hpos|Hpos].
  - destruct (rows !! Z.to_nat pos) as [row|] eqn:Hrow; [|done].
    intros [= <-]. apply Hinsert; [done|]. unfold slot.
    destruct (Z.leb_spec 0 pos); lia.
  - destruct (Z.leb_spec (- len rows) pos) as [Hlow|]; [|done].
    destruct (rows !! Z.to_nat (len rows + pos)) as [row|] eqn:Hrow; [|done].
    intros [= <-]. apply Hinsert; [done|]. unfold slot.
    destruct (Z.leb_spec 0 pos); lia.
Qed.

Lemma extend_positions_hold (self : Concepts.t) (entity_info : EntityInfo)
    (positions : list Z) :
  forall (rows rows' : list (list Z)) (P : nat -> Z -> Prop),
    Concepts.extend_positions self entity_info positions rows = Some rows' ->
    rows_hold rows P ->
    length rows' = length rows
    /\ rows_hold rows'
         (fun j id =>
            P j id
            \/ exists pos category_name,
                 pos ∈ positions
                 /\ category_name ∈ retrieved_concepts entity_info
                 /\ Concepts.nell_concept2id self !! category_name = Some id
                 /\ Z.of_nat j = slot (len rows) pos).
Proof.
  induction positions as [|pos positions IH]; intros rows rows' P Hrun Hrows;
    cbn [Concepts.extend_positions] in Hrun.
  - injection Hrun as <-. split; [done|]. eapply rows_hold_iff; [exact Hrows|].
    intros j id. split; [by left|]. intros [|(pos & name & []%elem_of_nil & _)]; done.
  - destruct (mapM _ _) as [ids|] eqn:Hids; [|done]. cbn [mbind option_bind] in Hrun.
    destruct (Concepts.extend_at rows pos ids) as [rows1|] eqn:Hat; [|done].
    cbn [mbind option_bind] in Hrun.
    destruct (extend_at_hold _ _ _ _ P Hat Hrows) as [Hlen1 Hrows1].
    destruct (IH _ _ _ Hrun Hrows1) as [Hlen' Hrows'].
    split; [by rewrite Hlen', Hlen1|].
    eapply rows_hold_iff; [exact Hrows'|]. intros j id. cbn beta.
    assert (Hids' : id ∈ ids <->
              exists category_name,
                category_name ∈ retrieved_concepts entity_info
                /\ Concepts.nell_concept2id self !! category_name = Some id).
    { apply mapM_Some_1 in Hids. split.
      - intros [k Hk]%list_elem_of_lookup_1.
        destruct (Forall2_lookup_r _ _ _ _ _ Hids Hk) as (name & Hname & Hid).
        exists name. split; [by eapply list_elem_of_lookup_2|done].
      - intros (name & [k Hk]%list_elem_of_lookup_1 & Hid).
        destruct (Forall2_lookup_l _ _ _ _ _ Hids Hk) as (id' & Hid' & Heq).
        assert (id' = id) as -> by congruence. by eapply list_elem_of_lookup_2. }
    assert (Hlen : len rows1 = len rows) by (unfold len; by rewrite Hlen1).
    rewrite Hlen, Hids'. split.
    + intros [[HP|(Hslot & name & Hname & Hid)]|(pos' & name & Hin & Hname & Hid & Hslot)].
      * by left.
      * right. exists pos, name. split_and!; [left|done..].
      * right. exists pos', name. split_and!; [by right|done..].
    + intros [HP|(pos' & name & Hin & Hname & Hid & Hslot)]; [by left; left|].
      apply elem_of_cons in Hin as [->|Hin].
      * left. right. split; [done|]. by exists name.
      * right. by exists pos', name.
Qed.

Lemma extend_entities_hold (self : Concepts.t) (nell_info : list EntityInfo) :
  forall (rows rows' : list (list Z)) (P : nat -> Z -> Prop),
    Concepts.extend_entities self nell_info rows = Some rows' ->
    rows_hold rows P ->
    length rows' = length rows
    /\ rows_hold rows'
         (fun j id =>
            P j id
            \/ exists entity_info category_name pos,
                 entity_info ∈ nell_info
                 /\ category_name ∈ retrieved_concepts entity_info
                 /\ Concepts.nell_concept2id self !! category_name = Some id
                 /\ token_start entity_info <= pos <= token_end entity_info
                 /\ Z.of_nat j = slot (len rows) pos).
Proof.
  induction nell_info as [|entity_info nell_info IH]; intros rows rows' P Hrun Hrows;
    cbn [Concepts.extend_entities] in Hrun.
  - injection Hrun as <-. split; [done|]. eapply rows_hold_iff; [exact Hrows|].
    intros j id. split; [by left|].
    intros [|(e & name & pos & []%elem_of_nil & _)]; done.
  - destruct (Concepts.extend_positions _ _ _ _) as [rows1|] eqn:Hpositions; [|done].
    cbn [mbind option_bind] in Hrun.
    destruct (extend_positions_hold _ _ _ _ _ P Hpositions Hrows) as [Hlen1 Hrows1].
    destruct (IH _ _ _ Hrun Hrows1) as [Hlen' Hrows'].
    split; [by rewrite Hlen', Hlen1|].
    eapply rows_hold_iff; [exact Hrows'|]. intros j id. cbn beta.
    assert (Hlen : len rows1 = len rows) by (unfold len; by rewrite Hlen1).
    rewrite Hlen. split.
    + intros [[HP|(pos & name & Hin & Hname & Hid & Hslot)]
             |(e & name & pos & Hin & Hname & Hid & Hpos & Hslot)].
      * by left.
      * right. exists entity_info, name, pos. apply elem_of_range in Hin.
        split_and!; [left|done|done|lia|lia|done].
      * right. exists e, name, pos. split; [by right|]. tauto.
    + intros [HP|(e & name & pos & Hin & Hname & Hid & Hpos & Hslot)]; [by left; left|].
      apply elem_of_cons in Hin as [->|Hin].
      * left. right. exists pos, name. split_and!; [|done..].
        apply elem_of_range. lia.
      * right. by exists e, name, pos.
Qed.

(** X27: with a [list(set(..))] that returns each id once, a NELL lookup that
    returns gives one row per sub-token; the row of a sub-token has no
    repetition and holds exactly the ids of the categories of the entities
    that cover the word the sub-token comes from. *)
Theorem nell_rows_characterized (list_of_set : list Z -> list Z) (self : Concepts.t)
    (sub_tokens : list pystr) (sub_to_ori_index : list Z) (tokens : list pystr)
    (nell_info : list EntityInfo) (rows : list (list Z)) :
  lists_set list_of_set ->
  Concepts._lookup_nell_concept_ids list_of_set self sub_tokens sub_to_ori_index
    tokens nell_info = Some rows ->
  length rows = length sub_tokens
  /\ forall (k : nat) row, rows !! k = Some row ->
       exists ori_index,
         py_index sub_to_ori_index (Z.of_nat k) = Some ori_index
         /\ NoDup row
         /\ forall id, id ∈ row <-> nell_concept_of self nell_info (len tokens) ori_index id.
Proof.
  intros Hset Hrows. unfold Concepts._lookup_nell_concept_ids in Hrows.
  cbv zeta in Hrows.
  destruct (Concepts.extend_entities _ _ _) as [original|] eqn:Horiginal; [|done].
  cbn [mbind option_bind] in Hrows.
  destruct (extend_entities_hold _ _ _ _ (fun _ _ => False) Horiginal)
    as [Hlen Horiginal'].
  { intros j row [-> _]%lookup_replicate id. split; [by intros ?%elem_of_nil|done]. }
  rewrite length_replicate in Hlen.
  split.
  - apply length_mapM in Hrows. rewrite range_length in Hrows. unfold len in Hrows. lia.
  - intros k row Hk. apply mapM_Some_1 in Hrows.
    destruct (Forall2_lookup_r _ _ _ _ _ Hrows Hk) as (index & Hindex & Hrow).
    assert (index = Z.of_nat k) as ->.
    { pose proof (lookup_lt_Some _ _ _ Hindex) as Hlt. rewrite range_length in Hlt.
      rewrite range_lookup in Hindex by done. injection Hindex as <-. lia. }
    destruct (py_index sub_to_ori_index (Z.of_nat k)) as [ori_index|]; [|done].
    cbn [mbind option_bind] in Hrow. exists ori_index. split; [done|].
    apply py_index_slot in Hrow as (j & Hslot & Hj).
    change List.map with (@fmap list _) in Hj, Hslot.
    rewrite list_lookup_fmap in Hj.
    destruct (original !! j) as [ids|] eqn:Hids; [|done]. injection Hj as <-.
    destruct (Hset ids) as [Hnodup Hsame]. split; [done|].
    intros id. rewrite Hsame, (Horiginal' j ids Hids id).
    unfold len in Hslot. rewrite length_fmap, Hlen in Hslot.
    unfold nell_concept_of, len. rewrite length_replicate. split.
    + intros [[]|(e & name & pos & Hin & Hname & Hid & Hpos & Hpos')].
      exists e, name, pos. split; [done|]. split; [done|]. split; [done|].
      split; [done|]. congruence.
    + intros (e & name & pos & Hin & Hname & Hid & Hpos & Hpos'). right.
      exists e, name, pos. split; [done|]. split; [done|]. split; [done|].
      split; [done|]. congruence.
Qed.

Lemma nell_rows_characterized_witness :
  let sub_tokens := [str "my"; str "ca"; str "##t"] in
  let tokens := [str "my"; str "cat"] in
  let nell_info := [{| token_start := 1; token_end := 1;
                       retrieved_concepts := [str "animal"; str "pet"] |};
                    {| token_start := 0; token_end := 1;
                       retrieved_concepts := [str "pet"] |}] in
  lists_set remove_dups
  /\ Concepts._lookup_nell_concept_ids remove_dups Concepts.toy sub_tokens [0; 1; 1]
       tokens nell_info = Some [[4]; [3; 4]; [3; 4]]
  /\ length [[4]; [3; 4]; [3; 4]] = length sub_tokens
  /\ forall (k : nat) row, [[4]; [3; 4]; [3; 4]] !! k = Some row ->
       exists ori_index,
         py_index [0; 1; 1] (Z.of_nat k) = Some ori_index
         /\ NoDup row
         /\ forall id, id ∈ row
              <-> nell_concept_of Concepts.toy nell_info (len tokens) ori_index id.
Proof.
  cbv zeta.
  assert (Hset : lists_set remove_dups).
  { intros ids. split; [apply NoDup_remove_dups|]. intros id.
    apply elem_of_remove_dups. }
  split; [done|]. split; [by vm_compute|].
  apply (nell_rows_characterized remove_dups Concepts.toy
           [str "my"; str "ca"; str "##t"] [0; 1; 1] [str "my"; str "cat"]
           [{| token_start := 1; token_end := 1;
               retrieved_concepts := [str "animal"; str "pet"] |};
            {| token_start := 0; token_end := 1;
               retrieved_concepts := [str "pet"] |}]
           [[4]; [3; 4]; [3; 4]] Hset).
  by vm_compute.
Defined.

(** ** The n-best list *)

Section NbestList.
Context `{Tokenization}.

(** What the loop over the candidates keeps true of [(seen_predictions, nbest)]:
    the texts of the entries are the seen texts, and no two entries share a
    non-empty text. *)
Lemma nbest_loop_invariant (features : list InputFeatures.t) (example : ReCoRDExample.t)
    (n_best_size : Z) (do_lower_case : bool) (prelim : list PrelimPrediction.t) :
  forall seen nbest seen' nbest',
    nbest_loop features example n_best_size do_lower_case prelim seen nbest
    = Some (seen', nbest') ->
    (forall text, text ∈ seen <-> exists entry, entry ∈ nbest
                                    /\ NbestPrediction.text entry = text) ->
    (forall (a b : nat) ea eb, nbest !! a = Some ea -> nbest !! b = Some eb ->
       NbestPrediction.text ea = NbestPrediction.text eb ->
       NbestPrediction.text ea <> [] -> a = b) ->
    (forall text, text ∈ seen' <-> exists entry, entry ∈ nbest'
                                     /\ NbestPrediction.text entry = text)
    /\ (forall (a b : nat) ea eb, nbest' !! a = Some ea -> nbest' !! b = Some eb ->
          NbestPrediction.text ea = NbestPrediction.text eb ->
          NbestPrediction.text ea <> [] -> a = b)
    /\ len nbest' <= Z.max (len nbest) n_best_size.
Proof.
  assert (Hadd : forall seen nbest entry,
    (forall text, text ∈ seen <-> exists entry, entry ∈ nbest
                                    /\ NbestPrediction.text entry = text) ->
    (forall (a b : nat) ea eb, nbest !! a = Some ea -> nbest !! b = Some eb ->
       NbestPrediction.text ea = NbestPrediction.text eb ->
       NbestPrediction.text ea <> [] -> a = b) ->
    (NbestPrediction.text entry ∈ seen -> NbestPrediction.text entry = []) ->
    (forall text,
       text ∈ (if bool_decide (NbestPrediction.text entry ∈ seen) then seen
               else seen ++ [NbestPrediction.text entry])
       <-> exists entry', entry' ∈ nbest ++ [entry]
                          /\ NbestPrediction.text entry' = text)
    /\ (forall (a b : nat) ea eb,
          (nbest ++ [entry]) !! a = Some ea -> (nbest ++ [entry]) !! b = Some eb ->
          NbestPrediction.text ea = NbestPrediction.text eb ->
          NbestPrediction.text ea <> [] -> a = b)).
  { intros seen nbest entry Hseen Hdistinct Hfresh. split.
    - intros text. case_bool_decide as Hin.
      + rewrite Hseen. split.
        * intros (e & He & Htext). exists e. split; [|done].
          apply elem_of_app. by left.
        * intros (e & [He|Heq%list_elem_of_singleton]%elem_of_app & Htext).
          -- by exists e.
          -- subst e. apply Hseen. by rewrite <- Htext.
      + rewrite elem_of_app, list_elem_of_singleton, Hseen. split.
        * intros [(e & He & Htext)| ->].
          -- exists e. split; [|done]. apply elem_of_app. by left.
          -- exists entry. split; [|done]. apply elem_of_app. right. by left.
        * intros (e & [He|Heq%list_elem_of_singleton]%elem_of_app & Htext).
          -- left. by exists e.
          -- subst e. by right.
    - intros a b ea eb Ha Hb Htext Hnonempty.
      apply lookup_snoc_Some in Ha as [[Ha_lt Ha]|[-> <-]];
        apply lookup_snoc_Some in Hb as [[Hb_lt Hb]|[-> <-]].
      + by eapply Hdistinct.
      + exfalso. apply Hnonempty. rewrite Htext. apply Hfresh, Hseen.
        exists ea. split; [by eapply list_elem_of_lookup_2|done].
      + exfalso. apply Hnonempty. rewrite Htext in Hnonempty |- *.
        rewrite <- Htext. apply Hfresh, Hseen.
        exists eb. split; [by eapply list_elem_of_lookup_2|done].
      + done. }
  induction prelim as [|pred prelim IH]; intros seen nbest seen' nbest' Hrun Hseen Hdistinct;
    cbn [nbest_loop] in Hrun.
  - injection Hrun as <- <-. split_and!; [done..|lia].
  - destruct (Z.geb_spec (len nbest) n_best_size) as [Hfull|Hroom].
    { injection Hrun as <- <-. split_and!; [done..|lia]. }
    destruct (py_index features _) as [feature|]; [|done].
    cbn [mbind option_bind] in Hrun.
    destruct (PrelimPrediction.start_index pred >? 0).
    + destruct (prediction_text _ _ _ _) as [final_text|]; [|done].
      cbn [mbind option_bind] in Hrun.
      case_bool_decide as Hin.
      * by apply IH in Hrun.
      * set (entry := NbestPrediction.mk final_text (PrelimPrediction.start_logit pred)
                        (PrelimPrediction.end_logit pred)) in *.
        destruct (Hadd seen nbest entry Hseen Hdistinct) as [Hseen1 Hdistinct1];
          [done|].
        rewrite bool_decide_eq_false_2 in Hseen1 by done.
        destruct (IH _ _ _ _ Hrun Hseen1 Hdistinct1) as (? & ? & Hsize).
        split_and!; [done..|]. rewrite len_app in Hsize. unfold len in *. cbn in *. lia.
    + cbv zeta in Hrun.
      set (entry := NbestPrediction.mk [] (PrelimPrediction.start_logit pred)
                      (PrelimPrediction.end_logit pred)) in *.
      destruct (Hadd seen nbest entry Hseen Hdistinct) as [Hseen1 Hdistinct1];
        [done|].
      destruct (IH _ _ _ _ Hrun Hseen1 Hdistinct1) as (? & ? & Hsize).
      split_and!; [done..|]. rewrite len_app in Hsize. unfold len in *. cbn in *. lia.
Qed.

End NbestList.

(** X28: the n-best list of an example is never empty (the assertion of line
    894 cannot fail); it holds at most [max(n_best_size, 0)] entries, one more
    with the null option, and at least one in any case; no two entries share
    a non-empty text; and with the null option it always holds an entry with
    the empty text. *)
Theorem nbest_well_formed `{Tokenization} (features : list InputFeatures.t)
    (example : ReCoRDExample.t) (n_best_size : Z)
    (do_lower_case version_2_with_negative : bool) (null_start_logit null_end_logit : Q)
    (prelim_predictions : list PrelimPrediction.t) (nbest : list NbestPrediction.t) :
  nbest_of features example n_best_size do_lower_case version_2_with_negative
    null_start_logit null_end_logit prelim_predictions = Some nbest ->
  nbest <> []
  /\ len nbest <= Z.max 1 (Z.max 0 n_best_size
                           + (if version_2_with_negative then 1 else 0))
  /\ (forall (a b : nat) ea eb, nbest !! a = Some ea -> nbest !! b = Some eb ->
        NbestPrediction.text ea = NbestPrediction.text eb ->
        NbestPrediction.text ea <> [] -> a = b)
  /\ (version_2_with_negative = true ->
      exists entry, entry ∈ nbest /\ NbestPrediction.text entry = []).
Proof.
  unfold nbest_of. intros Hrun.
  destruct (nbest_loop _ _ _ _ _ _ _) as [[seen nbest0]|] eqn:Hloop; [|done].
  cbn [mbind option_bind] in Hrun. cbv zeta in Hrun.
  apply nbest_loop_invariant in Hloop as (Hseen & Hdistinct & Hsize).
  2: { intros text. split; [by intros ?%elem_of_nil|].
       by intros (? & ?%elem_of_nil & _). }
  2: { intros a b ea eb Ha. done. }
  change (len []) with 0 in Hsize.
  destruct version_2_with_negative; cbn [andb] in Hrun.
  - case_bool_decide as Hnull; cbn [negb] in Hrun.
    + destruct nbest0 as [|entry0 nbest0].
      { apply Hseen in Hnull as (? & ?%elem_of_nil & _). done. }
      injection Hrun as <-. split_and!; [done|lia|done|].
      intros _. by apply Hseen.
    + destruct (nbest0 ++ _) as [|entry1 nbest1] eqn:Happ.
      { by apply app_eq_nil in Happ as [_ ?]. }
      injection Hrun as <-. rewrite <- Happ. split_and!.
      * by intros [_ ?]%app_eq_nil.
      * rewrite len_app. unfold len at 2. cbn. lia.
      * intros a b ea eb Ha Hb Htext Hnonempty.
        apply lookup_snoc_Some in Ha as [[Ha_lt Ha]|[-> <-]];
          apply lookup_snoc_Some in Hb as [[Hb_lt Hb]|[-> <-]].
        -- by eapply Hdistinct.
        -- cbn in Htext. congruence.
        -- cbn in Hnonempty. congruence.
        -- done.
      * intros _. eexists. split; [apply elem_of_app; right; by left|done].
  - destruct nbest0 as [|entry0 nbest0]; injection Hrun as <-.
    + split_and!; [done|unfold len; cbn; lia| |done].
      intros [|a] [|b] ea eb Ha Hb; done.
    + split_and!; [done|lia|done|done].
Qed.

Section NbestRun.
Existing Instances Toy.tokenization Toy.converter.

Lemma nbest_well_formed_witness :
  let features := emitted (__call__ [Toy.example] 6 1 64 false) in
  let prelim_predictions :=
    [PrelimPrediction.mk 0 3 4 5 4; PrelimPrediction.mk 1 3 3 4 4;
     PrelimPrediction.mk 0 3 3 5 1; PrelimPrediction.mk 1 4 4 1 2] in
  exists nbest,
    nbest_of features Toy.example 3 true true 1 1 prelim_predictions = Some nbest
    /\ List.map NbestPrediction.text nbest = [str "a b"; str "b"; str "a"; []]
    /\ nbest <> []
    /\ len nbest <= Z.max 1 (Z.max 0 3 + 1)
    /\ (forall (a b : nat) ea eb, nbest !! a = Some ea -> nbest !! b = Some eb ->
          NbestPrediction.text ea = NbestPrediction.text eb ->
          NbestPrediction.text ea <> [] -> a = b)
    /\ (true = true -> exists entry, entry ∈ nbest /\ NbestPrediction.text entry = []).
Proof.
  cbv zeta.
  destruct (nbest_of (emitted (__call__ [Toy.example] 6 1 64 false)) Toy.example 3
              true true 1 1
              [PrelimPrediction.mk 0 3 4 5 4; PrelimPrediction.mk 1 3 3 4 4;
               PrelimPrediction.mk 0 3 3 5 1; PrelimPrediction.mk 1 4 4 1 2])
    as [nbest|] eqn:Hnbest; [|by vm_compute in Hnbest].
  exists nbest. split; [done|]. split.
  { revert Hnbest. vm_compute. by intros [= <-]. }
  exact (nbest_well_formed _ _ _ _ _ _ _ _ _ Hnbest).
Defined.

End NbestRun.

(** ** The candidates of a feature *)

Lemma get_best_indexes_valid (logits : list Q) (n_best_size i : Z) :
  i ∈ _get_best_indexes logits n_best_size -> 0 <= i < len logits.
Proof.
  unfold _get_best_indexes, enumerate. rewrite best_indexes_loop_take by done.
  cbn [app]. rewrite list_elem_of_In, in_map_iff.
  intros ([idx q] & <- & Hin%list_elem_of_In). apply elem_of_take in Hin as (c & Hc & _).
  apply list_elem_of_lookup_2 in Hc.
  rewrite (proj2 (sorted_by_score_enumerate logits 0)) in Hc.
  apply enumerate_from_elem in Hc as (k & -> & Hk). apply lookup_lt_Some in Hk.
  unfold len. cbn. lia.
Qed.

Lemma py_index_is_Some {A} (l : list A) (i : Z) :
  0 <= i < len l -> is_Some (py_index l i).
Proof.
  intros Hi. unfold py_index. destruct (Z.leb_spec 0 i); [|lia].
  apply lookup_lt_is_Some_2. unfold len in Hi. lia.
Qed.

(** What the filters of the two loops leave through. *)
Lemma candidate_kept (feature_index : Z) (feature : InputFeatures.t)
    (result : RawResult.t) (max_answer_length start_index end_index : Z)
    (pred : PrelimPrediction.t) :
  candidate feature_index feature result max_answer_length start_index end_index
  = Some (Some pred) ->
  pred = PrelimPrediction.mk feature_index start_index end_index
           (PrelimPrediction.start_logit pred) (PrelimPrediction.end_logit pred)
  /\ is_Some (InputFeatures.token_to_orig_map feature !! start_index)
  /\ is_Some (InputFeatures.token_to_orig_map feature !! end_index)
  /\ InputFeatures.token_is_max_context feature !! start_index = Some true
  /\ start_index <= end_index
  /\ end_index - start_index + 1 <= max_answer_length
  /\ py_index (RawResult.start_logits result) start_index
     = Some (PrelimPrediction.start_logit pred)
  /\ py_index (RawResult.end_logits result) end_index
     = Some (PrelimPrediction.end_logit pred).
Proof.
  unfold candidate.
  destruct (_ >=? _); [done|]. destruct (_ >=? _); [done|].
  case_bool_decide as Hstart; [|done]. case_bool_decide as Hend; [|done]. cbn [negb].
  destruct (InputFeatures.token_is_max_context feature !! start_index) as [[|]|];
    cbn [default negb]; [|done..].
  destruct (Z.ltb_spec end_index start_index); [done|]. cbv zeta.
  destruct (Z.gtb_spec (end_index - start_index + 1) max_answer_length); [done|].
  destruct (py_index (RawResult.start_logits result) start_index) as [start_logit|];
    [|done].
  destruct (py_index (RawResult.end_logits result) end_index) as [end_logit|]; [|done].
  cbn [mbind option_bind]. intros [= <-]. by split_and!.
Qed.

Section Candidates.
Context `{Tokenization} `{Converter}.

(** The keys of [token_to_orig_map] are an interval that starts after
    [[CLS]] and the first [[SEP]]. *)
Lemma feature_keys_interval (examples : list ReCoRDExample.t)
    (max_seq_length doc_stride max_query_length : Z) (is_training : bool)
    (f : InputFeatures.t) :
  f ∈ emitted (__call__ examples max_seq_length doc_stride max_query_length
                 is_training) ->
  exists lo hi : Z,
    2 <= lo
    /\ forall j : Z, is_Some (InputFeatures.token_to_orig_map f !! j) <-> lo <= j < hi.
Proof.
  unfold __call__.
  intros (exi & ex & p & spans & k & sp & u & _ & _ & _ & _ & Hf)%convert_examples_provenance.
  apply feature_of_span_fields in Hf as (d & Hd & -> & _).
  apply draft_of_span_layout in Hd as (slice & _ & _ & _ & _ & _ & Hat & Hout).
  cbn zeta in Hat, Hout. cbn [InputFeatures.token_to_orig_map].
  set (query := List.map _ _) in *.
  exists (len query + 2), (len query + 2 + len slice).
  split; [unfold len; lia|]. intros j. split.
  - intros Hsome.
    destruct (decide (len query + 2 <= j < len query + 2 + len slice)) as [|Hno];
      [done|]. apply Hout in Hno as [Hno _]. rewrite Hno in Hsome. by destruct Hsome.
  - intros Hj.
    destruct (Hat (Z.to_nat (j - (len query + 2)))) as (_ & orig & _ & _ & _ & Hm & _).
    { unfold len in *. lia. }
    replace (len query + 2 + Z.of_nat (Z.to_nat (j - (len query + 2)))) with j
      in Hm by lia.
    by rewrite Hm.
Qed.

End Candidates.

(** X29: collecting the candidates of a feature never raises; and for a
    feature that the converter yields, every candidate is a non-null
    prediction ([start_index > 0]) of at most [max_answer_length] tokens that
    lies inside the document slice: every position from its start to its end
    is a key of [token_to_orig_map], its start is flagged as max-context, and
    its logits are those of its start and end positions. *)
Theorem candidates_inside_document `{Tokenization} `{Converter}
    (examples : list ReCoRDExample.t)
    (max_seq_length doc_stride max_query_length : Z) (is_training : bool)
    (f : InputFeatures.t) (feature_index : Z) (result : RawResult.t)
    (n_best_size max_answer_length : Z) :
  f ∈ emitted (__call__ examples max_seq_length doc_stride max_query_length
                 is_training) ->
  exists prelim_predictions,
    feature_candidates feature_index f result n_best_size max_answer_length
    = Some prelim_predictions
    /\ forall pred, pred ∈ prelim_predictions ->
         PrelimPrediction.feature_index pred = feature_index
         /\ 0 < PrelimPrediction.start_index pred <= PrelimPrediction.end_index pred
         /\ PrelimPrediction.end_index pred - PrelimPrediction.start_index pred + 1
            <= max_answer_length
         /\ (forall j : Z,
               PrelimPrediction.start_index pred <= j <= PrelimPrediction.end_index pred ->
               is_Some (InputFeatures.token_to_orig_map f !! j))
         /\ InputFeatures.token_is_max_context f !! PrelimPrediction.start_index pred
            = Some true
         /\ py_index (RawResult.start_logits result) (PrelimPrediction.start_index pred)
            = Some (PrelimPrediction.start_logit pred)
         /\ py_index (RawResult.end_logits result) (PrelimPrediction.end_index pred)
            = Some (PrelimPrediction.end_logit pred).
Proof.
  intros (lo & hi & Hlo & Hkeys)%feature_keys_interval.
  unfold feature_candidates. cbv zeta.
  destruct (mapM _ (_get_best_indexes (RawResult.start_logits result) n_best_size))
    as [rows|] eqn:Hrows.
  - eexists. split; [done|]. intros pred Hpred.
    apply list_elem_of_omap in Hpred as (kept & Hkept & Hid). cbn in Hid. subst kept.
    apply list_elem_of_In, in_concat in Hkept as (row & Hrow & Hin).
    apply list_elem_of_In in Hrow, Hin.
    apply mapM_Some_1 in Hrows.
    apply list_elem_of_lookup_1 in Hrow as [a Ha].
    destruct (Forall2_lookup_r _ _ _ _ _ Hrows Ha) as (start_index & _ & Hrow).
    apply mapM_Some_1 in Hrow.
    apply list_elem_of_lookup_1 in Hin as [b Hb].
    destruct (Forall2_lookup_r _ _ _ _ _ Hrow Hb) as (end_index & _ & Hcandidate).
    apply candidate_kept in Hcandidate
      as (Hpred & Hstart & Hend & Hflag & Horder & Hlength & Hstart_logit & Hend_logit).
    rewrite Hpred. cbn. apply Hkeys in Hstart, Hend.
    split_and!; try done; try lia. intros j Hj. apply Hkeys. lia.
  - exfalso. apply mapM_None_1, Exists_exists in Hrows as (start_index & Hstart & Hrow).
    apply mapM_None_1, Exists_exists in Hrow as (end_index & Hend & Hcandidate).
    apply get_best_indexes_valid in Hstart, Hend.
    apply (py_index_is_Some (RawResult.start_logits result)) in Hstart as [? Hstart].
    apply (py_index_is_Some (RawResult.end_logits result)) in Hend as [? Hend].
    unfold candidate in Hcandidate. rewrite Hstart, Hend in Hcandidate.
    repeat case_match; done.
Qed.

Section CandidatesRun.
Existing Instances Toy.tokenization Toy.converter.

Lemma candidates_inside_document_witness :
  let result := RawResult.mk 1000000000 [0; 0; 0; 5; 1; 0]%Q [0; 0; 0; 1; 4; 0]%Q in
  exists f prelim_predictions,
    head (emitted (__call__ [Toy.example] 6 1 64 false)) = Some f
    /\ feature_candidates 0 f result 2 5 = Some prelim_predictions
    /\ List.map (fun pred => (PrelimPrediction.start_index pred,
                              PrelimPrediction.end_index pred)) prelim_predictions
       = [(3, 4); (3, 3); (4, 4)]
    /\ forall pred, pred ∈ prelim_predictions ->
         PrelimPrediction.feature_index pred = 0
         /\ 0 < PrelimPrediction.start_index pred <= PrelimPrediction.end_index pred
         /\ PrelimPrediction.end_index pred - PrelimPrediction.start_index pred + 1 <= 5
         /\ (forall j : Z,
               PrelimPrediction.start_index pred <= j <= PrelimPrediction.end_index pred ->
               is_Some (InputFeatures.token_to_orig_map f !! j))
         /\ InputFeatures.token_is_max_context f !! PrelimPrediction.start_index pred
            = Some true
         /\ py_index (RawResult.start_logits result) (PrelimPrediction.start_index pred)
            = Some (PrelimPrediction.start_logit pred)
         /\ py_index (RawResult.end_logits result) (PrelimPrediction.end_index pred)
            = Some (PrelimPrediction.end_logit pred).
Proof.
  cbv zeta.
  destruct (head (emitted (__call__ [Toy.example] 6 1 64 false))) as [f|] eqn:Hhead;
    [|by vm_compute in Hhead].
  destruct (candidates_inside_document [Toy.example] 6 1 64 false f 0
              (RawResult.mk 1000000000 [0; 0; 0; 5; 1; 0]%Q [0; 0; 0; 1; 4; 0]%Q) 2 5)
    as (prelim_predictions & Hprelim & Hinside).
  { apply list_elem_of_In. destruct (emitted _); [done|]. left.
    cbn in Hhead. congruence. }
  exists f, prelim_predictions. split; [done|]. split; [done|]. split; [|done].
  revert Hhead Hprelim. vm_compute. intros [= <-]. by intros [= <-].
Defined.

End CandidatesRun.

(** ** The null score *)

Lemma null_score_of_unique (unique_id_to_result : gmap Z RawResult.t)
    (feature : InputFeatures.t) (s e s' e' : Q) :
  null_score_of unique_id_to_result feature s e ->
  null_score_of unique_id_to_result feature s' e' -> s = s' /\ e = e'.
Proof. intros (r & Hr & Hs & He) (r' & Hr' & Hs' & He'). split; congruence. Qed.

Lemma null_score_step_so_far (unique_id_to_result : gmap Z RawResult.t)
    (visited : list InputFeatures.t) (feature : InputFeatures.t) (st st' : NullScore) :
  null_score_so_far unique_id_to_result visited st ->
  null_score_step unique_id_to_result true st (len visited, feature) = Some st' ->
  null_score_so_far unique_id_to_result (visited ++ [feature]) st'.
Proof.
  intros [Hall Hbest]. unfold null_score_step.
  destruct (unique_id_to_result !! _) as [result|] eqn:Hresult; [|done].
  cbn [mbind option_bind py_index Z.leb Z.compare]. change (Z.to_nat 0) with 0%nat.
  destruct (RawResult.start_logits result !! 0%nat) as [s0|] eqn:Hs0;
    cbn [mbind option_bind]; [|done].
  destruct (RawResult.end_logits result !! 0%nat) as [e0|] eqn:He0;
    cbn [mbind option_bind]; [|done].
  cbv zeta. set (x := fadd (float_of_Q s0) (float_of_Q e0)).
  assert (Hfeature : null_score_of unique_id_to_result feature s0 e0).
  { by exists result. }
  assert (Hbound : fle (score_null st) (float_of_Z 1000000)).
  { destruct Hbest as [->|(_ & _ & _ & _ & _ & _ & Hlt & _)]; [|by apply flt_fle].
    by vm_compute. }
  unfold fgt. destruct (SFltb x (score_null st)) eqn:Hgt; intros [= <-].
  - split.
    + intros k f Hk. apply lookup_snoc_Some in Hk as [[_ Hk]|[_ <-]].
      * destruct (Hall k f Hk) as (s & e & Hf & Hnot). exists s, e. split; [done|].
        cbn. intros Hlt. apply Hnot. by eapply flt_trans.
      * exists s0, e0. split; [done|]. cbn. apply flt_irrefl.
    + right. exists (length visited), feature. cbn. split_and!; try done.
      * by apply list_lookup_middle.
      * by eapply flt_fle_trans.
      * intros k' f' s e Hk' Hf' Hscore Hle. rewrite lookup_app_l in Hf' by done.
        destruct (Hall k' f' Hf') as (s' & e' & Hscore' & Hnot).
        destruct (null_score_of_unique _ _ _ _ _ _ Hscore Hscore') as [-> ->].
        apply Hnot. by eapply fle_flt_trans.
  - split.
    + intros k f Hk. apply lookup_snoc_Some in Hk as [[_ Hk]|[_ <-]].
      * by apply (Hall k).
      * exists s0, e0. split; [done|]. unfold flt. fold x. congruence.
    + destruct Hbest as [->|(k & f & Hk & Hscore & Heq & Hidx & Hlt & Hfirst)];
        [by left|right].
      exists k, f. split_and!; try done.
      * by apply lookup_app_l_Some.
      * intros k' f' s e Hk' Hf' Hscore'. apply (Hfirst k' f' s e); [done| |done].
        apply lookup_lt_Some in Hk. by rewrite lookup_app_l in Hf' by lia.
Qed.

Lemma null_score_loop_so_far (unique_id_to_result : gmap Z RawResult.t)
    (features : list InputFeatures.t) :
  forall (visited : list InputFeatures.t) (st st' : NullScore),
    null_score_so_far unique_id_to_result visited st ->
    null_score_loop unique_id_to_result true (enumerate_from (len visited) features) st
    = Some st' ->
    null_score_so_far unique_id_to_result (visited ++ features) st'.
Proof.
  induction features as [|feature features IH]; intros visited st st' Hinv Hrun;
    cbn [enumerate_from null_score_loop] in Hrun.
  - injection Hrun as <-. by rewrite app_nil_r.
  - destruct (null_score_step _ _ _ _) as [st1|] eqn:Hstep; [|done].
    cbn [mbind option_bind] in Hrun.
    rewrite cons_middle, app_assoc. apply (IH _ st1).
    + by eapply null_score_step_so_far.
    + by rewrite len_app.
Qed.

(** X30: with the null option, when the loop over the features of an example
    ends, no feature has a null score (the binary64 sum of its two logits at
    position 0) less than [score_null], and [score_null] is at most its
    initial value 1000000; and unless the initial values are still there,
    [score_null] is the null score of the feature whose index and logits are
    kept, and no earlier feature has a null score less than or equal to it:
    the first feature of least null score is kept. *)
Theorem null_score_minimum (unique_id_to_result : gmap Z RawResult.t)
    (features : list InputFeatures.t) (st : NullScore) :
  null_score_loop unique_id_to_result true (enumerate features) null_score_init
  = Some st ->
  null_score_so_far unique_id_to_result features st
  /\ fle (score_null st) (float_of_Z 1000000).
Proof.
  intros Hrun.
  assert (Hinv : null_score_so_far unique_id_to_result features st).
  { apply (null_score_loop_so_far _ features [] null_score_init st); [|done].
    split; [done|by left]. }
  split; [done|].
  destruct Hinv as [_ [->|(_ & _ & _ & _ & _ & _ & Hlt & _)]]; [by vm_compute|].
  by apply flt_fle.
Qed.

(** Three features with the logits (0.1, 0.2), (0.3, 0.0) and (0.25, 0.05) at
    position 0: in binary64 the first sum is [0.30000000000000004] and the two
    others are [0.3], so the second feature is kept. *)
Lemma null_score_minimum_witness :
  let unique_id_to_result : gmap Z RawResult.t :=
    {[ 7 := RawResult.mk 7 [1 # 10; 0]%Q [2 # 10; 0]%Q;
       8 := RawResult.mk 8 [3 # 10; 0]%Q [0; 0]%Q;
       9 := RawResult.mk 9 [1 # 4; 0]%Q [1 # 20; 0]%Q ]} in
  let features :=
    [Toy.feature_of_length 7 2; Toy.feature_of_length 8 2; Toy.feature_of_length 9 2] in
  exists st,
    null_score_loop unique_id_to_result true (enumerate features) null_score_init
    = Some st
    /\ min_null_feature_index st = 1
    /\ null_score_so_far unique_id_to_result features st
    /\ fle (score_null st) (float_of_Z 1000000).
Proof.
  cbv zeta. eexists. split; [by vm_compute|]. split; [done|].
  by apply null_score_minimum.
Defined.
